(** * SP-BAND: a shallow embedding of [SPBAND/parameterize_spectra.py]

    The development follows the Python module function by function.

    Numeric values.  A Python / NumPy [float64] is modelled by the type
    [float] below: a finite value is a real number and arithmetic on finite
    values is exact (no rounding, no overflow, no signed zero); the three
    special values [NaN], [PInf] and [NInf] follow the IEEE rules that NumPy
    applies to them.  Arrays are lists.

    Exceptions.  A computation that may raise returns a [result]; a method
    of [ParamSpectra] is a function of the object's state that returns the
    outcome together with the state it leaves behind, so that what a method
    mutated before it raised stays visible, as in Python.

    External code.  [scipy.optimize.curve_fit], [scipy.signal.find_peaks],
    [scipy.signal.peak_widths] and [fooof.utils.interpolate_spectrum] are not
    part of the repository; they are the fields of the record [Externals]
    that every function calling them takes as an argument.

    Printing.  Diagnostic printing ([verbose]) is not modelled.  Two print
    statements can raise where the model goes on: the one of [fit] at
    verbosity 2 and above reads [freqs.shape] and [power_spectrum.shape]
    and fails when [fit] is called without these arguments, and the one of
    [_prepare_data] at verbosity 3 and above divides by [linenoise] and
    fails when there is none.  The theorems on the outcome of [fit] in the
    sections on the aborted fit, on fitting without data and on the
    solver failure assume a verbosity of at most 1. *)

From Stdlib Require Import Reals Lra Lia ZArith String Bool Arith List Sorted.
Import ListNotations.

(** ** Exceptions and results *)

Inductive exn : Type :=
| FitError
| NoDataError
| DataError
| InconsistentDataError
| IncompatibleSettingsError
| NoModelError
| ValueError
| RuntimeError
| TypeError
| IndexError
| OverflowError
| AttributeError.

Definition exn_eqb (a b : exn) : bool :=
  match a, b with
  | FitError, FitError | NoDataError, NoDataError | DataError, DataError
  | InconsistentDataError, InconsistentDataError
  | IncompatibleSettingsError, IncompatibleSettingsError
  | NoModelError, NoModelError | ValueError, ValueError
  | RuntimeError, RuntimeError | TypeError, TypeError
  | IndexError, IndexError | OverflowError, OverflowError
  | AttributeError, AttributeError => true
  | _, _ => false
  end.

Inductive result (A : Type) : Type :=
| Ok (a : A)
| Raise (e : exn).

Arguments Ok {A} a.
Arguments Raise {A} e.

Definition rbind {A B} (r : result A) (k : A -> result B) : result B :=
  match r with
  | Ok a => k a
  | Raise e => Raise e
  end.

Declare Scope res_scope.
Delimit Scope res_scope with res.
Notation "x <- c ;; k" := (rbind c (fun x => k))
  (at level 61, c at next level, right associativity) : res_scope.
Notation "' p <- c ;; k" := (rbind c (fun x => let 'p := x in k))
  (at level 61, p pattern, c at next level, right associativity) : res_scope.

Fixpoint mapM {A B} (f : A -> result B) (l : list A) : result (list B) :=
  match l with
  | [] => Ok []
  | a :: l' =>
      (b <- f a ;;
       bs <- mapM f l' ;;
       Ok (b :: bs))%res
  end.

(** ** Floating-point values *)

Inductive float : Type :=
| NaN
| NInf
| PInf
| Fin (r : R).

Module F.

Open Scope R_scope.

Definition Rltb (x y : R) : bool := if Rlt_dec x y then true else false.
Definition Rleb (x y : R) : bool := if Rle_dec x y then true else false.
Definition Reqb (x y : R) : bool := if Req_dec_T x y then true else false.

Definition zero : float := Fin 0.
Definition one : float := Fin 1.
Definition of_Z (z : Z) : float := Fin (IZR z).

Definition isnan (a : float) : bool :=
  match a with NaN => true | _ => false end.

Definition isinf (a : float) : bool :=
  match a with NInf | PInf => true | _ => false end.

Definition isfinite (a : float) : bool :=
  match a with Fin _ => true | _ => false end.

Definition neg (a : float) : float :=
  match a with
  | NaN => NaN
  | NInf => PInf
  | PInf => NInf
  | Fin x => Fin (- x)
  end.

Definition add (a b : float) : float :=
  match a, b with
  | NaN, _ | _, NaN => NaN
  | PInf, NInf | NInf, PInf => NaN
  | PInf, _ | _, PInf => PInf
  | NInf, _ | _, NInf => NInf
  | Fin x, Fin y => Fin (x + y)
  end.

Definition sub (a b : float) : float := add a (neg b).

(** The sign of a finite value decides the product with an infinity;
    zero times an infinity is NaN. *)
Definition scale_inf (pos : bool) (x : R) : float :=
  if Rltb 0 x then (if pos then PInf else NInf)
  else if Rltb x 0 then (if pos then NInf else PInf)
  else NaN.

Definition mul (a b : float) : float :=
  match a, b with
  | NaN, _ | _, NaN => NaN
  | PInf, PInf | NInf, NInf => PInf
  | PInf, NInf | NInf, PInf => NInf
  | PInf, Fin x | Fin x, PInf => scale_inf true x
  | NInf, Fin x | Fin x, NInf => scale_inf false x
  | Fin x, Fin y => Fin (x * y)
  end.

(** NumPy division: a finite value over zero is an infinity of the
    numerator's sign, zero over zero is NaN; nothing is raised. *)
Definition div (a b : float) : float :=
  match a, b with
  | NaN, _ | _, NaN => NaN
  | (PInf | NInf), (PInf | NInf) => NaN
  | PInf, Fin y => if Rltb y 0 then NInf else PInf
  | NInf, Fin y => if Rltb y 0 then PInf else NInf
  | Fin _, (PInf | NInf) => Fin 0
  | Fin x, Fin y =>
      if Reqb y 0 then scale_inf true x else Fin (x / y)
  end.

Definition abs (a : float) : float :=
  match a with
  | NaN => NaN
  | NInf | PInf => PInf
  | Fin x => Fin (Rabs x)
  end.

(** Comparisons: every comparison with NaN is false. *)
Definition ltb (a b : float) : bool :=
  match a, b with
  | NaN, _ | _, NaN => false
  | _, NInf => false
  | NInf, _ => true
  | PInf, _ => false
  | Fin _, PInf => true
  | Fin x, Fin y => Rltb x y
  end.

Definition leb (a b : float) : bool :=
  match a, b with
  | NaN, _ | _, NaN => false
  | NInf, _ => true
  | _, PInf => true
  | _, NInf => false
  | PInf, _ => false
  | Fin x, Fin y => Rleb x y
  end.

Definition gtb (a b : float) : bool := ltb b a.
Definition geb (a b : float) : bool := leb b a.

Definition eqb (a b : float) : bool :=
  match a, b with
  | NInf, NInf | PInf, PInf => true
  | Fin x, Fin y => Reqb x y
  | _, _ => false
  end.

(** Python truth value of a float: zero is false, everything else
    (NaN included) is true. *)
Definition truthy (a : float) : bool := negb (eqb a zero).

Definition exp (a : float) : float :=
  match a with
  | NaN => NaN
  | NInf => Fin 0
  | PInf => PInf
  | Fin x => Fin (Rtrigo_def.exp x)
  end.

(** Natural logarithm: minus infinity at zero, NaN below. *)
Definition log (a : float) : float :=
  match a with
  | NaN | NInf => NaN
  | PInf => PInf
  | Fin x =>
      if Rltb 0 x then Fin (ln x)
      else if Reqb x 0 then NInf else NaN
  end.

Definition log10 (a : float) : float :=
  match a with
  | NaN | NInf => NaN
  | PInf => PInf
  | Fin x =>
      if Rltb 0 x then Fin (ln x / ln 10)
      else if Reqb x 0 then NInf else NaN
  end.

Definition sqrt (a : float) : float :=
  match a with
  | NaN | NInf => NaN
  | PInf => PInf
  | Fin x => if Rleb 0 x then Fin (R_sqrt.sqrt x) else NaN
  end.

(** Integer-valued reals and their parity, for powers of a negative base. *)
Definition is_int (y : R) : bool := Reqb (IZR (Int_part y)) y.
Definition is_odd_int (y : R) : bool := is_int y && Z.odd (Int_part y).

(** [x ** y] (C [pow]).  For a positive finite base this is
    [Rpower x y = exp (y * ln x)]. *)
Definition pow (a b : float) : float :=
  match a, b with
  | _, Fin y =>
      if Reqb y 0 then Fin 1
      else
        match a with
        | NaN => NaN
        | PInf => if Rltb y 0 then Fin 0 else PInf
        | NInf =>
            if Rltb y 0 then Fin 0
            else if is_odd_int y then NInf else PInf
        | Fin x =>
            if Rltb 0 x then Fin (Rpower x y)
            else if Reqb x 0 then (if Rltb y 0 then PInf else Fin 0)
            else if is_int y then
                   (if is_odd_int y then Fin (- Rpower (- x) y)
                    else Fin (Rpower (- x) y))
            else NaN
        end
  | Fin x, NaN => if Reqb x 1 then Fin 1 else NaN
  | _, NaN => NaN
  | NaN, _ => NaN
  | Fin x, PInf =>
      if Reqb (Rabs x) 1 then Fin 1
      else if Rltb (Rabs x) 1 then Fin 0 else PInf
  | Fin x, NInf =>
      if Reqb (Rabs x) 1 then Fin 1
      else if Rltb (Rabs x) 1 then PInf else Fin 0
  | (PInf | NInf), PInf => PInf
  | (PInf | NInf), NInf => Fin 0
  end.

(** [np.floor_divide] on floats: the floor of the quotient; a zero
    divisor gives the plain quotient (an infinity or NaN), an infinite
    dividend gives NaN. *)
Definition floordiv (a b : float) : float :=
  match a, b with
  | NaN, _ | _, NaN => NaN
  | _, Fin y =>
      if Reqb y 0 then div a b
      else match a with
           | Fin x => Fin (IZR (Int_part (x / y)))
           | _ => NaN
           end
  | Fin x, PInf => if Rltb x 0 then Fin (-1) else Fin 0
  | Fin x, NInf => if Rltb 0 x then Fin (-1) else Fin 0
  | _, _ => NaN
  end.

(** Python [int(x)]: truncation toward zero; NaN and the infinities
    raise. *)
Definition trunc (x : R) : Z :=
  if Rleb 0 x then Int_part x else (- Int_part (- x))%Z.

Definition to_int (a : float) : result Z :=
  match a with
  | NaN => Raise ValueError
  | NInf | PInf => Raise OverflowError
  | Fin x => Ok (trunc x)
  end.

End F.

Declare Scope float_scope.
Delimit Scope float_scope with fl.
Infix "+" := F.add : float_scope.
Infix "-" := F.sub : float_scope.
Infix "*" := F.mul : float_scope.
Infix "/" := F.div : float_scope.
Infix "<?" := F.ltb : float_scope.
Infix "<=?" := F.leb : float_scope.
Infix ">?" := F.gtb : float_scope.
Infix ">=?" := F.geb : float_scope.

(** ** NumPy arrays *)

Definition array := list float.

Module Np.

Open Scope R_scope.

Definition len (a : array) : Z := Z.of_nat (length a).

(** [a[i]] for a Python integer [i]: negative indices count from the end,
    an index out of range raises IndexError. *)
Definition index (a : array) (i : Z) : result float :=
  let j := if (i <? 0)%Z then (i + len a)%Z else i in
  if (j <? 0)%Z then Raise IndexError
  else match nth_error a (Z.to_nat j) with
       | Some v => Ok v
       | None => Raise IndexError
       end.

(** Element-wise binary operation with NumPy broadcasting of
    one-dimensional arrays: equal lengths, or one operand of length one;
    anything else raises ValueError. *)
Fixpoint zip_with (f : float -> float -> float) (a b : array) : array :=
  match a, b with
  | x :: a', y :: b' => f x y :: zip_with f a' b'
  | _, _ => []
  end.

Definition broadcast2 (f : float -> float -> float) (a b : array)
  : result array :=
  if Nat.eqb (length a) (length b) then Ok (zip_with f a b)
  else match a, b with
       | [x], _ => Ok (map (f x) b)
       | _, [y] => Ok (map (fun x => f x y) a)
       | _, _ => Raise ValueError
       end.

Definition sub (a b : array) : result array := broadcast2 F.sub a b.
Definition add (a b : array) : result array := broadcast2 F.add a b.
Definition div (a b : array) : result array := broadcast2 F.div a b.

(** [a[mask]] for a boolean mask: the mask must have the length of the
    array. *)
Fixpoint select_mask (mask : list bool) (a : array) : array :=
  match mask, a with
  | m :: mask', x :: a' =>
      if m then x :: select_mask mask' a' else select_mask mask' a'
  | _, _ => []
  end.

Definition select (mask : list bool) (a : array) : result array :=
  if Nat.eqb (length mask) (length a) then Ok (select_mask mask a)
  else Raise IndexError.

(** [a[mask] = v] *)
Fixpoint assign_mask (mask : list bool) (v : float) (a : array) : array :=
  match mask, a with
  | m :: mask', x :: a' => (if m then v else x) :: assign_mask mask' v a'
  | _, _ => a
  end.

(** Minimum and maximum: NaN wins, an empty array raises ValueError. *)
Definition fmin (a b : float) : float :=
  match a, b with
  | NaN, _ | _, NaN => NaN
  | _, _ => if F.leb a b then a else b
  end.

Definition fmax (a b : float) : float :=
  match a, b with
  | NaN, _ | _, NaN => NaN
  | _, _ => if F.leb b a then a else b
  end.

Definition min (a : array) : result float :=
  match a with
  | [] => Raise ValueError
  | x :: a' => Ok (fold_left fmin a' x)
  end.

Definition max (a : array) : result float :=
  match a with
  | [] => Raise ValueError
  | x :: a' => Ok (fold_left fmax a' x)
  end.

Definition sum (a : array) : float := fold_left F.add a F.zero.

(** The mean of an empty array is NaN (0/0), with a warning only. *)
Definition mean (a : array) : float := F.div (sum a) (F.of_Z (len a)).

Definition any (a : array) : bool := existsb F.truthy a.

Fixpoint diff (a : array) : array :=
  match a with
  | x :: ((y :: _) as a') => F.sub y x :: diff a'
  | _ => []
  end.

(** [np.isclose(a, b, rtol, atol)] *)
Definition isclose (a b : float) (rtol atol : R) : bool :=
  match a, b with
  | Fin x, Fin y => F.Rleb (Rabs (x - y)) (atol + rtol * Rabs y)
  | _, _ => F.eqb a b
  end.

Definition isclose_default (a b : float) : bool :=
  isclose a b (1 / 100000) (1 / 100000000).

(** Index of the first minimum; the first NaN, if there is one. *)
Fixpoint argmin_from (a : array) (i best : nat) (bv : float) : nat :=
  match a with
  | [] => best
  | x :: a' =>
      if F.isnan bv then best
      else if F.isnan x || F.ltb x bv then argmin_from a' (S i) i x
      else argmin_from a' (S i) best bv
  end.

Definition argmin (a : array) : result nat :=
  match a with
  | [] => Raise ValueError
  | x :: a' => Ok (argmin_from a' 1 0 x)
  end.

(** Sorting (arrays without NaN). *)
Fixpoint insert (x : float) (a : array) : array :=
  match a with
  | [] => [x]
  | y :: a' => if F.leb x y then x :: a else y :: insert x a'
  end.

Definition sort (a : array) : array := fold_right insert [] a.

(** [np.percentile(a, q)], method 'linear', for a scalar [q] given on the
    0-100 scale: the value at the virtual index [q/100 * (n-1)] of the
    sorted array, interpolated linearly between its two neighbours.
    A NaN anywhere (or an empty array) gives NaN; [q] outside [0, 100]
    raises ValueError. *)
Definition lerp (a b : float) (t : R) : float :=
  let d := F.sub b a in
  if F.Rleb (1 / 2) t then F.sub b (F.mul d (Fin (1 - t)))
  else F.add a (F.mul d (Fin t)).

Definition percentile (a : array) (q : float) : result float :=
  match q with
  | Fin q =>
      if negb (F.Rleb 0 q && F.Rleb q 100) then Raise ValueError
      else if existsb F.isnan a then Ok NaN
      else
        match a with
        | [] => Ok NaN
        | _ =>
            let s := sort a in
            let n := length a in
            let vi := q / 100 * (IZR (Z.of_nat n) - 1) in
            let lo := Z.to_nat (Int_part vi) in
            let hi := Nat.min (S lo) (n - 1) in
            let gamma := vi - IZR (Int_part vi) in
            Ok (lerp (nth lo s NaN) (nth hi s NaN) gamma)
        end
  | _ => Raise ValueError
  end.

(** [np.linspace(start, stop, num)] (endpoint included): a negative
    [num] raises ValueError; for [num > 1] the last sample is set to
    [stop]. *)
Definition linspace (start stop : float) (num : Z) : result array :=
  if (num <? 0)%Z then Raise ValueError
  else
    let n := Z.to_nat num in
    let delta := F.sub stop start in
    let step := F.div delta (F.of_Z (num - 1)) in
    let y := map (fun i =>
                    if (1 <? num)%Z
                    then F.add (F.mul (F.of_Z (Z.of_nat i)) step) start
                    else F.add (F.mul (F.of_Z (Z.of_nat i)) delta) start)
                 (seq 0 n) in
    Ok (if (1 <? num)%Z then removelast y ++ [stop] else y).

(** [np.logspace(start, stop, num, base)] *)
Definition logspace (start stop : float) (num : Z) (base : float)
  : result array :=
  (y <- linspace start stop num ;;
   Ok (map (F.pow base) y))%res.

(** [np.corrcoef(x, y)[0][1]]: the Pearson correlation coefficient,
    clipped to [-1, 1]; arrays of different lengths raise ValueError. *)
Definition cov (x y : array) : float :=
  let mx := mean x in
  let my := mean y in
  F.div (sum (zip_with (fun a b => F.mul (F.sub a mx) (F.sub b my)) x y))
        (F.of_Z (len x - 1)).

Definition clip (lo hi v : float) : float :=
  match v with
  | NaN => NaN
  | _ => if F.ltb v lo then lo else if F.ltb hi v then hi else v
  end.

Definition corrcoef01 (x y : array) : result float :=
  if negb (Nat.eqb (length x) (length y)) then Raise ValueError
  else
    let c := cov x y in
    let sx := F.sqrt (cov x x) in
    let sy := F.sqrt (cov y y) in
    Ok (clip (Fin (-1)) (Fin 1) (F.div (F.div c sx) sy)).

End Np.

(** ** External library functions *)

(** A model function as [curve_fit] receives it: [f(xdata, *params)]. *)
Definition model_fun := array -> list float -> result array.

(** Parameter bounds as [curve_fit] receives them: (lower, upper). *)
Definition bounds := (list float * list float)%type.

Record Externals : Type := {
  (** [curve_fit(f, xdata, ydata, p0, maxfev, bounds, tol)]: the optimal
      parameters, or the exception the solver raised. *)
  curve_fit : model_fun -> array -> array -> list float -> Z -> bounds ->
              option float -> result (list float);
  (** [find_peaks(x, height, prominence)]: indices of the peaks. *)
  find_peaks : array -> option float -> float -> result (list Z);
  (** [peak_widths(x, peaks, rel_height)]: the widths, in samples. *)
  peak_widths : array -> list Z -> float -> result (list float);
  (** [fooof.utils.interpolate_spectrum(freqs, powers, interp_range)] *)
  interpolate_spectrum : array -> array -> float * float ->
                         result (array * array)
}.

(** ** Module-level functions *)

Definition band := (float * float)%type.

Inductive bands_arg : Type :=
| BandsList (l : list band)
| BandsStr (s : string)
| BandsOther.

Open Scope string_scope.
Open Scope list_scope.

Definition np_e : float := Fin (exp 1).

(** The float nearest to the decimal literal [n/d]. *)
Definition ratio (n d : Z) : float := Fin (IZR n / IZR d).

(** Consecutive pairs: [[(a[i], a[i+1]) for i in range(len(a)-1)]]. *)
Fixpoint pairs (a : array) : list band :=
  match a with
  | x :: ((y :: _) as a') => (x, y) :: pairs a'
  | _ => []
  end.

(** The [n_division] log-spaced sub-bands of one band. *)
Definition divide_band (n_division : Z) (b : band) : list band :=
  let band_spacing :=
    F.div (F.log (F.div (snd b) (fst b))) (F.of_Z n_division) in
  map (fun division =>
         (F.mul (fst b)
            (F.exp (F.mul band_spacing (F.of_Z (Z.of_nat division)))),
          F.mul (fst b)
            (F.exp (F.mul band_spacing (F.of_Z (Z.of_nat division + 1))))))
      (seq 0 (Z.to_nat n_division)).

Definition str2band (bands : bands_arg) (max_n_peaks : Z)
    (l_freq h_freq : float) (n_division : Z)
  : result (list band * string) :=
  match bands with
  | BandsList l => Ok (l, "custom")
  | BandsStr s =>
      (common_freq_bins <-
         (if String.eqb s "log" then
            let max_n_peaks :=
              if (62 <? max_n_peaks)%Z then 62%Z else max_n_peaks in
            common_freqs <-
              Np.logspace (F.log l_freq) (F.log h_freq) (max_n_peaks + 1)
                np_e ;;
            Ok (pairs common_freqs)
          else if String.eqb s "linear" then
            common_freqs <- Np.linspace l_freq h_freq (max_n_peaks + 1) ;;
            Ok (pairs common_freqs)
          else if String.eqb s "log10" then
            common_freqs <-
              Np.logspace (F.log10 l_freq) (F.log10 h_freq)
                (max_n_peaks + 1) (Fin 10) ;;
            Ok (pairs common_freqs)
          else if String.eqb s "standard" then
            Ok [(ratio 3 10, ratio 3 2); (ratio 3 2, Fin 4); (Fin 4, Fin 8);
                (Fin 8, ratio 25 2); (ratio 25 2, Fin 30); (Fin 30, Fin 70);
                (Fin 70, Fin 150); (Fin 150, Fin 250)]
          else if String.eqb s "standard_nohigh" then
            Ok [(ratio 3 10, ratio 3 2); (ratio 3 2, Fin 4); (Fin 4, Fin 8);
                (Fin 8, ratio 25 2); (ratio 25 2, Fin 30); (Fin 30, Fin 70);
                (Fin 70, Fin 150)]
          else if String.eqb s "buzsaki" then
            Ok [(ratio 1 5, ratio 1 2); (ratio 1 2, ratio 10 7); (ratio 3 2, Fin 4);
                (Fin 4, Fin 10); (Fin 10, Fin 30); (Fin 30, Fin 80);
                (Fin 80, Fin 200); (Fin 200, Fin 600)]
          else Raise ValueError) ;;
       let common_freq_bins :=
         if (1 <? n_division)%Z
         then flat_map (divide_band n_division) common_freq_bins
         else common_freq_bins in
       Ok (common_freq_bins, s))%res
  | BandsOther => Raise ValueError
  end.

Definition trim_spectrum (freqs power_spectra : array) (f_range : float * float)
  : result (array * array) :=
  let f_mask :=
    map (fun f => F.geb f (fst f_range) && F.leb f (snd f_range)) freqs in
  (freqs_ext <- Np.select f_mask freqs ;;
   power_spectra_ext <- Np.select f_mask power_spectra ;;
   Ok (freqs_ext, power_spectra_ext))%res.

(** [expo_function(xs, *params)]: the aperiodic component with a knee. *)
Definition expo_function : model_fun := fun xs params =>
  match params with
  | [offset; knee; exp] =>
      let inner_arg := map (fun x => F.add knee (F.pow x exp)) xs in
      (m <- Np.min
              (Np.select_mask (map (fun v => F.gtb v F.zero) inner_arg)
                 inner_arg) ;;
       let inner_arg :=
         Np.assign_mask (map (fun v => F.leb v F.zero) inner_arg) m
           inner_arg in
       Ok (map (fun v => F.sub offset (F.log10 v)) inner_arg))%res
  | _ => Raise ValueError
  end.

(** [expo_nk_function(xs, *params)]: the aperiodic component, no knee. *)
Definition expo_nk_function : model_fun := fun xs params =>
  match params with
  | [offset; exp] =>
      Ok (map (fun x => F.sub offset (F.log10 (F.pow x exp))) xs)
  | _ => Raise ValueError
  end.

Definition get_ap_func (aperiodic_mode : string) : result model_fun :=
  if String.eqb aperiodic_mode "fixed" then Ok expo_nk_function
  else if String.eqb aperiodic_mode "knee" then Ok expo_function
  else Raise ValueError.

Definition infer_ap_func (aperiodic_params : list float) : result string :=
  if Nat.eqb (length aperiodic_params) 2 then Ok "fixed"
  else if Nat.eqb (length aperiodic_params) 3 then Ok "knee"
  else Raise InconsistentDataError.

(** [gen_aperiodic(freqs, aperiodic_params, aperiodic_mode=None)]; a
    missing frequency array makes the arithmetic raise TypeError. *)
Definition gen_aperiodic (freqs : option array) (aperiodic_params : list float)
    (aperiodic_mode : option string) : result array :=
  (aperiodic_mode <-
     match aperiodic_mode with
     | Some m => if String.eqb m "" then infer_ap_func aperiodic_params
                 else Ok m
     | None => infer_ap_func aperiodic_params
     end ;;
   ap_func <- get_ap_func aperiodic_mode ;;
   match freqs with
   | Some xs => ap_func xs aperiodic_params
   | None =>
       if Nat.eqb (length aperiodic_params)
                  (if String.eqb aperiodic_mode "fixed" then 2 else 3)
       then Raise TypeError else Raise ValueError
   end)%res.

(** [detect_powerline_harmonics_peak_widths(frequencies, psd, harmonics,
    threshold, prominence)] *)
Definition at_harmonic (freq : float) (harmonics : list Z) : bool :=
  existsb (fun harmonic =>
             Np.isclose freq (F.of_Z harmonic) (5 / 100) (1 / 100000000))
          harmonics.

Definition detect_powerline_harmonics_peak_widths (E : Externals)
    (frequencies psd : array) (harmonics : list Z) (threshold : option float)
    (prominence : float)
  : result (list float * list (float * float)) :=
  (peaks <- find_peaks E (map F.log10 psd) threshold prominence ;;
   keep <- mapM (fun peak =>
                   freq <- Np.index frequencies peak ;;
                   Ok (at_harmonic freq harmonics)) peaks ;;
   let detected_peaks :=
     map fst (filter snd (combine peaks keep)) in
   freq_ranges <-
     (if (0 <? Z.of_nat (length detected_peaks))%Z then
        widths <- peak_widths E psd detected_peaks (ratio 1 2) ;;
        let len_freqs := (Np.len frequencies - 1)%Z in
        mapM (fun '(pk, wd) =>
                lo <- F.to_int (F.sub (F.of_Z pk) wd) ;;
                lo_f <- Np.index frequencies (Z.max lo 0) ;;
                hi <- F.to_int (F.add (F.of_Z pk) wd) ;;
                hi_f <- Np.index frequencies (Z.min hi len_freqs) ;;
                Ok (lo_f, hi_f))
             (combine detected_peaks widths)
      else Ok []) ;;
   freq_peaks <- mapM (Np.index frequencies) detected_peaks ;;
   Ok (freq_peaks, freq_ranges))%res.

(** [compute_gauss_std(fwhm)]: the standard deviation of a gaussian whose
    full width at half maximum is [fwhm]. *)
Definition compute_gauss_std (fwhm : float) : float :=
  F.div fwhm
    (F.mul (Fin 2) (F.sqrt (F.mul (Fin 2) (F.log (Fin 2))))).

(** [scipy.stats.norm.pdf(x, loc, scale)]: NaN unless [scale > 0]. *)
Definition norm_pdf (x loc scale : float) : float :=
  if F.gtb scale F.zero then
    let z := F.div (F.sub x loc) scale in
    F.div
      (F.div (F.exp (F.div (F.neg (F.mul z z)) (Fin 2)))
             (F.sqrt (Fin (2 * PI))))
      scale
  else NaN.

Definition gen_gaussian (x : array) (amplitude mean std_dev : float) : array :=
  map (fun xi => F.mul amplitude (norm_pdf xi mean std_dev)) x.

(** The rows of a flat parameter array reshaped to [(n, 3)]. *)
Fixpoint rows3 (params : list float) : list (float * float * float) :=
  match params with
  | a :: m :: s :: params' => (a, m, s) :: rows3 params'
  | _ => []
  end.

Definition sum_of_gaussians (x : array) (bands : list band)
    (params : list float) : result array :=
  if Nat.eqb (length params) (3 * length bands) then
    Ok (fold_left
          (fun result '(a, m, s) =>
             Np.zip_with F.add result (gen_gaussian x a m s))
          (rows3 params) (map (fun _ => F.zero) x))
  else Raise ValueError.

(** The frequencies and bands in the domain the peaks are fitted in. *)
Definition fit_domain (freqs : array) (bands : list band) (log_freqs : bool)
  : array * list band :=
  if log_freqs
  then (map F.log freqs,
        map (fun '(l, h) => (F.log l, F.log h)) bands)
  else (freqs, bands).

(** One turn of the loop of [constrained_gaussian_fit]: the initial guess
    and the (lower, upper) bounds of the three parameters of one band. *)
Definition band_guess_bounds (freqs power_spectrum : array) (b : band)
  : result (list float * list (float * float)) :=
  let '(l_bound, h_bound) := b in
  let in_band :=
    map (fun f => F.gtb f l_bound && F.leb f h_bound) freqs in
  (band_vals <- Np.select in_band power_spectrum ;;
   freqs_in_band <- Np.select in_band freqs ;;
   amp <- Np.max band_vals ;;
   Ok ([amp; Np.mean freqs_in_band;
        compute_gauss_std (F.div (F.sub h_bound l_bound) (Fin 2))],
       [(NInf, PInf); (l_bound, h_bound);
        (F.zero, compute_gauss_std (F.sub h_bound l_bound))]))%res.

Definition guess_bounds (freqs power_spectrum : array) (bands : list band)
  : result (list float * list (float * float)) :=
  (per_band <- mapM (band_guess_bounds freqs power_spectrum) bands ;;
   Ok (concat (map fst per_band), concat (map snd per_band)))%res.

Definition constrained_gaussian_fit (E : Externals)
    (freqs : option array) (power_spectrum : array) (bands : list band)
    (log_freqs : bool) : result (list float) :=
  match freqs with
  | None => Raise TypeError
  | Some freqs =>
      let '(freqs, bands) := fit_domain freqs bands log_freqs in
      let my_func : model_fun :=
        fun x params => sum_of_gaussians x bands params in
      (gb <- guess_bounds freqs power_spectrum bands ;;
       let '(initial_guess, bnds) := gb in
       let bnds := (map fst bnds, map snd bnds) in
       curve_fit E my_func freqs power_spectrum initial_guess 10000 bnds
         None)%res
  end.

(** ** The state of a [ParamSpectra] object *)

(** Settings: what [__init__] fixes from its arguments, and the private
    settings it sets to constants. *)
Record Settings : Type := {
  bands : list band;
  bandname : string;
  l_freq : float;
  h_freq : float;
  aperiodic_mode : string;
  verbose : Z;
  log_freqs : bool;
  n_division : Z;
  linenoise : option float;
  prominence : float;
  max_n_peaks : Z;
  iterate_peaks : bool;
  _ap_percentile_thresh : float;
  _ap_guess : option float * float * option float;
  _ap_bounds : bounds;
  _bw_std_edge : float;
  _gauss_overlap_thresh : float;
  _cf_bound : float;
  _error_metric : string;
  _maxfev : Z;
  _tol : float;
  _debug : bool;
  _check_freqs : bool;
  _check_data : bool
}.

(** Data attributes; [None] is Python's [None]. *)
Record Data : Type := {
  freqs : option array;
  freq_range : option (float * float);
  freq_res : option float;
  power_spectrum : option array
}.

(** Model results. *)
Record Results : Type := {
  aperiodic_params_ : list float;
  gaussian_params_ : list float;
  peak_params_ : list (float * float * float);
  r_squared_ : float;
  error_ : float;
  modeled_spectrum_ : option array;
  _spectrum_flat : option array;
  _spectrum_peak_rm : option array;
  _ap_fit : option array;
  _peak_fit : option array;
  _noise_pks : option (list float);
  _noise_ranges : option (list (float * float))
}.

(** [_max_harmonic] does not exist before data is first prepared. *)
Record ParamSpectra : Type := {
  settings : Settings;
  data : Data;
  results : Results;
  _max_harmonic : option Z
}.

Definition with_settings (s : Settings) (self : ParamSpectra) :=
  {| settings := s; data := data self; results := results self;
     _max_harmonic := _max_harmonic self |}.

Definition with_data (d : Data) (self : ParamSpectra) :=
  {| settings := settings self; data := d; results := results self;
     _max_harmonic := _max_harmonic self |}.

Definition with_results (r : Results) (self : ParamSpectra) :=
  {| settings := settings self; data := data self; results := r;
     _max_harmonic := _max_harmonic self |}.

Definition with_max_harmonic (m : Z) (self : ParamSpectra) :=
  {| settings := settings self; data := data self; results := results self;
     _max_harmonic := Some m |}.

Definition settings_with_prominence (p : float) (s : Settings) : Settings :=
  {| bands := bands s; bandname := bandname s; l_freq := l_freq s;
     h_freq := h_freq s; aperiodic_mode := aperiodic_mode s;
     verbose := verbose s; log_freqs := log_freqs s;
     n_division := n_division s; linenoise := linenoise s;
     prominence := p; max_n_peaks := max_n_peaks s;
     iterate_peaks := iterate_peaks s;
     _ap_percentile_thresh := _ap_percentile_thresh s;
     _ap_guess := _ap_guess s; _ap_bounds := _ap_bounds s;
     _bw_std_edge := _bw_std_edge s;
     _gauss_overlap_thresh := _gauss_overlap_thresh s;
     _cf_bound := _cf_bound s; _error_metric := _error_metric s;
     _maxfev := _maxfev s; _tol := _tol s; _debug := _debug s;
     _check_freqs := _check_freqs s; _check_data := _check_data s |}.

Definition data_with_power_spectrum (p : option array) (d : Data) : Data :=
  {| freqs := freqs d; freq_range := freq_range d; freq_res := freq_res d;
     power_spectrum := p |}.

(** Results: one update per attribute that the methods assign. *)
Definition upd_aperiodic_params_ (v : list float) (r : Results) : Results :=
  {| aperiodic_params_ := v; gaussian_params_ := gaussian_params_ r;
     peak_params_ := peak_params_ r; r_squared_ := r_squared_ r;
     error_ := error_ r; modeled_spectrum_ := modeled_spectrum_ r;
     _spectrum_flat := _spectrum_flat r;
     _spectrum_peak_rm := _spectrum_peak_rm r; _ap_fit := _ap_fit r;
     _peak_fit := _peak_fit r; _noise_pks := _noise_pks r;
     _noise_ranges := _noise_ranges r |}.

Definition upd_gaussian_params_ (v : list float) (r : Results) : Results :=
  {| aperiodic_params_ := aperiodic_params_ r; gaussian_params_ := v;
     peak_params_ := peak_params_ r; r_squared_ := r_squared_ r;
     error_ := error_ r; modeled_spectrum_ := modeled_spectrum_ r;
     _spectrum_flat := _spectrum_flat r;
     _spectrum_peak_rm := _spectrum_peak_rm r; _ap_fit := _ap_fit r;
     _peak_fit := _peak_fit r; _noise_pks := _noise_pks r;
     _noise_ranges := _noise_ranges r |}.

Definition upd_peak_params_ (v : list (float * float * float)) (r : Results)
  : Results :=
  {| aperiodic_params_ := aperiodic_params_ r;
     gaussian_params_ := gaussian_params_ r;
     peak_params_ := v; r_squared_ := r_squared_ r;
     error_ := error_ r; modeled_spectrum_ := modeled_spectrum_ r;
     _spectrum_flat := _spectrum_flat r;
     _spectrum_peak_rm := _spectrum_peak_rm r; _ap_fit := _ap_fit r;
     _peak_fit := _peak_fit r; _noise_pks := _noise_pks r;
     _noise_ranges := _noise_ranges r |}.

Definition upd_r_squared_ (v : float) (r : Results) : Results :=
  {| aperiodic_params_ := aperiodic_params_ r;
     gaussian_params_ := gaussian_params_ r;
     peak_params_ := peak_params_ r; r_squared_ := v;
     error_ := error_ r; modeled_spectrum_ := modeled_spectrum_ r;
     _spectrum_flat := _spectrum_flat r;
     _spectrum_peak_rm := _spectrum_peak_rm r; _ap_fit := _ap_fit r;
     _peak_fit := _peak_fit r; _noise_pks := _noise_pks r;
     _noise_ranges := _noise_ranges r |}.

Definition upd_error_ (v : float) (r : Results) : Results :=
  {| aperiodic_params_ := aperiodic_params_ r;
     gaussian_params_ := gaussian_params_ r;
     peak_params_ := peak_params_ r; r_squared_ := r_squared_ r;
     error_ := v; modeled_spectrum_ := modeled_spectrum_ r;
     _spectrum_flat := _spectrum_flat r;
     _spectrum_peak_rm := _spectrum_peak_rm r; _ap_fit := _ap_fit r;
     _peak_fit := _peak_fit r; _noise_pks := _noise_pks r;
     _noise_ranges := _noise_ranges r |}.

Definition upd_modeled_spectrum_ (v : option array) (r : Results) : Results :=
  {| aperiodic_params_ := aperiodic_params_ r;
     gaussian_params_ := gaussian_params_ r;
     peak_params_ := peak_params_ r; r_squared_ := r_squared_ r;
     error_ := error_ r; modeled_spectrum_ := v;
     _spectrum_flat := _spectrum_flat r;
     _spectrum_peak_rm := _spectrum_peak_rm r; _ap_fit := _ap_fit r;
     _peak_fit := _peak_fit r; _noise_pks := _noise_pks r;
     _noise_ranges := _noise_ranges r |}.

Definition upd_spectrum_flat (v : option array) (r : Results) : Results :=
  {| aperiodic_params_ := aperiodic_params_ r;
     gaussian_params_ := gaussian_params_ r;
     peak_params_ := peak_params_ r; r_squared_ := r_squared_ r;
     error_ := error_ r; modeled_spectrum_ := modeled_spectrum_ r;
     _spectrum_flat := v;
     _spectrum_peak_rm := _spectrum_peak_rm r; _ap_fit := _ap_fit r;
     _peak_fit := _peak_fit r; _noise_pks := _noise_pks r;
     _noise_ranges := _noise_ranges r |}.

Definition upd_spectrum_peak_rm (v : option array) (r : Results) : Results :=
  {| aperiodic_params_ := aperiodic_params_ r;
     gaussian_params_ := gaussian_params_ r;
     peak_params_ := peak_params_ r; r_squared_ := r_squared_ r;
     error_ := error_ r; modeled_spectrum_ := modeled_spectrum_ r;
     _spectrum_flat := _spectrum_flat r;
     _spectrum_peak_rm := v; _ap_fit := _ap_fit r;
     _peak_fit := _peak_fit r; _noise_pks := _noise_pks r;
     _noise_ranges := _noise_ranges r |}.

Definition upd_ap_fit (v : option array) (r : Results) : Results :=
  {| aperiodic_params_ := aperiodic_params_ r;
     gaussian_params_ := gaussian_params_ r;
     peak_params_ := peak_params_ r; r_squared_ := r_squared_ r;
     error_ := error_ r; modeled_spectrum_ := modeled_spectrum_ r;
     _spectrum_flat := _spectrum_flat r;
     _spectrum_peak_rm := _spectrum_peak_rm r; _ap_fit := v;
     _peak_fit := _peak_fit r; _noise_pks := _noise_pks r;
     _noise_ranges := _noise_ranges r |}.

Definition upd_peak_fit (v : option array) (r : Results) : Results :=
  {| aperiodic_params_ := aperiodic_params_ r;
     gaussian_params_ := gaussian_params_ r;
     peak_params_ := peak_params_ r; r_squared_ := r_squared_ r;
     error_ := error_ r; modeled_spectrum_ := modeled_spectrum_ r;
     _spectrum_flat := _spectrum_flat r;
     _spectrum_peak_rm := _spectrum_peak_rm r; _ap_fit := _ap_fit r;
     _peak_fit := v; _noise_pks := _noise_pks r;
     _noise_ranges := _noise_ranges r |}.

Definition upd_noise (pks : option (list float))
    (ranges : option (list (float * float))) (r : Results) : Results :=
  {| aperiodic_params_ := aperiodic_params_ r;
     gaussian_params_ := gaussian_params_ r;
     peak_params_ := peak_params_ r; r_squared_ := r_squared_ r;
     error_ := error_ r; modeled_spectrum_ := modeled_spectrum_ r;
     _spectrum_flat := _spectrum_flat r;
     _spectrum_peak_rm := _spectrum_peak_rm r; _ap_fit := _ap_fit r;
     _peak_fit := _peak_fit r; _noise_pks := pks;
     _noise_ranges := ranges |}.

(** ** Methods: state and exceptions *)

Definition M (A : Type) : Type := ParamSpectra -> result A * ParamSpectra.

Definition ret {A} (a : A) : M A := fun self => (Ok a, self).

Definition raise {A} (e : exn) : M A := fun self => (Raise e, self).

Definition bind {A B} (m : M A) (k : A -> M B) : M B :=
  fun self =>
    match m self with
    | (Ok a, self') => k a self'
    | (Raise e, self') => (Raise e, self')
    end.

(** A pure computation that may raise, run inside a method. *)
Definition lift {A} (r : result A) : M A := fun self => (r, self).

(** Read an attribute; assign attributes. *)
Definition gets {A} (f : ParamSpectra -> A) : M A :=
  fun self => (Ok (f self), self).

Definition modify (f : ParamSpectra -> ParamSpectra) : M unit :=
  fun self => (Ok tt, f self).

(** [try: body except E: handler] for the exception class [E]. *)
Definition try_except {A} (body : M A) (E : exn) (handler : M A) : M A :=
  fun self =>
    match body self with
    | (Raise e, self') =>
        if exn_eqb e E then handler self' else (Raise e, self')
    | r => r
    end.

Declare Scope meth_scope.
Delimit Scope meth_scope with meth.
Notation "x <- c ;; k" := (bind c (fun x => k))
  (at level 61, c at next level, right associativity) : meth_scope.
Notation "' p <- c ;; k" := (bind c (fun x => let 'p := x in k))
  (at level 61, p pattern, c at next level, right associativity) : meth_scope.
Notation "c ;;; k" := (bind c (fun _ => k))
  (at level 61, right associativity) : meth_scope.

Definition set_results (f : Results -> Results) : M unit :=
  modify (fun self => with_results (f (results self)) self).

(** An attribute that must hold an array: subscripting or arithmetic on
    [None] raises TypeError. *)
Definition the_array (a : option array) : result array :=
  match a with
  | Some v => Ok v
  | None => Raise TypeError
  end.

Open Scope meth_scope.

(** ** [ParamSpectra] *)

Definition has_data (self : ParamSpectra) : bool :=
  match power_spectrum (data self) with
  | Some p => Np.any p
  | None => false
  end.

Definition has_model (self : ParamSpectra) : bool :=
  negb (forallb F.isnan (aperiodic_params_ (results self))).

Definition cleared_results (aperiodic_mode : string) : Results :=
  {| aperiodic_params_ :=
       repeat NaN (if String.eqb aperiodic_mode "fixed" then 2 else 3);
     gaussian_params_ := [];
     peak_params_ := [];
     r_squared_ := NaN;
     error_ := NaN;
     modeled_spectrum_ := None;
     _spectrum_flat := None;
     _spectrum_peak_rm := None;
     _ap_fit := None;
     _peak_fit := None;
     _noise_pks := None;
     _noise_ranges := None |}.

Definition _reset_data_results (clear_freqs clear_spectrum clear_results : bool)
  : M unit :=
  modify (fun self =>
            if clear_freqs
            then with_data {| freqs := None; freq_range := None;
                              freq_res := None;
                              power_spectrum := power_spectrum (data self) |}
                   self
            else self) ;;;
  modify (fun self =>
            if clear_spectrum
            then with_data (data_with_power_spectrum None (data self)) self
            else self) ;;;
  modify (fun self =>
            if clear_results
            then with_results
                   (cleared_results (aperiodic_mode (settings self))) self
            else self).

(** [__init__]: the constructor; it raises what [str2band] raises. *)
Definition init (bands : bands_arg) (max_n_peaks : Z) (log_freqs : bool)
    (n_division : Z) (l_freq h_freq : float) (prominence : float)
    (linenoise : option float) (aperiodic_mode : string)
    (iterate_peaks : bool) (verbose : Z) : result ParamSpectra :=
  (' (resolved, bandname) <-
     str2band bands max_n_peaks l_freq h_freq n_division ;;
   let kept :=
     filter (fun band : band =>
               F.ltb (fst band) h_freq && F.gtb (snd band) l_freq)
            resolved in
   let s :=
     {| bands := kept; bandname := bandname;
        l_freq := l_freq; h_freq := h_freq;
        aperiodic_mode := aperiodic_mode; verbose := verbose;
        log_freqs := log_freqs; n_division := n_division;
        linenoise := linenoise; prominence := prominence;
        max_n_peaks := max_n_peaks; iterate_peaks := iterate_peaks;
        _ap_percentile_thresh := ratio 25 1000;
        _ap_guess := (None, F.sub h_freq l_freq, None);
        _ap_bounds := ([NInf; F.zero; NInf], [PInf; PInf; PInf]);
        _bw_std_edge := Fin 1;
        _gauss_overlap_thresh := ratio 75 100;
        _cf_bound := ratio 15 10;
        _error_metric := "MAPE";
        _maxfev := 5000;
        _tol := ratio 1 100000;
        _debug := false;
        _check_freqs := true;
        _check_data := true |} in
   Ok {| settings := s;
         data := {| freqs := None; freq_range := None; freq_res := None;
                    power_spectrum := None |};
         results := cleared_results aperiodic_mode;
         _max_harmonic := None |})%res.

(** The harmonics handed to the detector:
    [[60*int(ii) for ii in range(1, self._max_harmonic+1)]]. *)
Definition harmonics_list (max_harmonic : Z) : list Z :=
  map (fun ii => (60 * Z.of_nat ii)%Z) (seq 1 (Z.to_nat max_harmonic)).

Definition _prepare_data (E : Externals) (freqs power_spectrum : array)
    (freq_range : option (float * float))
  : M (array * array * (float * float) * float) :=
  (* Check that data sizes are compatible *)
  (if negb (Nat.eqb (length freqs) (length power_spectrum))
   then raise InconsistentDataError else ret tt) ;;;
  (* Check frequency range, trim the power_spectrum range if requested *)
  ' (freqs, power_spectrum) <-
    lift (match freq_range with
          | Some r => trim_spectrum freqs power_spectrum r
          | None => Ok (freqs, power_spectrum)
          end) ;;
  (* Check if freqs start at 0 and move up one value if so *)
  ' (freqs, power_spectrum) <-
    lift (f0 <- Np.index freqs 0 ;;
          if F.eqb f0 F.zero then
            f1 <- Np.index freqs 1 ;;
            fmax <- Np.max freqs ;;
            trim_spectrum freqs power_spectrum (f1, fmax)
          else Ok (freqs, power_spectrum))%res ;;
  (* Calculate frequency resolution, and actual frequency range *)
  ' (freq_range, freq_res) <-
    lift (fmin <- Np.min freqs ;;
          fmax <- Np.max freqs ;;
          f1 <- Np.index freqs 1 ;;
          f0 <- Np.index freqs 0 ;;
          Ok ((fmin, fmax), F.sub f1 f0))%res ;;
  (* remove powerline harmonics if linenoise is not None *)
  linenoise <- gets (fun self => linenoise (settings self)) ;;
  max_harmonic <-
    lift (match linenoise with
          | Some ln =>
              (fmax <- Np.max freqs ;; F.to_int (F.floordiv fmax ln))%res
          | None => Ok 0%Z
          end) ;;
  modify (with_max_harmonic max_harmonic) ;;;
  ' (freqs, power_spectrum) <-
    (if (0 <? max_harmonic)%Z then
       let harmonics := harmonics_list max_harmonic in
       prominence <- gets (fun self => prominence (settings self)) ;;
       ' (noise_pks, noise_ranges) <-
         lift (detect_powerline_harmonics_peak_widths E freqs power_spectrum
                 harmonics None prominence) ;;
       fp <-
         lift (if (0 <? Z.of_nat (length noise_pks))%Z then
                 fold_left
                   (fun acc noise_range =>
                      (' (freqs, power_spectrum) <- acc ;;
                       interpolate_spectrum E freqs power_spectrum
                         noise_range)%res)
                   noise_ranges (Ok (freqs, power_spectrum))
               else Ok (freqs, power_spectrum)) ;;
       set_results (upd_noise (Some noise_pks) (Some noise_ranges)) ;;;
       ret fp
     else ret (freqs, power_spectrum)) ;;
  (* Log power values *)
  let power_spectrum := map F.log10 power_spectrum in
  check_freqs <- gets (fun self => _check_freqs (settings self)) ;;
  (if check_freqs then
     let freq_diffs := Np.diff freqs in
     if negb (forallb (fun d => Np.isclose_default d freq_res) freq_diffs)
     then raise DataError else ret tt
   else ret tt) ;;;
  check_data <- gets (fun self => _check_data (settings self)) ;;
  (if check_data then
     if existsb F.isinf power_spectrum || existsb F.isnan power_spectrum
     then raise DataError else ret tt
   else ret tt) ;;;
  ret (freqs, power_spectrum, freq_range, freq_res).

Definition add_data (E : Externals) (freqs power_spectrum : array)
    (freq_range : option (float * float)) (clear_results : bool) : M unit :=
  self <- gets (fun self => self) ;;
  _reset_data_results (has_data self) (has_data self)
    (has_model self && clear_results) ;;;
  ' (freqs, power_spectrum, freq_range, freq_res) <-
    _prepare_data E freqs power_spectrum freq_range ;;
  modify (with_data {| freqs := Some freqs;
                       freq_range := Some freq_range;
                       freq_res := Some freq_res;
                       power_spectrum := Some power_spectrum |}).

(** Python truth value of an optional float: [None] and zero are false. *)
Definition truthy_opt (v : option float) : bool :=
  match v with
  | Some x => F.truthy x
  | None => false
  end.

(** [bound[0::2]]: the elements at even positions. *)
Fixpoint evens {A} (l : list A) : list A :=
  match l with
  | x :: _ :: l' => x :: evens l'
  | l' => l'
  end.

(** The bounds for aperiodic fitting, the knee bound dropped unless the
    mode is 'knee'. *)
Definition ap_bounds (self : ParamSpectra) : bounds :=
  let b := _ap_bounds (settings self) in
  if String.eqb (aperiodic_mode (settings self)) "knee" then b
  else (evens (fst b), evens (snd b)).

(** The initial guess of [_simple_ap_fit]:
    [np.array(off_guess + kne_guess + exp_guess)]. *)
Definition ap_guess (self : ParamSpectra) (power_spectrum_arg : array)
  : result (list float) :=
  let '(g_off, g_kne, g_exp) := _ap_guess (settings self) in
  (off_guess <-
     (if negb (truthy_opt g_off) then Np.index power_spectrum_arg 1
      else match g_off with Some v => Ok v | None => Raise TypeError end) ;;
   let kne_guess :=
     if String.eqb (aperiodic_mode (settings self)) "knee"
     then [g_kne] else [] in
   exp_guess <-
     (if negb (truthy_opt g_exp) then
        sp <- the_array (power_spectrum (data self)) ;;
        p_last <- Np.index sp (-1) ;;
        p_first <- Np.index sp 0 ;;
        fr <- the_array (freqs (data self)) ;;
        f_last <- Np.index fr (-1) ;;
        f_first <- Np.index fr 0 ;;
        Ok (F.abs (F.div (F.sub p_last p_first)
                         (F.sub (F.log10 f_last) (F.log10 f_first))))
      else match g_exp with Some v => Ok v | None => Raise TypeError end) ;;
   Ok ([off_guess] ++ kne_guess ++ [exp_guess]))%res.

(** [except X as excp: raise FitError(...) from excp] on a result. *)
Definition reraise_as_FitError {A} (X : exn) (r : result A) : result A :=
  match r with
  | Raise e => if exn_eqb e X then Raise FitError else Raise e
  | ok => ok
  end.

Definition _simple_ap_fit (E : Externals) (self : ParamSpectra)
    (freqs_arg : option array) (power_spectrum_arg : array)
  : result (list float) :=
  (guess <- ap_guess self power_spectrum_arg ;;
   reraise_as_FitError FitError
     (ap_func <- get_ap_func (aperiodic_mode (settings self)) ;;
      xdata <- the_array freqs_arg ;;
      curve_fit E ap_func xdata power_spectrum_arg guess
        (_maxfev (settings self)) (ap_bounds self)
        (Some (_tol (settings self)))))%res.

(** The flattened spectrum of [_robust_ap_fit]: the residual of the initial
    fit, with the points that drop below zero set to zero. *)
Definition clipped_residual (freqs_arg : option array)
    (power_spectrum_arg : array) (popt : list float) : result array :=
  (initial_fit <- gen_aperiodic freqs_arg popt None ;;
   flatspec <- Np.sub power_spectrum_arg initial_fit ;;
   Ok (Np.assign_mask (map (fun v => F.ltb v F.zero) flatspec) F.zero
         flatspec))%res.

(** The points [_robust_ap_fit] re-fits on: those whose flattened value is
    at most [np.percentile(flatspec, self._ap_percentile_thresh)]. *)
Definition robust_subset (self : ParamSpectra) (freqs_arg : option array)
    (power_spectrum_arg : array) (popt : list float)
  : result (array * array) :=
  (flatspec <- clipped_residual freqs_arg power_spectrum_arg popt ;;
   perc_thresh <-
     Np.percentile flatspec (_ap_percentile_thresh (settings self)) ;;
   let perc_mask := map (fun v => F.leb v perc_thresh) flatspec in
   fr <- the_array freqs_arg ;;
   freqs_ignore <- Np.select perc_mask fr ;;
   spectrum_ignore <- Np.select perc_mask power_spectrum_arg ;;
   Ok (freqs_ignore, spectrum_ignore))%res.

Definition _robust_ap_fit (E : Externals) (self : ParamSpectra)
    (freqs_arg : option array) (power_spectrum_arg : array)
  : result (list float) :=
  (popt <- _simple_ap_fit E self freqs_arg power_spectrum_arg ;;
   ' (freqs_ignore, spectrum_ignore) <-
     robust_subset self freqs_arg power_spectrum_arg popt ;;
   reraise_as_FitError TypeError
     (reraise_as_FitError RuntimeError
        (ap_func <- get_ap_func (aperiodic_mode (settings self)) ;;
         curve_fit E ap_func freqs_ignore spectrum_ignore popt
           (_maxfev (settings self)) (ap_bounds self)
           (Some (_tol (settings self))))))%res.

Definition _create_peak_params (self : ParamSpectra) (gaus_params : list float)
  : result (list (float * float * float)) :=
  if negb (Nat.eqb (length gaus_params mod 3) 0) then Raise ValueError
  else
    mapM (fun '(_, mean, std) =>
            (fr <- the_array (freqs (data self)) ;;
             ' (ind, cf, bw) <-
               (if log_freqs (settings self) then
                  ind <- Np.argmin
                           (map (fun f => F.abs (F.sub (F.log f) mean)) fr) ;;
                  f_ind <- Np.index fr (Z.of_nat ind) ;;
                  let logstd := std in
                  let right_edge := F.add (F.log f_ind) logstd in
                  let left_edge := F.sub (F.log f_ind) logstd in
                  Ok (ind, F.exp mean,
                      F.sub (F.exp right_edge) (F.exp left_edge))
                else
                  ind <- Np.argmin (map (fun f => F.abs (F.sub f mean)) fr) ;;
                  Ok (ind, mean, F.mul std (Fin 2))) ;;
             ms <- the_array (modeled_spectrum_ (results self)) ;;
             m_ind <- Np.index ms (Z.of_nat ind) ;;
             af <- the_array (_ap_fit (results self)) ;;
             a_ind <- Np.index af (Z.of_nat ind) ;;
             Ok (cf, F.sub m_ind a_ind, bw))%res)
         (rows3 gaus_params).

Definition _calc_r_squared : M unit :=
  self <- gets (fun self => self) ;;
  r_val <- lift (ps <- the_array (power_spectrum (data self)) ;;
                 ms <- the_array (modeled_spectrum_ (results self)) ;;
                 Np.corrcoef01 ps ms)%res ;;
  set_results (upd_r_squared_ (F.mul r_val r_val)).

Definition _calc_error (metric : option string) : M unit :=
  self <- gets (fun self => self) ;;
  let metric :=
    match metric with
    | Some m => if String.eqb m "" then _error_metric (settings self) else m
    | None => _error_metric (settings self)
    end in
  err <- lift
           (if String.eqb metric "MAE" then
              ps <- the_array (power_spectrum (data self)) ;;
              ms <- the_array (modeled_spectrum_ (results self)) ;;
              d <- Np.sub ps ms ;;
              Ok (Np.mean (map F.abs d))
            else if String.eqb metric "MSE" then
              ps <- the_array (power_spectrum (data self)) ;;
              ms <- the_array (modeled_spectrum_ (results self)) ;;
              d <- Np.sub ps ms ;;
              Ok (Np.mean (map (fun v => F.mul v v) d))
            else if String.eqb metric "RMSE" then
              ps <- the_array (power_spectrum (data self)) ;;
              ms <- the_array (modeled_spectrum_ (results self)) ;;
              d <- Np.sub ps ms ;;
              Ok (F.sqrt (Np.mean (map (fun v => F.mul v v) d)))
            else if String.eqb metric "MAPE" then
              ps <- the_array (power_spectrum (data self)) ;;
              ms <- the_array (modeled_spectrum_ (results self)) ;;
              d <- Np.sub ps ms ;;
              r <- Np.div d ps ;;
              Ok (Np.mean (map F.abs r))
            else Raise ValueError)%res ;;
  set_results (upd_error_ err).

(** The body of the [try] block of [fit]. *)
Definition fit_steps (E : Externals) : M unit :=
  (* If not set to fail on NaN or Inf data at add time, check data here *)
  self <- gets (fun self => self) ;;
  (if negb (_check_data (settings self)) then
     ps <- lift (the_array (power_spectrum (data self))) ;;
     if existsb F.isinf ps || existsb F.isnan ps
     then raise FitError else ret tt
   else ret tt) ;;;
  (* Robust aperiodic fit, and the flattened spectrum *)
  self <- gets (fun self => self) ;;
  ps <- lift (the_array (power_spectrum (data self))) ;;
  ap <- lift (_robust_ap_fit E self (freqs (data self)) ps) ;;
  set_results (upd_aperiodic_params_ ap) ;;;
  ap_fit <- lift (gen_aperiodic (freqs (data self)) ap None) ;;
  set_results (upd_ap_fit (Some ap_fit)) ;;;
  flat <- lift (Np.sub ps ap_fit) ;;
  set_results (upd_spectrum_flat (Some flat)) ;;;
  (* Find peaks, and fit them with gaussians *)
  gp <- lift (constrained_gaussian_fit E (freqs (data self)) flat
                (bands (settings self)) (log_freqs (settings self))) ;;
  set_results (upd_gaussian_params_ gp) ;;;
  (* Calculate the peak fit *)
  (if iterate_peaks (settings self) then ret tt
   else
     if log_freqs (settings self) then
       pf <- lift (fr <- the_array (freqs (data self)) ;;
                   sum_of_gaussians (map F.log fr) (bands (settings self))
                     gp)%res ;;
       set_results (upd_peak_fit (Some pf))
     else
       pf <- lift (fr <- the_array (freqs (data self)) ;;
                   sum_of_gaussians fr (bands (settings self)) gp)%res ;;
       set_results (upd_peak_fit (Some pf))) ;;;
  peak_fit <- gets (fun self => _peak_fit (results self)) ;;
  peak_rm <- lift (pf <- the_array peak_fit ;; Np.sub ps pf)%res ;;
  set_results (upd_spectrum_peak_rm (Some peak_rm)) ;;;
  (* Run final aperiodic fit on peak-removed power spectrum *)
  self <- gets (fun self => self) ;;
  ap <- lift (_simple_ap_fit E self (freqs (data self)) peak_rm) ;;
  set_results (upd_aperiodic_params_ ap) ;;;
  ap_fit <- lift (gen_aperiodic (freqs (data self)) ap None) ;;
  set_results (upd_ap_fit (Some ap_fit)) ;;;
  flat <- lift (Np.sub ps ap_fit) ;;
  set_results (upd_spectrum_flat (Some flat)) ;;;
  (* Create full power_spectrum model fit *)
  modeled <- lift (pf <- the_array peak_fit ;; Np.add pf ap_fit)%res ;;
  set_results (upd_modeled_spectrum_ (Some modeled)) ;;;
  (* Convert gaussian definitions to peak parameters *)
  self <- gets (fun self => self) ;;
  pp <- lift (_create_peak_params self (gaussian_params_ (results self))) ;;
  set_results (upd_peak_params_ pp) ;;;
  (* Calculate R^2 and error of the model fit *)
  _calc_r_squared ;;;
  _calc_error None.

(** The first part of [fit], up to the [try] block: the prominence is
    stored, the data is attached and its presence checked. *)
Definition fit_attach (E : Externals)
    (freqs_arg power_spectrum_arg : option array)
    (freq_range_arg : option (float * float)) (prominence_arg : float)
  : M unit :=
  modify (fun self =>
            with_settings
              (settings_with_prominence prominence_arg (settings self))
              self) ;;;
  match freqs_arg, power_spectrum_arg with
  | Some f, Some p => add_data E f p freq_range_arg true
  | _, Some p =>
      modify (fun self =>
                with_data (data_with_power_spectrum (Some p) (data self))
                  self)
  | _, None => ret tt
  end ;;;
  (* Check that data is available *)
  self <- gets (fun self => self) ;;
  if negb (has_data self) then raise NoDataError else ret tt.

(** The [except FitError] clause of [fit]. *)
Definition fit_except : M unit :=
  self <- gets (fun self => self) ;;
  (* If in debug mode, re-raise the error *)
  if _debug (settings self) then raise FitError
  else
    (* Clear any interim model results that may have run *)
    _reset_data_results false false true.

(** [fit(freqs=None, power_spectrum=None, freq_range=None, prominence=0.5)] *)
Definition fit (E : Externals) (freqs_arg power_spectrum_arg : option array)
    (freq_range_arg : option (float * float)) (prominence_arg : float)
  : M unit :=
  fit_attach E freqs_arg power_spectrum_arg freq_range_arg prominence_arg ;;;
  try_except (fit_steps E) FitError fit_except.

(** The default value of the [prominence] argument of [fit]. *)
Definition fit_default_prominence : float := ratio 1 2.

(** The dictionary [get_params_out] returns. *)
Record params_out : Type := {
  out_aperiodic_params : list float;
  out_gaussian_params : list float;
  out_noise_pks : list (option float);
  out_noise_wids : list (option float);
  out_peak_params : list float;
  out_r_squared : float;
  out_error : float
}.

(** [l[i] = v] on a Python list. *)
Fixpoint list_assign {A} (l : list A) (i : nat) (v : A) : result (list A) :=
  match l, i with
  | [], _ => Raise IndexError
  | _ :: l', O => Ok (v :: l')
  | x :: l', S i' => (r <- list_assign l' i' v ;; Ok (x :: r))%res
  end.

Definition get_params_out (self : ParamSpectra) : result params_out :=
  (* check if it's fitted *)
  if negb (has_model self) then Raise NoModelError
  else
    (max_harmonic <-
       match _max_harmonic self with
       | Some m => Ok m
       | None => Raise AttributeError
       end ;;
     let guess_noise_pks :=
       match linenoise (settings self) with
       | Some ln =>
           map (fun ii => F.mul ln (F.of_Z (Z.of_nat ii)))
               (seq 1 (Z.to_nat max_harmonic))
       | None => []
       end in
     let out_noise_pks := repeat None (Z.to_nat max_harmonic) in
     let out_noise_wids := repeat None (Z.to_nat max_harmonic) in
     ' (out_noise_pks, out_noise_wids) <-
       match _noise_pks (results self) with
       | Some ((_ :: _) as noise_pks) =>
           fold_left
             (fun acc '(ii, noise_pk) =>
                ' (pks, wids) <- acc ;;
                ndx <- Np.argmin
                         (map (fun guess_noise_pk =>
                                 F.abs (F.sub noise_pk guess_noise_pk))
                              guess_noise_pks) ;;
                pks <- list_assign pks ndx (Some noise_pk) ;;
                ranges <- match _noise_ranges (results self) with
                          | Some r => Ok r
                          | None => Raise TypeError
                          end ;;
                rng <- match nth_error ranges ii with
                       | Some r => Ok r
                       | None => Raise IndexError
                       end ;;
                wids <- list_assign wids ndx
                          (Some (F.div (F.sub (snd rng) (fst rng)) (Fin 2))) ;;
                Ok (pks, wids))
             (combine (seq 0 (length noise_pks)) noise_pks)
             (Ok (out_noise_pks, out_noise_wids))
       | _ => Ok (out_noise_pks, out_noise_wids)
       end ;;
     Ok {| out_aperiodic_params := aperiodic_params_ (results self);
           out_gaussian_params := gaussian_params_ (results self);
           out_noise_pks := out_noise_pks;
           out_noise_wids := out_noise_wids;
           out_peak_params :=
             flat_map (fun '(cf, pw, bw) => [cf; pw; bw])
                      (peak_params_ (results self));
           out_r_squared := r_squared_ (results self);
           out_error := error_ (results self) |})%res.

Close Scope meth_scope.

(** ** Definitions used to state the properties *)

(** The bounds of one band the way the specification words them: mean in
    the band, standard deviation up to the band width, amplitude free. *)
Definition claimed_band_bounds (b : band) : list (float * float) :=
  [(NInf, PInf); (fst b, snd b); (F.zero, F.sub (snd b) (fst b))].

(** The bounds of one band as [constrained_gaussian_fit] builds them. *)
Definition band_bounds (b : band) : list (float * float) :=
  [(NInf, PInf); (fst b, snd b);
   (F.zero, compute_gauss_std (F.sub (snd b) (fst b)))].

(** The absolute log-log slope between the first and the last sample of a
    log-power spectrum [ps] over the frequencies [fr]. *)
Definition loglog_slope (ps fr : array) : result float :=
  (p_last <- Np.index ps (-1) ;;
   p_first <- Np.index ps 0 ;;
   f_last <- Np.index fr (-1) ;;
   f_first <- Np.index fr 0 ;;
   Ok (F.abs (F.div (F.sub p_last p_first)
                    (F.sub (F.log10 f_last) (F.log10 f_first)))))%res.

(** The knee part of the aperiodic guess: the configured knee guess in
    'knee' mode, nothing otherwise. *)
Definition kne_guess (self : ParamSpectra) : list float :=
  if String.eqb (aperiodic_mode (settings self)) "knee"
  then [snd (fst (_ap_guess (settings self)))] else [].

(** The candidate harmonics the way the specification words them: the
    integer multiples L, 2L, ... of the base line-noise frequency. *)
Definition claimed_harmonics (L : float) (max_harmonic : Z) : list float :=
  map (fun ii => F.mul L (F.of_Z (Z.of_nat ii))) (seq 1 (Z.to_nat max_harmonic)).

(** The points of the robust re-fit the way the specification words them:
    those whose clipped residual is at most the 2.5th percentile of the
    clipped residuals. *)
Definition claimed_robust_subset (freqs_arg : option array)
    (power_spectrum_arg : array) (popt : list float)
  : result (array * array) :=
  (flatspec <- clipped_residual freqs_arg power_spectrum_arg popt ;;
   perc_thresh <- Np.percentile flatspec (ratio 25 10) ;;
   let perc_mask := map (fun v => F.leb v perc_thresh) flatspec in
   fr <- the_array freqs_arg ;;
   freqs_ignore <- Np.select perc_mask fr ;;
   spectrum_ignore <- Np.select perc_mask power_spectrum_arg ;;
   Ok (freqs_ignore, spectrum_ignore))%res.

(** A finite, positive float. *)
Definition positive_finite (v : float) : Prop :=
  exists r, v = Fin r /\ (0 < r)%R.

(** A method keeps an attribute (or any function [f] of the state) when the
    state it leaves behind, whatever the outcome, has the value of [f] it
    started with. *)
Definition keeps {A B} (f : ParamSpectra -> B) (m : M A) : Prop :=
  forall self, f (snd (m self)) = f self.

(** The states in which no fit has produced a model: a freshly
    constructed object, such an object after data was attached (whether
    attaching succeeded or raised), and any object after a call of [fit]
    whose fit steps raised a FitError that [fit] contained (debug mode
    off). *)
Inductive awaiting_fit : ParamSpectra -> Prop :=
| AF_init scheme n_peaks logf n_div lo hi prom noise mode iter verb self :
    init scheme n_peaks logf n_div lo hi prom noise mode iter verb = Ok self ->
    awaiting_fit self
| AF_add_data E f p fr cr self :
    awaiting_fit self ->
    awaiting_fit (snd (add_data E f p fr cr self))
| AF_fit_failed E fa pa fra pr self s1 :
    fit_attach E fa pa fra pr self = (Ok tt, s1) ->
    fst (fit_steps E s1) = Raise FitError ->
    _debug (settings s1) = false ->
    awaiting_fit (snd (fit E fa pa fra pr self)).

(** External behaviours used in the examples. *)

(** A solver that never converges: [curve_fit] raises RuntimeError, as it
    does when [maxfev] is exhausted.  No peak is ever detected. *)
Definition solver_never_converges : Externals :=
  {| curve_fit := fun _ _ _ _ _ _ _ => Raise RuntimeError;
     find_peaks := fun _ _ _ => Ok [];
     peak_widths := fun _ _ _ => Ok [];
     interpolate_spectrum := fun f p _ => Ok (f, p) |}.

(** A solver that raises TypeError when it is given fewer points than
    parameters, and otherwise answers with all-zero parameters. *)
Definition solver_needs_enough_points : Externals :=
  {| curve_fit := fun _ xdata _ p0 _ _ _ =>
       if (length xdata <? length p0)%nat then Raise TypeError
       else Ok (map (fun _ => F.zero) p0);
     find_peaks := fun _ _ _ => Ok [];
     peak_widths := fun _ _ _ => Ok [];
     interpolate_spectrum := fun f p _ => Ok (f, p) |}.

(** An always-answering solver: [curve_fit] returns all-zero parameters;
    no peak is ever detected. *)
Definition solver_answers_zero : Externals :=
  {| curve_fit := fun _ _ _ p0 _ _ _ => Ok (map (fun _ => F.zero) p0);
     find_peaks := fun _ _ _ => Ok [];
     peak_widths := fun _ _ _ => Ok [];
     interpolate_spectrum := fun f p _ => Ok (f, p) |}.

(** A detector that reports one peak, at index 1, when the prominence
    threshold is at most 1, and no peak above that; the peak is half a
    sample wide, and the interpolation leaves the spectrum as it is. *)
Definition detector_one_peak : Externals :=
  {| curve_fit := fun _ _ _ _ _ _ _ => Raise RuntimeError;
     find_peaks := fun _ _ prominence =>
       if F.leb prominence (Fin 1) then Ok [1%Z] else Ok [];
     peak_widths := fun _ peaks _ => Ok (map (fun _ => ratio 1 2) peaks);
     interpolate_spectrum := fun f p _ => Ok (f, p) |}.

(** The object of the examples: constructed by
    [ParamSpectra(bands=[(1, 4)], max_n_peaks=6, log_freqs=False,
    n_division=1, l_freq=0.3, h_freq=250, prominence=0.5, linenoise=None,
    aperiodic_mode='fixed', iterate_peaks=False, verbose=0)]. *)
Definition example_object : ParamSpectra :=
  {| settings :=
       {| bands := [(Fin 1, Fin 4)]; bandname := "custom";
          l_freq := ratio 3 10; h_freq := Fin 250;
          aperiodic_mode := "fixed"; verbose := 0;
          log_freqs := false; n_division := 1;
          linenoise := None; prominence := ratio 1 2;
          max_n_peaks := 6; iterate_peaks := false;
          _ap_percentile_thresh := ratio 25 1000;
          _ap_guess := (None, F.sub (Fin 250) (ratio 3 10), None);
          _ap_bounds := ([NInf; F.zero; NInf], [PInf; PInf; PInf]);
          _bw_std_edge := Fin 1;
          _gauss_overlap_thresh := ratio 75 100;
          _cf_bound := ratio 15 10;
          _error_metric := "MAPE";
          _maxfev := 5000;
          _tol := ratio 1 100000;
          _debug := false;
          _check_freqs := true;
          _check_data := true |};
     data := {| freqs := None; freq_range := None; freq_res := None;
                power_spectrum := None |};
     results := cleared_results "fixed";
     _max_harmonic := None |}.

(** The same object with the spectrum of powers 1, 10, 10 at 1, 2 and 3 Hz
    attached: the power is stored as its base-10 logarithm. *)
Definition example_attached : ParamSpectra :=
  with_data
    {| freqs := Some [Fin 1; Fin 2; Fin 3];
       freq_range := Some (Fin 1, Fin 3);
       freq_res := Some (Fin 1);
       power_spectrum := Some [Fin 0; Fin 1; Fin 1] |}
    (with_max_harmonic 0 example_object).

(** The solver on the model without a knee.  In 'fixed' mode the bounds
    handed to [curve_fit] are all infinite, so it runs the
    Levenberg-Marquardt method of [scipy.optimize.leastsq].  The model
    y = offset - exp * log10(x) is linear in its two parameters, so the sum
    of squares has a single minimum, the least-squares line, and that is
    what the solver returns, up to its tolerance, from any initial guess.
    [least_squares_nk] is this minimum in closed form.  Fewer data points
    than parameters raise TypeError, as [leastsq] does. *)
Definition least_squares_nk (xdata ydata : array) : result (list float) :=
  if (length xdata <? 2)%nat then Raise TypeError
  else
    let t := map F.log10 xdata in
    let mt := Np.mean t in
    let my := Np.mean ydata in
    let sxy :=
      Np.sum (Np.zip_with (fun a b => F.mul (F.sub a mt) (F.sub b my))
                t ydata) in
    let sxx := Np.sum (map (fun a => F.mul (F.sub a mt) (F.sub a mt)) t) in
    let slope := F.div sxy sxx in
    Ok [F.sub my (F.mul slope mt); F.neg slope].

Definition least_squares_solver : Externals :=
  {| curve_fit := fun _ xdata ydata _ _ _ _ => least_squares_nk xdata ydata;
     find_peaks := fun _ _ _ => Ok [];
     peak_widths := fun _ _ _ => Ok [];
     interpolate_spectrum := fun f p _ => Ok (f, p) |}.

(** Sums and means of lists of real numbers, as [Np.sum] and [Np.mean]
    compute them on finite values. *)
Definition Rsum (l : list R) : R := fold_left Rplus l 0%R.

Definition Rmean (l : list R) : R := (Rsum l / IZR (Z.of_nat (length l)))%R.

Definition log10R (x : R) : R := (ln x / ln 10)%R.

(** The closed form of the least-squares solution on finite data. *)
Definition ls_sxy (ts ys : list R) : R :=
  Rsum (map (fun p => ((fst p + - Rmean ts) * (snd p + - Rmean ys))%R)
          (combine ts ys)).

Definition ls_sxx (ts : list R) : R :=
  Rsum (map (fun a => ((a + - Rmean ts) * (a + - Rmean ts))%R) ts).

Definition ls_slope (ts ys : list R) : R := (ls_sxy ts ys / ls_sxx ts)%R.

(** The object of the examples with a flat spectrum attached: power 10 at
    10, 20 and 30 Hz, stored as log-power 1.  The band (1, 4) of the
    object contains none of these frequencies. *)
Definition example_flat_attached : ParamSpectra :=
  with_data
    {| freqs := Some [Fin 10; Fin 20; Fin 30];
       freq_range := Some (Fin 10, Fin 30);
       freq_res := Some (Fin 10);
       power_spectrum := Some [Fin 1; Fin 1; Fin 1] |}
    (with_max_harmonic 0 example_object).

(** A strictly ascending list of real numbers. *)
Fixpoint ascending (l : list R) : Prop :=
  match l with
  | [] => True
  | a :: l' => Forall (fun b => (a < b)%R) l' /\ ascending l'
  end.

(** A spectrum of 42 points, at 1, 2, ..., 42 Hz: power 10 everywhere but
    at 17 Hz, where the power is 1.  The stored log-power is 1 everywhere
    but at 17 Hz, where it is 0. *)
Definition notch_freqs : array :=
  map (fun i => F.of_Z (Z.of_nat i)) (seq 1 42).

Definition notch_raw_power : array :=
  repeat (Fin 10) 16 ++ Fin 1 :: repeat (Fin 10) 25.

Definition notch_power : array :=
  repeat (Fin 1) 16 ++ Fin 0 :: repeat (Fin 1) 25.

Definition notch_attached : ParamSpectra :=
  with_data
    {| freqs := Some notch_freqs;
       freq_range := Some (Fin 1, Fin 42);
       freq_res := Some (Fin 1);
       power_spectrum := Some notch_power |}
    (with_max_harmonic 0 example_object).

(** The frequencies [a, a+1, ..., a+n-1] Hz as real numbers, and the product
    of the 42 frequencies of the spectrum. *)
Definition notch_hz (a n : nat) : list R :=
  map (fun i => IZR (Z.of_nat i)) (seq a n).

Definition notch_product : Z :=
  fold_right Z.mul 1%Z (map Z.of_nat (seq 1 42)).

(** * Verification *)

(** ** Evaluating comparisons of real constants *)

Section RealDecisions.

Open Scope R_scope.

Lemma Rltb_true (x y : R) : x < y -> F.Rltb x y = true.
Proof. intros H. unfold F.Rltb. destruct (Rlt_dec x y); tauto. Qed.

Lemma Rltb_false (x y : R) : y <= x -> F.Rltb x y = false.
Proof. intros H. unfold F.Rltb. destruct (Rlt_dec x y); [lra | reflexivity]. Qed.

Lemma Rleb_true (x y : R) : x <= y -> F.Rleb x y = true.
Proof. intros H. unfold F.Rleb. destruct (Rle_dec x y); tauto. Qed.

Lemma Rleb_false (x y : R) : y < x -> F.Rleb x y = false.
Proof. intros H. unfold F.Rleb. destruct (Rle_dec x y); [lra | reflexivity]. Qed.

Lemma Reqb_true (x y : R) : x = y -> F.Reqb x y = true.
Proof. intros H. unfold F.Reqb. destruct (Req_dec_T x y); tauto. Qed.

Lemma Reqb_false (x y : R) : x <> y -> F.Reqb x y = false.
Proof. intros H. unfold F.Reqb. destruct (Req_dec_T x y); tauto. Qed.

Lemma Rltb_spec (x y : R) : F.Rltb x y = true <-> x < y.
Proof.
  unfold F.Rltb. destruct (Rlt_dec x y); split; intros; try tauto; discriminate.
Qed.

Lemma Rleb_spec (x y : R) : F.Rleb x y = true <-> x <= y.
Proof.
  unfold F.Rleb. destruct (Rle_dec x y); split; intros; try tauto; discriminate.
Qed.

Lemma ln_10_pos : 0 < ln 10.
Proof. rewrite <- ln_1. apply ln_increasing; lra. Qed.

Lemma log10_of_10 : ln 10 / ln 10 = 1.
Proof. pose proof ln_10_pos. field. lra. Qed.

Lemma Int_part_eq (r : R) (z : Z) : IZR z <= r < IZR z + 1 -> Int_part r = z.
Proof. intros H. symmetry. apply Int_part_spec. lra. Qed.

End RealDecisions.

Ltac Rdecide :=
  repeat
    match goal with
    | |- context [Int_part ?a] =>
        first [ rewrite (Int_part_eq a 0) by lra
              | rewrite (Int_part_eq a 1) by lra
              | rewrite (Int_part_eq a 2) by lra
              | rewrite (Int_part_eq a 3) by lra
              | rewrite (Int_part_eq a 4) by lra
              | rewrite (Int_part_eq a 5) by lra ]
    | |- context [Rabs ?a] =>
        first [ rewrite (Rabs_pos_eq a) by lra
              | rewrite (Rabs_left1 a) by lra ]
    | |- context [F.Rltb ?a ?b] =>
        first [ rewrite (@Rltb_true a b) by lra
              | rewrite (@Rltb_false a b) by lra ]
    | |- context [F.Rleb ?a ?b] =>
        first [ rewrite (@Rleb_true a b) by lra
              | rewrite (@Rleb_false a b) by lra ]
    | |- context [F.Reqb ?a ?b] =>
        first [ rewrite (@Reqb_true a b) by lra
              | rewrite (@Reqb_false a b) by lra ]
    end.

(** Evaluation of the embedding on concrete inputs: everything is computed
    except the operations on real numbers; the comparisons of real
    constants that block the computation are then decided by [lra]. *)
Ltac fl_cbv :=
  cbv -[Rplus Rminus Rmult Rdiv Ropp Rinv Rlt Rle Rabs ln exp sqrt Rpower PI
        IZR Int_part F.Rltb F.Rleb F.Reqb].

Ltac fl_eval := repeat (progress (fl_cbv; Rdecide)).

(** Evaluation of a long computation, head first: the left-hand side of
    the goal is reduced until a comparison of real numbers blocks it; the
    operands of the blocked comparisons are computed, the comparisons are
    decided, and the reduction resumes. *)
Ltac fl_head :=
  match goal with
  | |- ?l = ?r =>
      let l' := eval lazy head beta iota zeta delta
                  -[Rplus Rminus Rmult Rdiv Ropp Rinv Rlt Rle Rabs ln exp sqrt
                    Rpower PI IZR Int_part F.Rltb F.Rleb F.Reqb] in l in
      progress (change (l' = r))
  end.

Ltac fl_norm_real a :=
  let a' := eval cbv -[Rplus Rminus Rmult Rdiv Ropp Rinv Rlt Rle Rabs ln exp
                       sqrt Rpower PI IZR Int_part F.Rltb F.Rleb F.Reqb]
            in a in
  progress (change a with a').

Ltac fl_operands :=
  repeat
    match goal with
    | |- context [F.Rltb ?a ?b] => first [fl_norm_real a | fl_norm_real b]
    | |- context [F.Rleb ?a ?b] => first [fl_norm_real a | fl_norm_real b]
    | |- context [F.Reqb ?a ?b] => first [fl_norm_real a | fl_norm_real b]
    | |- context [Int_part ?a] => fl_norm_real a
    end.

Ltac fl_logs :=
  repeat
    match goal with
    | |- context [ln 1] => rewrite ln_1
    | |- context [ln 10 / ln 10] => rewrite log10_of_10
    end.

Ltac fl_go :=
  repeat (progress (try fl_head; fl_operands; fl_logs; Rdecide)).

(** ** Facts about floats and arrays *)

Lemma leb_true_gtb_false (a b : float) :
  F.leb a b = true -> F.gtb a b = false.
Proof.
  unfold F.gtb. destruct a, b; simpl; try congruence; try reflexivity.
  intros H. apply Rleb_spec in H. apply Rltb_false. exact H.
Qed.

Lemma geb_true_ltb_false (a b : float) :
  F.geb a b = true -> F.ltb a b = false.
Proof.
  unfold F.geb. destruct a, b; simpl; try congruence; try reflexivity.
  intros H. apply Rleb_spec in H. apply Rltb_false. exact H.
Qed.

Lemma assign_mask_map (P : float -> bool) (v : float) (l : array) :
  Np.assign_mask (map P l) v l = map (fun x => if P x then v else x) l.
Proof.
  induction l as [|x l IH]; [reflexivity|]. simpl. rewrite IH. reflexivity.
Qed.

Lemma pairs_cons_length (a : array) :
  forall x, length (pairs (x :: a)) = length a.
Proof.
  induction a as [|y a IH]; intros x; [reflexivity|].
  change (pairs (x :: y :: a)) with ((x, y) :: pairs (y :: a)).
  cbn [length]. rewrite IH. reflexivity.
Qed.

Lemma pairs_length (a : array) : length (pairs a) = Nat.pred (length a).
Proof.
  destruct a as [|x a]; [reflexivity|]. rewrite pairs_cons_length. reflexivity.
Qed.

(** The intervals of a generated scheme are contiguous: each one ends
    where the next one starts. *)
Lemma pairs_contiguous (a : array) :
  forall (i : nat) (b1 b2 : band),
    nth_error (pairs a) i = Some b1 ->
    nth_error (pairs a) (S i) = Some b2 ->
    snd b1 = fst b2.
Proof.
  induction a as [|x a IH]; intros i b1 b2 H1 H2.
  - destruct i; discriminate.
  - destruct a as [|y a]; [destruct i; discriminate|].
    change (pairs (x :: y :: a)) with ((x, y) :: pairs (y :: a)) in H1, H2.
    destruct i as [|i].
    + cbn [nth_error] in H1, H2. injection H1 as <-.
      destruct a as [|z a]; [discriminate|].
      change (pairs (y :: z :: a)) with ((y, z) :: pairs (z :: a)) in H2.
      cbn [nth_error] in H2. injection H2 as <-. reflexivity.
    + cbn [nth_error] in H1, H2. exact (IH i b1 b2 H1 H2).
Qed.

Lemma removelast_cons_length {A} (l : list A) :
  forall x, length (removelast (x :: l)) = length l.
Proof.
  induction l as [|y l IH]; intros x; [reflexivity|].
  change (removelast (x :: y :: l)) with (x :: removelast (y :: l)).
  cbn [length]. rewrite IH. reflexivity.
Qed.

Lemma removelast_length {A} (l : list A) :
  length (removelast l) = Nat.pred (length l).
Proof.
  destruct l as [|x l]; [reflexivity|].
  rewrite removelast_cons_length. reflexivity.
Qed.

Lemma linspace_length (start stop : float) (num : Z) (y : array) :
  Np.linspace start stop num = Ok y -> length y = Z.to_nat num.
Proof.
  unfold Np.linspace. destruct (num <? 0)%Z eqn:Hneg; [discriminate|].
  intros H. injection H as <-.
  destruct (1 <? num)%Z eqn:H1.
  - rewrite length_app, removelast_length, length_map, length_seq. simpl.
    apply Z.ltb_lt in H1. lia.
  - rewrite length_map, length_seq. reflexivity.
Qed.

Lemma logspace_length (start stop : float) (num : Z) (base : float) (y : array) :
  Np.logspace start stop num base = Ok y -> length y = Z.to_nat num.
Proof.
  unfold Np.logspace. destruct (Np.linspace start stop num) as [l|e] eqn:Hl;
    simpl; [|discriminate].
  intros H. injection H as <-. rewrite length_map.
  eapply linspace_length; eassumption.
Qed.

Lemma linspace_ok (start stop : float) (num : Z) :
  (0 <= num)%Z -> exists y, Np.linspace start stop num = Ok y.
Proof.
  intros H. unfold Np.linspace.
  destruct (num <? 0)%Z eqn:Hneg; [apply Z.ltb_lt in Hneg; lia|].
  eexists. reflexivity.
Qed.

(** ** Band resolution: how many intervals a generated scheme has *)

Lemma str2band_linear_count (n : Z) (l h : float) :
  (0 <= n)%Z ->
  exists bs, str2band (BandsStr "linear") n l h 1 = Ok (bs, "linear")
             /\ length bs = Z.to_nat n.
Proof.
  intros Hn. unfold str2band. simpl String.eqb. cbv iota.
  destruct (linspace_ok l h (n + 1)%Z) as [y Hy]; [lia|].
  rewrite Hy. simpl. eexists. split; [reflexivity|].
  rewrite pairs_length, (linspace_length _ _ _ _ Hy). lia.
Qed.

Lemma str2band_log10_count (n : Z) (l h : float) :
  (0 <= n)%Z ->
  exists bs, str2band (BandsStr "log10") n l h 1 = Ok (bs, "log10")
             /\ length bs = Z.to_nat n.
Proof.
  intros Hn. unfold str2band. simpl String.eqb. cbv iota.
  unfold Np.logspace.
  destruct (linspace_ok (F.log10 l) (F.log10 h) (n + 1)%Z) as [y Hy]; [lia|].
  rewrite Hy. simpl. eexists. split; [reflexivity|].
  rewrite pairs_length, length_map, (linspace_length _ _ _ _ Hy). lia.
Qed.

Lemma str2band_log_count (n : Z) (l h : float) :
  (0 <= n)%Z ->
  exists bs, str2band (BandsStr "log") n l h 1 = Ok (bs, "log")
             /\ length bs = Z.to_nat (Z.min n 62).
Proof.
  intros Hn. unfold str2band. simpl String.eqb. cbv iota.
  unfold Np.logspace.
  set (m := if (62 <? n)%Z then 62%Z else n).
  assert (Hm : m = Z.min n 62).
  { unfold m. destruct (62 <? n)%Z eqn:H62;
      [apply Z.ltb_lt in H62 | apply Z.ltb_ge in H62]; lia. }
  destruct (linspace_ok (F.log l) (F.log h) (m + 1)%Z) as [y Hy]; [lia|].
  rewrite Hy. simpl. eexists. split; [reflexivity|].
  rewrite pairs_length, length_map, (linspace_length _ _ _ _ Hy). lia.
Qed.

(** C6: the cap of 62 intervals is applied by the 'log' scheme only.  With
    100 requested peaks on [0.3, 250], 'log' resolves to 62 intervals,
    while 'linear' and 'log10' resolve to 100 intervals, not to
    min(100, 62) = 62. *)
Theorem generated_schemes_cap_only_log :
  (exists bs, str2band (BandsStr "log") 100 (ratio 3 10) (Fin 250) 1
              = Ok (bs, "log") /\ length bs = 62%nat) /\
  (exists bs, str2band (BandsStr "linear") 100 (ratio 3 10) (Fin 250) 1
              = Ok (bs, "linear") /\ length bs = 100%nat) /\
  (exists bs, str2band (BandsStr "log10") 100 (ratio 3 10) (Fin 250) 1
              = Ok (bs, "log10") /\ length bs = 100%nat).
Proof.
  split; [|split].
  - destruct (str2band_log_count 100 (ratio 3 10) (Fin 250)) as [bs [H L]];
      [lia|]. exists bs. split; [exact H | exact L].
  - destruct (str2band_linear_count 100 (ratio 3 10) (Fin 250)) as [bs [H L]];
      [lia|]. exists bs. split; [exact H | exact L].
  - destruct (str2band_log10_count 100 (ratio 3 10) (Fin 250)) as [bs [H L]];
      [lia|]. exists bs. split; [exact H | exact L].
Qed.

(** ** The retained band set *)

(** C8: the constructor keeps exactly the resolved bands that reach into
    the cutoff range: a band whose upper bound is at most [l_freq] or whose
    lower bound is at least [h_freq] is dropped, and every retained band
    has [high > l_freq] and [low < h_freq]. *)
Theorem retained_bands_within_cutoffs
    (scheme : bands_arg) (n_peaks : Z) (logf : bool) (n_div : Z)
    (lo hi prom : float) (noise : option float) (mode : string)
    (iter : bool) (verb : Z) (self : ParamSpectra) :
  init scheme n_peaks logf n_div lo hi prom noise mode iter verb = Ok self ->
  exists resolved name,
    str2band scheme n_peaks lo hi n_div = Ok (resolved, name) /\
    bands (settings self)
    = filter (fun b : band => F.ltb (fst b) hi && F.gtb (snd b) lo) resolved /\
    (forall b, In b resolved ->
               F.leb (snd b) lo = true \/ F.geb (fst b) hi = true ->
               ~ In b (bands (settings self))) /\
    (forall b, In b (bands (settings self)) ->
               In b resolved /\
               F.gtb (snd b) lo = true /\ F.ltb (fst b) hi = true) /\
    (forall b, In b resolved ->
               F.gtb (snd b) lo = true -> F.ltb (fst b) hi = true ->
               In b (bands (settings self))).
Proof.
  unfold init. intros H.
  destruct (str2band scheme n_peaks lo hi n_div) as [[resolved name]|e] eqn:Hs;
    simpl in H; [|discriminate].
  injection H as <-. exists resolved, name. simpl.
  split; [reflexivity|]. split; [reflexivity|].
  split; [|split].
  - intros b Hin Hout Hkept. apply filter_In in Hkept.
    destruct Hkept as [_ Hk]. apply andb_prop in Hk. destruct Hk as [Hl Hg].
    destruct Hout as [Hout|Hout].
    + apply leb_true_gtb_false in Hout. congruence.
    + apply geb_true_ltb_false in Hout. congruence.
  - intros b Hkept. apply filter_In in Hkept.
    destruct Hkept as [Hin Hk]. apply andb_prop in Hk. tauto.
  - intros b Hin Hg Hl. apply filter_In. split; [exact Hin|].
    rewrite Hl, Hg. reflexivity.
Qed.

Lemma retained_bands_within_cutoffs_witness :
  exists self,
    init (BandsList [(Fin 1, Fin 4); (Fin 300, Fin 400)]) 6 true 1
      (ratio 3 10) (Fin 250) (ratio 1 2) (Some (Fin 60)) "knee" false 1
    = Ok self /\
    bands (settings self) = [(Fin 1, Fin 4)] /\
    ~ In (Fin 300, Fin 400) (bands (settings self)).
Proof.
  assert (H : exists self,
             init (BandsList [(Fin 1, Fin 4); (Fin 300, Fin 400)]) 6 true 1
               (ratio 3 10) (Fin 250) (ratio 1 2) (Some (Fin 60)) "knee"
               false 1 = Ok self /\
             bands (settings self) = [(Fin 1, Fin 4)]).
  { fl_eval. eexists. split; reflexivity. }
  destruct H as [self [H Hb]]. exists self.
  split; [exact H|]. split; [exact Hb|].
  destruct (retained_bands_within_cutoffs _ _ _ _ _ _ _ _ _ _ _ _ H)
    as (resolved & name & Hr & _ & Hdrop & _ & _).
  apply Hdrop.
  - cbn in Hr. injection Hr as <- _. right. left. reflexivity.
  - right. fl_eval. reflexivity.
Defined.

(** ** The knee-mode aperiodic function *)

(** C9: the guard of [expo_function] takes the minimum of the positive
    values of [knee + xs**exp] whether or not there is one.  On the
    frequencies [1, 2] with offset 0, knee -10 and exponent 1 every value
    is non-positive, and the call raises ValueError instead of returning a
    finite curve. *)
Theorem expo_function_no_positive_value_raises :
  expo_function [Fin 1; Fin 2] [Fin 0; Fin (-10); Fin 1] = Raise ValueError.
Proof.
  unfold expo_function. fl_cbv. Rdecide.
  rewrite !Rpower_1 by lra. fl_eval. reflexivity.
Qed.

(** Where the guard works: when every value of [knee + xs**exp] is finite
    and at least one is positive, the non-positive values are replaced by
    the smallest positive one and the output is finite everywhere. *)

Lemma fmin_positive (a b : float) :
  positive_finite a -> positive_finite b -> positive_finite (Np.fmin a b).
Proof.
  intros (x & -> & Hx) (y & -> & Hy). unfold Np.fmin.
  destruct (F.leb (Fin x) (Fin y)); [exists x | exists y]; tauto.
Qed.

Lemma fold_fmin_positive (l : array) :
  forall a, Forall positive_finite l -> positive_finite a ->
            positive_finite (fold_left Np.fmin l a).
Proof.
  induction l as [|v l IH]; intros a Hl Ha; [exact Ha|].
  inversion Hl as [|? ? Hv Hl']; subst. simpl.
  apply IH; [exact Hl'|]. apply fmin_positive; assumption.
Qed.

Lemma select_mask_filter (P : float -> bool) (l : array) :
  Np.select_mask (map P l) l = filter P l.
Proof.
  induction l as [|v l IH]; [reflexivity|]. simpl. rewrite IH. reflexivity.
Qed.

Lemma finite_gt_zero_positive (v : float) :
  F.isfinite v = true -> F.gtb v F.zero = true -> positive_finite v.
Proof.
  destruct v as [| | |r]; try discriminate. intros _ H.
  unfold F.gtb, F.ltb, F.zero in H. apply Rltb_spec in H.
  exists r. tauto.
Qed.

Lemma finite_not_le_zero_positive (v : float) :
  F.isfinite v = true -> F.leb v F.zero = false -> positive_finite v.
Proof.
  destruct v as [| | |r]; try discriminate. intros _ H.
  unfold F.leb, F.zero in H. exists r. split; [reflexivity|].
  destruct (Rle_lt_dec r 0) as [Hle|Hlt]; [|exact Hlt].
  apply Rleb_true in Hle. congruence.
Qed.

Lemma log10_positive_finite (offset : R) (v : float) :
  positive_finite v -> F.isfinite (F.sub (Fin offset) (F.log10 v)) = true.
Proof.
  intros (r & -> & Hr). unfold F.log10. rewrite Rltb_true by exact Hr.
  reflexivity.
Qed.

Lemma expo_function_finite_when_positive_exists
    (xs : array) (offset : R) (knee exp : float) :
  let inner := map (fun x => F.add knee (F.pow x exp)) xs in
  Forall (fun v => F.isfinite v = true) inner ->
  Exists (fun v => F.gtb v F.zero = true) inner ->
  exists m ys,
    Np.min (filter (fun v => F.gtb v F.zero) inner) = Ok m /\
    positive_finite m /\
    expo_function xs [Fin offset; knee; exp] = Ok ys /\
    ys = map (fun v => F.sub (Fin offset)
                         (F.log10 (if F.leb v F.zero then m else v))) inner /\
    Forall (fun y => F.isfinite y = true) ys.
Proof.
  intros inner Hfin Hex.
  assert (Hpos : Forall positive_finite
                   (filter (fun v => F.gtb v F.zero) inner)).
  { apply Forall_forall. intros v Hv. apply filter_In in Hv.
    destruct Hv as [Hin Hgt]. apply finite_gt_zero_positive; [|exact Hgt].
    rewrite Forall_forall in Hfin. apply Hfin. exact Hin. }
  assert (Hmin : exists m,
             Np.min (filter (fun v => F.gtb v F.zero) inner) = Ok m /\
             positive_finite m).
  { destruct (filter (fun v => F.gtb v F.zero) inner) as [|p ps] eqn:Hf.
    - apply Exists_exists in Hex. destruct Hex as (v & Hin & Hgt).
      assert (Hv : In v (filter (fun v => F.gtb v F.zero) inner))
        by (apply filter_In; tauto).
      rewrite Hf in Hv. destruct Hv.
    - inversion Hpos as [|? ? Hp Hps]; subst.
      eexists. split; [reflexivity|]. apply fold_fmin_positive; assumption. }
  destruct Hmin as (m & Hm & Hmpos).
  exists m. eexists. split; [exact Hm|]. split; [exact Hmpos|].
  split; [|split].
  - unfold expo_function. fold inner.
    rewrite select_mask_filter, Hm. cbn [rbind].
    rewrite assign_mask_map, map_map. reflexivity.
  - reflexivity.
  - apply Forall_forall. intros y Hy. apply in_map_iff in Hy.
    destruct Hy as (v & <- & Hin). apply log10_positive_finite.
    destruct (F.leb v F.zero) eqn:Hle; [exact Hmpos|].
    apply finite_not_le_zero_positive; [|exact Hle].
    rewrite Forall_forall in Hfin. apply Hfin. exact Hin.
Qed.

(** ** The bounds of the joint gaussian fit *)

Section GaussStd.

Open Scope R_scope.

Lemma sqrt_2ln2_gt_1 : 1 < sqrt (2 * ln 2).
Proof.
  pose proof ln_lt_2 as H.
  rewrite <- sqrt_1 at 1. apply sqrt_lt_1; lra.
Qed.

Lemma compute_gauss_std_fin (w : R) :
  compute_gauss_std (Fin w) = Fin (w / (2 * sqrt (2 * ln 2))).
Proof.
  pose proof ln_lt_2 as H. pose proof sqrt_2ln2_gt_1 as Hs.
  unfold compute_gauss_std. fl_eval. reflexivity.
Qed.

Lemma gauss_std_below_half_width (w : R) :
  0 < w -> w / (2 * sqrt (2 * ln 2)) < w / 2.
Proof.
  intros Hw. pose proof sqrt_2ln2_gt_1 as Hs.
  unfold Rdiv. apply Rmult_lt_compat_l; [exact Hw|].
  apply Rinv_lt_contravar; nra.
Qed.

End GaussStd.

Lemma band_guess_bounds_bounds (freqs ps : array) (b : band) g bb :
  band_guess_bounds freqs ps b = Ok (g, bb) -> bb = band_bounds b.
Proof.
  unfold band_guess_bounds. destruct b as [l h].
  destruct (Np.select _ ps) as [bv|]; simpl; [|discriminate].
  destruct (Np.select _ freqs) as [fb|]; simpl; [|discriminate].
  destruct (Np.max bv) as [amp|]; simpl; [|discriminate].
  intros H. injection H as _ <-. reflexivity.
Qed.

Lemma mapM_band_bounds (freqs ps : array) (bs : list band) :
  forall per, mapM (band_guess_bounds freqs ps) bs = Ok per ->
              concat (map snd per) = flat_map band_bounds bs.
Proof.
  induction bs as [|b bs IH]; simpl; intros per H.
  - injection H as <-. reflexivity.
  - destruct (band_guess_bounds freqs ps b) as [[g bb]|] eqn:Hb; simpl in H;
      [|discriminate].
    destruct (mapM (band_guess_bounds freqs ps) bs) as [per'|] eqn:Hm;
      simpl in H; [|discriminate].
    injection H as <-. simpl.
    rewrite (band_guess_bounds_bounds _ _ _ _ _ Hb), (IH _ eq_refl).
    reflexivity.
Qed.

(** C3 (as the code has it): in the domain the peaks are fitted in (the
    bands are log-transformed when [log_freqs] is set), the joint fit
    hands the solver, per band, the bounds (-inf, +inf) for the amplitude,
    (low, high) for the mean, and (0, compute_gauss_std(high - low)) for
    the standard deviation; for a band with low < high that upper bound is
    (high - low) / (2 sqrt(2 ln 2)), which is less than half the band
    width. *)
Theorem gaussian_fit_bounds
    (E : Externals) (freqs ps : array) (bs : list band) (logf : bool)
    (fd : array) (bd : list band) (g : list float)
    (bb : list (float * float)) :
  fit_domain freqs bs logf = (fd, bd) ->
  guess_bounds fd ps bd = Ok (g, bb) ->
  constrained_gaussian_fit E (Some freqs) ps bs logf
  = curve_fit E (fun x params => sum_of_gaussians x bd params) fd ps g 10000
      (map fst bb, map snd bb) None /\
  bb = flat_map band_bounds bd /\
  (forall l h : R,
      (l < h)%R ->
      band_bounds (Fin l, Fin h)
      = [(NInf, PInf); (Fin l, Fin h);
         (Fin 0, Fin ((h - l) / (2 * sqrt (2 * ln 2))))] /\
      ((h - l) / (2 * sqrt (2 * ln 2)) < (h - l) / 2)%R).
Proof.
  intros Hd Hg. split; [|split].
  - unfold constrained_gaussian_fit. rewrite Hd, Hg. reflexivity.
  - unfold guess_bounds in Hg.
    destruct (mapM (band_guess_bounds fd ps) bd) as [per|] eqn:Hm;
      simpl in Hg; [|discriminate].
    injection Hg as _ <-. eapply mapM_band_bounds; eassumption.
  - intros l h Hlh. split.
    + unfold band_bounds. cbn [fst snd F.sub F.neg F.add F.zero].
      rewrite compute_gauss_std_fin. reflexivity.
    + apply gauss_std_below_half_width. lra.
Qed.

Lemma gaussian_fit_bounds_witness :
  exists g bb,
    guess_bounds [Fin 1; Fin 2] [Fin 1; Fin 1] [(Fin 0, Fin 4)] = Ok (g, bb) /\
    bb = [(NInf, PInf); (Fin 0, Fin 4);
          (Fin 0, Fin ((4 - 0) / (2 * sqrt (2 * ln 2))))].
Proof.
  assert (H : exists g bb,
             guess_bounds [Fin 1; Fin 2] [Fin 1; Fin 1] [(Fin 0, Fin 4)]
             = Ok (g, bb)).
  { pose proof ln_lt_2 as H. pose proof sqrt_2ln2_gt_1 as Hs.
    fl_eval. eexists. eexists. reflexivity. }
  destruct H as (g & bb & H). exists g, bb. split; [exact H|].
  destruct (gaussian_fit_bounds
              {| curve_fit := fun _ _ _ p0 _ _ _ => Ok p0;
                 find_peaks := fun _ _ _ => Ok [];
                 peak_widths := fun _ _ _ => Ok [];
                 interpolate_spectrum := fun f p _ => Ok (f, p) |}
              [Fin 1; Fin 2] [Fin 1; Fin 1] [(Fin 0, Fin 4)] false
              _ _ _ _ eq_refl H) as (_ & Hbb & Hstd).
  rewrite Hbb. cbn [flat_map app].
  destruct (Hstd 0%R 4%R ltac:(lra)) as [Hb _]. rewrite Hb. reflexivity.
Defined.

(** The bounds differ from the bounds the specification words: for the
    band (0, 4) the upper bound on the standard deviation is
    4 / (2 sqrt(2 ln 2)), not the band width 4. *)
Lemma std_bound_is_not_band_width :
  exists g bb,
    guess_bounds [Fin 1; Fin 2] [Fin 1; Fin 1] [(Fin 0, Fin 4)] = Ok (g, bb) /\
    bb <> flat_map claimed_band_bounds [(Fin 0, Fin 4)].
Proof.
  pose proof ln_lt_2 as H. pose proof sqrt_2ln2_gt_1 as Hs.
  fl_eval. eexists. eexists. split; [reflexivity|].
  intros Heq. injection Heq as Heq.
  pose proof (gauss_std_below_half_width (4 + - 0)%R ltac:(lra)) as Hlt.
  rewrite Heq in Hlt. lra.
Qed.

(** ** Frame rules *)

Section Frames.

Context {B : Type} (f : ParamSpectra -> B).

Lemma keeps_ret {A} (a : A) : keeps f (ret a).
Proof. intros self. reflexivity. Qed.

Lemma keeps_raise {A} (e : exn) : keeps f (@raise A e).
Proof. intros self. reflexivity. Qed.

Lemma keeps_lift {A} (r : result A) : keeps f (lift r).
Proof. intros self. reflexivity. Qed.

Lemma keeps_gets {A} (g : ParamSpectra -> A) : keeps f (gets g).
Proof. intros self. reflexivity. Qed.

Lemma keeps_modify (g : ParamSpectra -> ParamSpectra) :
  (forall self, f (g self) = f self) -> keeps f (modify g).
Proof. intros H self. apply H. Qed.

Lemma keeps_bind {A C} (m : M A) (k : A -> M C) :
  keeps f m -> (forall a, keeps f (k a)) -> keeps f (bind m k).
Proof.
  intros Hm Hk self. unfold bind. specialize (Hm self).
  destruct (m self) as [[a|e] self']; simpl in *.
  - rewrite Hk. exact Hm.
  - exact Hm.
Qed.

Lemma keeps_try_except {A} (body handler : M A) (X : exn) :
  keeps f body -> keeps f handler -> keeps f (try_except body X handler).
Proof.
  intros Hb Hh self. unfold try_except. specialize (Hb self).
  destruct (body self) as [[a|e] self']; simpl in *.
  - exact Hb.
  - destruct (exn_eqb e X); simpl; [rewrite Hh|]; exact Hb.
Qed.

End Frames.

Ltac frame_step :=
  first
    [ apply keeps_ret | apply keeps_raise | apply keeps_lift | apply keeps_gets
    | apply keeps_bind; [|intros]
    | apply keeps_try_except
    | apply keeps_modify; intros;
      repeat match goal with
             | |- context [if ?b then _ else _] => destruct b
             end; reflexivity
    | match goal with
      | |- keeps _ (if ?b then _ else _) => destruct b
      | |- keeps _ (match ?x with _ => _ end) => destruct x
      end ].

Ltac frame := repeat frame_step.

(** The methods leave the settings alone; [fit] alone stores its
    [prominence] argument. *)
Lemma reset_keeps_settings a b c : keeps settings (_reset_data_results a b c).
Proof. unfold _reset_data_results. frame. Qed.

Lemma prepare_data_keeps_settings E f p fr :
  keeps settings (_prepare_data E f p fr).
Proof. unfold _prepare_data, set_results. frame. Qed.

Lemma add_data_keeps_settings E f p fr cr :
  keeps settings (add_data E f p fr cr).
Proof.
  unfold add_data. frame.
Qed.

Lemma fit_steps_keeps_settings E : keeps settings (fit_steps E).
Proof.
  unfold fit_steps, _calc_r_squared, _calc_error, set_results. frame.
Qed.

Lemma fit_except_keeps_settings : keeps settings fit_except.
Proof. unfold fit_except. frame. Qed.

Lemma bind_assoc {A B C} (m : M A) (k1 : A -> M B) (k2 : B -> M C) self :
  bind (bind m k1) k2 self = bind m (fun a => bind (k1 a) k2) self.
Proof.
  unfold bind. destruct (m self) as [[a|e] self']; reflexivity.
Qed.

Lemma fit_stores_prominence E fa pa fra pr self :
  settings (snd (fit E fa pa fra pr self))
  = settings_with_prominence pr (settings self).
Proof.
  unfold fit, fit_attach. rewrite bind_assoc.
  unfold bind at 1. unfold modify at 1.
  match goal with
  | |- settings (snd (?K ?s)) = _ =>
      assert (HK : keeps settings K)
  end.
  { frame. }
  rewrite HK. reflexivity.
Qed.

Lemma fit_forgets_stored_prominence E fa pa fra pr p self :
  fit E fa pa fra pr
    (with_settings (settings_with_prominence p (settings self)) self)
  = fit E fa pa fra pr self.
Proof.
  unfold fit, fit_attach. rewrite !bind_assoc.
  unfold bind at 1. unfold modify at 1.
  symmetry. unfold bind at 1. unfold modify at 1.
  reflexivity.
Qed.

(** C5: [fit] overwrites the prominence given to the constructor with its
    own [prominence] argument, whose default is 0.5.  An object constructed
    with prominence 2 and fitted by [fit(freqs, power_spectrum)] runs the
    powerline-peak detection with prominence 0.5 (the detector here reports
    a peak at 0.5 and none at 2, and the 60 Hz peak is recorded), and then
    holds 0.5 as its prominence; the outcome of [fit] does not depend on
    the constructor's value at all. *)
Theorem fit_overwrites_constructor_prominence :
  exists self s1,
    init (BandsList [(Fin 1, Fin 4)]) 6 false 1 (ratio 3 10) (Fin 250)
      (Fin 2) (Some (Fin 60)) "fixed" false 0 = Ok self /\
    prominence (settings self) = Fin 2 /\
    find_peaks detector_one_peak (map F.log10 [Fin 1; Fin 10; Fin 1]) None
      (Fin 2) = Ok [] /\
    fit_attach detector_one_peak (Some [Fin 30; Fin 60; Fin 90])
      (Some [Fin 1; Fin 10; Fin 1]) None fit_default_prominence self
    = (Ok tt, s1) /\
    _noise_pks (results s1) = Some [Fin 60] /\
    prominence (settings s1) = ratio 1 2 /\
    (forall E fa pa fra,
        prominence (settings (snd (fit E fa pa fra fit_default_prominence self)))
        = ratio 1 2) /\
    (forall E fa pa fra pr p,
        fit E fa pa fra pr
          (with_settings (settings_with_prominence p (settings self)) self)
        = fit E fa pa fra pr self).
Proof.
  eexists. eexists.
  split; [fl_eval; reflexivity|].
  split; [reflexivity|].
  split; [fl_eval; reflexivity|].
  split.
  { fl_eval. rewrite ln_1, log10_of_10. fl_eval. reflexivity. }
  split; [reflexivity|]. split; [reflexivity|]. split.
  - intros. rewrite fit_stores_prominence. reflexivity.
  - intros. apply fit_forgets_stored_prominence.
Qed.

(** ** No model before a successful fit *)

Lemma has_model_cleared (mode : string) (self : ParamSpectra) :
  has_model (with_results (cleared_results mode) self) = false.
Proof.
  unfold has_model. simpl. destruct (String.eqb mode "fixed"); reflexivity.
Qed.

Lemma prepare_data_keeps_aperiodic_params E f p fr :
  keeps (fun s => aperiodic_params_ (results s)) (_prepare_data E f p fr).
Proof. unfold _prepare_data, set_results. frame. Qed.

Lemma add_data_keeps_no_model E f p fr cr self :
  has_model self = false ->
  has_model (snd (add_data E f p fr cr self)) = false.
Proof.
  intros H. unfold add_data. unfold bind at 1. unfold gets at 1.
  rewrite H. cbn [andb].
  match goal with
  | |- has_model (snd (?K self)) = _ =>
      assert (HK : keeps (fun s => aperiodic_params_ (results s)) K)
  end.
  { unfold _reset_data_results, _prepare_data, set_results. frame. }
  unfold has_model in *. rewrite HK. exact H.
Qed.

(** A FitError raised by the fit steps is contained when debug mode is
    off: [fit] returns normally and leaves the cleared results. *)
Lemma fit_contains_FitError E fa pa fra pr self s1 :
  fit_attach E fa pa fra pr self = (Ok tt, s1) ->
  fst (fit_steps E s1) = Raise FitError ->
  _debug (settings s1) = false ->
  fit E fa pa fra pr self
  = (Ok tt,
     with_results (cleared_results (aperiodic_mode (settings s1)))
       (snd (fit_steps E s1))).
Proof.
  intros Ha Hs Hd. unfold fit. unfold bind at 1. rewrite Ha.
  unfold try_except.
  pose proof (fit_steps_keeps_settings E s1) as Hk.
  destruct (fit_steps E s1) as [[u|e] s2]; simpl in Hs, Hk |- *;
    [discriminate|].
  injection Hs as ->. cbn [exn_eqb].
  unfold fit_except, bind, gets. rewrite Hk, Hd.
  unfold _reset_data_results, bind, modify. rewrite Hk. reflexivity.
Qed.

(** And it propagates when debug mode is on. *)
Lemma fit_debug_reraises_FitError E fa pa fra pr self s1 :
  fit_attach E fa pa fra pr self = (Ok tt, s1) ->
  fst (fit_steps E s1) = Raise FitError ->
  _debug (settings s1) = true ->
  fit E fa pa fra pr self = (Raise FitError, snd (fit_steps E s1)).
Proof.
  intros Ha Hs Hd. unfold fit. unfold bind at 1. rewrite Ha.
  unfold try_except.
  pose proof (fit_steps_keeps_settings E s1) as Hk.
  destruct (fit_steps E s1) as [[u|e] s2]; simpl in Hs, Hk |- *;
    [discriminate|].
  injection Hs as ->. cbn [exn_eqb].
  unfold fit_except, bind, gets. rewrite Hk, Hd. reflexivity.
Qed.

Lemma awaiting_fit_no_model (self : ParamSpectra) :
  awaiting_fit self -> has_model self = false.
Proof.
  induction 1 as [scheme n_peaks logf n_div lo hi prom noise mode iter verb
                    self Hinit
                 | E f p fr cr self _ IH
                 | E fa pa fra pr self s1 Ha Hs Hd].
  - unfold init in Hinit.
    destruct (str2band scheme n_peaks lo hi n_div) as [[resolved name]|];
      simpl in Hinit; [|discriminate].
    injection Hinit as <-. unfold has_model. simpl.
    destruct (String.eqb mode "fixed"); reflexivity.
  - apply add_data_keeps_no_model. exact IH.
  - rewrite (fit_contains_FitError _ _ _ _ _ _ _ Ha Hs Hd). simpl snd.
    apply has_model_cleared.
Qed.

(** X1: in the states of an object that was constructed, had data
    attached any number of times, or went through a fit failure that
    [fit] contained (whatever model the object held before that failure),
    [get_params_out] raises NoModelError. *)
Theorem no_model_before_successful_fit (self : ParamSpectra) :
  awaiting_fit self -> get_params_out self = Raise NoModelError.
Proof.
  intros H. apply awaiting_fit_no_model in H.
  unfold get_params_out. rewrite H. reflexivity.
Qed.

(** ** Running a method on a concrete state, step by step *)

Lemma step_gets {A B} (g : ParamSpectra -> A) (k : A -> M B) s :
  bind (gets g) k s = k (g s) s.
Proof. reflexivity. Qed.

Lemma step_modify {B} (g : ParamSpectra -> ParamSpectra) (k : unit -> M B) s :
  bind (modify g) k s = k tt (g s).
Proof. reflexivity. Qed.

Lemma step_ret {A B} (a : A) (k : A -> M B) s : bind (ret a) k s = k a s.
Proof. reflexivity. Qed.

Lemma step_raise {A B} (e : exn) (k : A -> M B) s :
  bind (raise e) k s = (Raise e, s).
Proof. reflexivity. Qed.

Lemma step_lift {A B} (r : result A) (k : A -> M B) s a :
  r = Ok a -> bind (lift r) k s = k a s.
Proof. intros ->. reflexivity. Qed.

Lemma step_lift_raise {A B} (r : result A) (k : A -> M B) s e :
  r = Raise e -> bind (lift r) k s = (Raise e, s).
Proof. intros ->. reflexivity. Qed.

Lemma bind_ret_r {A} (m : M A) s : bind m ret s = m s.
Proof. unfold bind, ret. destruct (m s) as [[a|e] s1]; reflexivity. Qed.

(** The value of a pure computation on concrete data. *)
Ltac fl_value := fl_go; fl_eval; reflexivity.

Ltac state_norm :=
  cbv beta;
  cbn [settings data results _max_harmonic with_results with_data
       with_settings with_max_harmonic settings_with_prominence
       data_with_power_spectrum
       bands bandname l_freq h_freq aperiodic_mode verbose log_freqs
       n_division linenoise prominence max_n_peaks iterate_peaks
       _ap_percentile_thresh _ap_guess _ap_bounds _bw_std_edge
       _gauss_overlap_thresh _cf_bound _error_metric _maxfev _tol _debug
       _check_freqs _check_data
       freqs freq_range freq_res power_spectrum
       aperiodic_params_ gaussian_params_ peak_params_ r_squared_ error_
       modeled_spectrum_ _spectrum_flat _spectrum_peak_rm _ap_fit _peak_fit
       _noise_pks _noise_ranges
       upd_aperiodic_params_ upd_gaussian_params_ upd_peak_params_
       upd_r_squared_ upd_error_ upd_modeled_spectrum_ upd_spectrum_flat
       upd_spectrum_peak_rm upd_ap_fit upd_peak_fit upd_noise
       cleared_results negb andb orb].

Ltac mstep :=
  lazymatch goal with
  | |- bind (bind _ _) _ _ = _ => rewrite bind_assoc
  | |- bind (gets _) _ _ = _ => rewrite step_gets
  | |- bind (modify _) _ _ = _ => rewrite step_modify
  | |- bind (set_results _) _ _ = _ =>
      unfold set_results at 1; rewrite step_modify
  | |- bind (ret _) _ _ = _ => rewrite step_ret
  | |- bind (raise _) _ _ = _ => rewrite step_raise
  | |- bind (lift ?r) _ _ = _ =>
      let H := fresh "Hv" in
      eassert (H : r = _) by fl_value;
      lazymatch type of H with
      | _ = Ok _ => rewrite (step_lift _ _ _ _ H)
      | _ = Raise _ => rewrite (step_lift_raise _ _ _ _ H)
      end; clear H
  | |- bind (if ?c then _ else _) _ _ = _ =>
      let H := fresh "Hc" in
      eassert (H : c = _) by fl_value;
      rewrite H; clear H
  | |- bind _calc_r_squared _ _ = _ => unfold _calc_r_squared at 1
  | |- bind (_calc_error _) _ _ = _ => unfold _calc_error at 1
  | |- bind (_reset_data_results _ _ _) _ _ = _ =>
      unfold _reset_data_results at 1
  | |- _calc_error _ _ = _ =>
      unfold _calc_error; rewrite <- (bind_ret_r _ _)
  end; state_norm.

Ltac mrun := repeat mstep.

(** ** The example object *)

Lemma example_object_init :
  init (BandsList [(Fin 1, Fin 4)]) 6 false 1 (ratio 3 10) (Fin 250)
    (ratio 1 2) None "fixed" false 0 = Ok example_object.
Proof. fl_eval. reflexivity. Qed.

Lemma example_fit_attach (E : Externals) :
  fit_attach E (Some [Fin 1; Fin 2; Fin 3]) (Some [Fin 1; Fin 10; Fin 10])
    None fit_default_prominence example_object
  = (Ok tt, example_attached).
Proof.
  fl_eval. rewrite ?ln_1, ?log10_of_10. fl_eval.
  replace (0 / ln 10)%R with 0%R by (unfold Rdiv; ring).
  replace (2 + - (1))%R with 1%R by ring.
  reflexivity.
Qed.

Lemma example_fit_steps_fail :
  fst (fit_steps solver_needs_enough_points example_attached) = Raise FitError.
Proof.
  assert (H : exists s',
             fit_steps solver_needs_enough_points example_attached
             = (Raise FitError, s')).
  { eexists. unfold fit_steps, example_attached, example_object. state_norm.
    mrun. reflexivity. }
  destruct H as [s' H]. rewrite H. reflexivity.
Qed.

Lemma no_model_before_successful_fit_witness :
  init (BandsList [(Fin 1, Fin 4)]) 6 false 1 (ratio 3 10) (Fin 250)
    (ratio 1 2) None "fixed" false 0 = Ok example_object /\
  get_params_out example_object = Raise NoModelError /\
  get_params_out
    (snd (fit solver_needs_enough_points (Some [Fin 1; Fin 2; Fin 3])
            (Some [Fin 1; Fin 10; Fin 10]) None fit_default_prominence
            example_object))
  = Raise NoModelError.
Proof.
  split; [exact example_object_init|]. split.
  - apply no_model_before_successful_fit.
    eapply AF_init. exact example_object_init.
  - apply no_model_before_successful_fit.
    eapply AF_fit_failed.
    + apply example_fit_attach.
    + exact example_fit_steps_fail.
    + reflexivity.
Defined.

(** ** What [fit] does with the errors of its steps *)

Lemma robust_raises_when_simple_raises E self fa ps e :
  _simple_ap_fit E self fa ps = Raise e ->
  _robust_ap_fit E self fa ps = Raise e.
Proof. intros H. unfold _robust_ap_fit. rewrite H. reflexivity. Qed.

Lemma fit_steps_robust_raises E s ps e :
  _check_data (settings s) = true ->
  power_spectrum (data s) = Some ps ->
  _robust_ap_fit E s (freqs (data s)) ps = Raise e ->
  fit_steps E s = (Raise e, s).
Proof.
  intros Hc Hp Hr. unfold fit_steps.
  unfold bind, gets, lift, ret. cbv beta iota. rewrite Hc. cbn [negb].
  cbv beta iota. rewrite Hp. cbn [the_array]. cbv beta iota.
  rewrite Hr. reflexivity.
Qed.

(** An exception of another class than FitError leaves [fit] as it is,
    debug mode or not. *)
Lemma fit_propagates_other_errors E fa pa fra pr self s1 e :
  fit_attach E fa pa fra pr self = (Ok tt, s1) ->
  fst (fit_steps E s1) = Raise e ->
  exn_eqb e FitError = false ->
  fit E fa pa fra pr self = (Raise e, snd (fit_steps E s1)).
Proof.
  intros Ha Hs He. unfold fit. unfold bind at 1. rewrite Ha.
  unfold try_except.
  destruct (fit_steps E s1) as [[u|e'] s2]; simpl in Hs |- *; [discriminate|].
  injection Hs as ->. rewrite He. reflexivity.
Qed.

(** X2: whenever the solver raises RuntimeError in the first simple
    aperiodic fit, the error is not contained.  [_simple_ap_fit] catches
    FitError only, so the RuntimeError passes through it, through
    [_robust_ap_fit] (whose first step it is) and through the
    [except FitError] clause of [fit]: with debug mode off, [fit] raises
    RuntimeError to its caller and does not reset the results. *)
Theorem solver_failure_in_simple_fit_escapes
    (E : Externals) (fa pa : option array) (fra : option (float * float))
    (pr : float) (self s1 : ParamSpectra) (ps : array) :
  (verbose (settings self) <= 1)%Z ->
  fit_attach E fa pa fra pr self = (Ok tt, s1) ->
  _debug (settings s1) = false ->
  _check_data (settings s1) = true ->
  power_spectrum (data s1) = Some ps ->
  _simple_ap_fit E s1 (freqs (data s1)) ps = Raise RuntimeError ->
  fit E fa pa fra pr self = (Raise RuntimeError, s1).
Proof.
  intros _ Ha Hd Hc Hp Hs.
  apply robust_raises_when_simple_raises in Hs.
  pose proof (fit_steps_robust_raises E s1 ps RuntimeError Hc Hp Hs) as Hf.
  rewrite (fit_propagates_other_errors E fa pa fra pr self s1 RuntimeError Ha).
  - rewrite Hf. reflexivity.
  - rewrite Hf. reflexivity.
  - reflexivity.
Qed.

Lemma example_simple_fit_no_convergence :
  _simple_ap_fit solver_never_converges example_attached
    (Some [Fin 1; Fin 2; Fin 3]) [Fin 0; Fin 1; Fin 1]
  = Raise RuntimeError.
Proof. fl_go. reflexivity. Qed.

Lemma solver_failure_in_simple_fit_escapes_witness :
  init (BandsList [(Fin 1, Fin 4)]) 6 false 1 (ratio 3 10) (Fin 250)
    (ratio 1 2) None "fixed" false 0 = Ok example_object /\
  _debug (settings example_object) = false /\
  fit solver_never_converges (Some [Fin 1; Fin 2; Fin 3])
    (Some [Fin 1; Fin 10; Fin 10]) None fit_default_prominence example_object
  = (Raise RuntimeError, example_attached).
Proof.
  split; [exact example_object_init|]. split; [reflexivity|].
  apply (solver_failure_in_simple_fit_escapes solver_never_converges
           (Some [Fin 1; Fin 2; Fin 3]) (Some [Fin 1; Fin 10; Fin 10]) None
           fit_default_prominence example_object example_attached
           [Fin 0; Fin 1; Fin 1]).
  - simpl. lia.
  - apply example_fit_attach.
  - reflexivity.
  - reflexivity.
  - reflexivity.
  - exact example_simple_fit_no_convergence.
Defined.

(** ** The initial guess of the simple aperiodic fit *)

Lemma bind_ok {A B} (m : M A) (k : A -> M B) s b s' :
  bind m k s = (Ok b, s') ->
  exists a s1, m s = (Ok a, s1) /\ k a s1 = (Ok b, s').
Proof.
  unfold bind. destruct (m s) as [[a|e] s1]; intros H; [|discriminate].
  exists a, s1. split; [reflexivity | exact H].
Qed.

Lemma lift_ok {A} (r : result A) s a s' :
  lift r s = (Ok a, s') -> r = Ok a /\ s' = s.
Proof. unfold lift. intros H. injection H as -> ->. split; reflexivity. Qed.

Lemma gets_ok {A} (g : ParamSpectra -> A) s a s' :
  gets g s = (Ok a, s') -> a = g s /\ s' = s.
Proof. unfold gets. intros H. injection H as <- <-. split; reflexivity. Qed.

Lemma modify_ok (g : ParamSpectra -> ParamSpectra) s u s' :
  modify g s = (Ok u, s') -> s' = g s.
Proof. unfold modify. intros H. injection H as _ <-. reflexivity. Qed.

Lemma ret_ok {A} (a : A) s b s' : ret a s = (Ok b, s') -> b = a /\ s' = s.
Proof. unfold ret. intros H. injection H as <- <-. split; reflexivity. Qed.

Lemma rbind_ok {A B} (r : result A) (k : A -> result B) b :
  rbind r k = Ok b -> exists a, r = Ok a /\ k a = Ok b.
Proof.
  destruct r as [a|e]; simpl; intros H; [|discriminate].
  exists a. split; [reflexivity | exact H].
Qed.

Lemma reraise_ok {A} (X : exn) (r : result A) a :
  reraise_as_FitError X r = Ok a -> r = Ok a.
Proof.
  destruct r as [v|e]; simpl; [tauto|]. destruct (exn_eqb e X); discriminate.
Qed.

Lemma keeps_result {A B} (f : ParamSpectra -> B) (m : M A) s r s' :
  keeps f m -> m s = (r, s') -> f s' = f s.
Proof. intros Hk H. specialize (Hk s). rewrite H in Hk. exact Hk. Qed.

(** Inversion of a method that returned normally. *)
Ltac minv :=
  repeat
    match goal with
    | H : bind _ _ _ = (Ok _, _) |- _ =>
        apply bind_ok in H; destruct H as (? & ? & ? & H); cbv beta in H
    | H : lift _ _ = (Ok _, _) |- _ =>
        apply lift_ok in H; destruct H as [H ?]; subst
    | H : gets _ _ = (Ok _, _) |- _ =>
        apply gets_ok in H; destruct H as [? ?]; subst
    | H : set_results _ _ = (Ok _, _) |- _ =>
        apply modify_ok in H; subst
    | H : modify _ _ = (Ok _, _) |- _ =>
        apply modify_ok in H; subst
    | H : ret _ _ = (Ok _, _) |- _ =>
        apply ret_ok in H; destruct H as [? ?]; subst
    | H : raise _ _ = (Ok _, _) |- _ => discriminate H
    | H : (if ?b then _ else _) _ = (Ok _, _) |- _ => destruct b eqn:?
    end.

Ltac rinv :=
  repeat
    match goal with
    | H : rbind _ _ = Ok _ |- _ =>
        apply rbind_ok in H; destruct H as (? & ? & H); cbv beta in H
    | H : reraise_as_FitError _ _ = Ok _ |- _ => apply reraise_ok in H
    | H : Ok _ = Ok _ |- _ => injection H as H; subst
    end.

Lemma ap_guess_no_override (self : ParamSpectra) (arg : array)
    (k : float) (guess : list float) :
  _ap_guess (settings self) = (None, k, None) ->
  ap_guess self arg = Ok guess ->
  exists ps fr off slope,
    power_spectrum (data self) = Some ps /\
    freqs (data self) = Some fr /\
    Np.index arg 1 = Ok off /\
    loglog_slope ps fr = Ok slope /\
    guess = [off] ++ kne_guess self ++ [slope].
Proof.
  intros Hg H. unfold ap_guess in H. rewrite Hg in H.
  cbn [truthy_opt negb] in H.
  apply rbind_ok in H. destruct H as (off & Hoff & H).
  apply rbind_ok in H. destruct H as (slope & Hs & H).
  injection H as <-.
  destruct (power_spectrum (data self)) as [ps|]; [|discriminate].
  destruct (freqs (data self)) as [fr|].
  2:{ cbn [the_array rbind] in Hs.
      destruct (Np.index ps (-1)); [|discriminate].
      cbn [rbind] in Hs. destruct (Np.index ps 0); discriminate. }
  exists ps, fr, off, slope.
  split; [reflexivity|]. split; [reflexivity|]. split; [exact Hoff|]. split.
  - unfold loglog_slope. cbn [the_array rbind] in Hs. exact Hs.
  - unfold kne_guess. rewrite Hg. reflexivity.
Qed.

Lemma simple_ap_fit_same_settings_data E s s' fa arg :
  settings s' = settings s -> data s' = data s ->
  _simple_ap_fit E s' fa arg = _simple_ap_fit E s fa arg.
Proof.
  intros Hs Hd. unfold _simple_ap_fit, ap_guess, ap_bounds.
  rewrite Hs, Hd. reflexivity.
Qed.

Lemma fit_steps_keeps_data E : keeps data (fit_steps E).
Proof.
  unfold fit_steps, _calc_r_squared, _calc_error, set_results. frame.
Qed.

Lemma calc_r_squared_keeps :
  keeps (fun s => (aperiodic_params_ (results s),
                   _spectrum_peak_rm (results s),
                   _peak_fit (results s)))
        _calc_r_squared.
Proof. unfold _calc_r_squared, set_results. frame. Qed.

Lemma calc_error_keeps metric :
  keeps (fun s => (aperiodic_params_ (results s),
                   _spectrum_peak_rm (results s),
                   _peak_fit (results s)))
        (_calc_error metric).
Proof. unfold _calc_error, set_results. frame. Qed.

Lemma the_array_ok (a : option array) (v : array) :
  the_array a = Ok v -> a = Some v.
Proof.
  destruct a; simpl; intros H; [injection H as ->; reflexivity | discriminate].
Qed.

Lemma simple_ap_fit_ok E self fa arg ap :
  _simple_ap_fit E self fa arg = Ok ap ->
  exists guess ap_func xdata,
    ap_guess self arg = Ok guess /\
    get_ap_func (aperiodic_mode (settings self)) = Ok ap_func /\
    fa = Some xdata /\
    curve_fit E ap_func xdata arg guess (_maxfev (settings self))
      (ap_bounds self) (Some (_tol (settings self))) = Ok ap.
Proof.
  unfold _simple_ap_fit. intros H. rinv.
  match goal with Hx : the_array fa = Ok _ |- _ => apply the_array_ok in Hx end.
  eauto 10.
Qed.

Ltac state_simpl :=
  cbn [settings data results _max_harmonic with_results with_data
       with_settings with_max_harmonic
       aperiodic_params_ gaussian_params_ peak_params_ r_squared_ error_
       modeled_spectrum_ _spectrum_flat _spectrum_peak_rm _ap_fit _peak_fit
       _noise_pks _noise_ranges
       upd_aperiodic_params_ upd_gaussian_params_ upd_peak_params_
       upd_r_squared_ upd_error_ upd_modeled_spectrum_ upd_spectrum_flat
       upd_spectrum_peak_rm upd_ap_fit upd_peak_fit upd_noise] in *.

(** C10: without a guess override, the initial guess of a simple aperiodic
    fit is [offset] + [knee] + [exponent], where the offset is the sample
    at index 1 of the spectrum passed to the call and the exponent is the
    absolute log-log slope between the first and last samples of the
    spectrum and frequencies stored in the object; so the final fit of
    [fit], run on the peak-removed spectrum, takes its offset guess from
    the peak-removed spectrum and its exponent guess from the conditioned
    spectrum. *)
Theorem simple_fit_guess_sources
    (E : Externals) (self : ParamSpectra) (k : float) :
  _ap_guess (settings self) = (None, k, None) ->
  (forall fa arg ap,
      _simple_ap_fit E self fa arg = Ok ap ->
      exists ps fr off slope ap_func xdata,
        power_spectrum (data self) = Some ps /\
        freqs (data self) = Some fr /\
        Np.index arg 1 = Ok off /\
        loglog_slope ps fr = Ok slope /\
        get_ap_func (aperiodic_mode (settings self)) = Ok ap_func /\
        fa = Some xdata /\
        curve_fit E ap_func xdata arg ([off] ++ kne_guess self ++ [slope])
          (_maxfev (settings self)) (ap_bounds self)
          (Some (_tol (settings self))) = Ok ap) /\
  (forall s',
      fit_steps E self = (Ok tt, s') ->
      exists ps fr pf peak_rm off slope ap_func,
        power_spectrum (data self) = Some ps /\
        freqs (data self) = Some fr /\
        _peak_fit (results s') = Some pf /\
        Np.sub ps pf = Ok peak_rm /\
        _spectrum_peak_rm (results s') = Some peak_rm /\
        Np.index peak_rm 1 = Ok off /\
        loglog_slope ps fr = Ok slope /\
        get_ap_func (aperiodic_mode (settings self)) = Ok ap_func /\
        curve_fit E ap_func fr peak_rm ([off] ++ kne_guess self ++ [slope])
          (_maxfev (settings self)) (ap_bounds self)
          (Some (_tol (settings self)))
        = Ok (aperiodic_params_ (results s'))).
Proof.
  intros Hg.
  assert (Hcall : forall fa arg ap,
      _simple_ap_fit E self fa arg = Ok ap ->
      exists ps fr off slope ap_func xdata,
        power_spectrum (data self) = Some ps /\
        freqs (data self) = Some fr /\
        Np.index arg 1 = Ok off /\
        loglog_slope ps fr = Ok slope /\
        get_ap_func (aperiodic_mode (settings self)) = Ok ap_func /\
        fa = Some xdata /\
        curve_fit E ap_func xdata arg ([off] ++ kne_guess self ++ [slope])
          (_maxfev (settings self)) (ap_bounds self)
          (Some (_tol (settings self))) = Ok ap).
  { intros fa arg ap H.
    apply simple_ap_fit_ok in H.
    destruct H as (guess & ap_func & xdata & Hguess & Hf & Hfa & Hc).
    destruct (ap_guess_no_override self arg k guess Hg Hguess)
      as (ps & fr & off & slope & Hp & Hfr & Hoff & Hs & ->).
    exists ps, fr, off, slope, ap_func, xdata. repeat (split; [assumption|]).
    assumption. }
  split; [exact Hcall|].
  intros s' H. unfold fit_steps in H.
  apply bind_ok in H. destruct H as (self0 & s0 & H0 & H). cbv beta in H.
  apply gets_ok in H0. destruct H0 as [-> ->].
  apply bind_ok in H. destruct H as (u1 & s1 & H1 & H). cbv beta in H.
  apply (keeps_result (fun s => s)) in H1; [|frame]. subst s1.
  minv;
    match goal with
    | Hs : _simple_ap_fit E ?s ?fa ?arg = Ok ?ap |- _ =>
        rewrite (simple_ap_fit_same_settings_data E self s fa arg
                   eq_refl eq_refl) in Hs;
        apply Hcall in Hs;
        destruct Hs as (ps & fr & off & slope & ap_func & xdata
                        & Hp & Hfr & Hoff & Hsl & Hf & Hfa & Hc)
    end;
    match goal with
    | Hrm : rbind (the_array ?pfo) (fun pf => Np.sub ?x pf) = Ok ?rm |- _ =>
        apply rbind_ok in Hrm; destruct Hrm as (pf & Hpf & Hsub);
        apply the_array_ok in Hpf
    end;
    change (freqs (data self) = Some xdata) in Hfa;
    rewrite Hfr in Hfa; injection Hfa as <-;
    match goal with
    | Hps : the_array (power_spectrum (data self)) = Ok ?x,
      Hsub : Np.sub ?x _ = Ok _ |- _ =>
        apply the_array_ok in Hps;
        rewrite Hp in Hps; injection Hps as <-
    end;
    match goal with
    | H1 : _calc_r_squared _ = (_, ?sa), H2 : _calc_error None ?sa = (_, ?sb)
      |- _ =>
        pose proof (keeps_result
                      (fun s => (aperiodic_params_ (results s),
                                 _spectrum_peak_rm (results s),
                                 _peak_fit (results s)))
                      _ _ _ _ calc_r_squared_keeps H1) as K1;
        pose proof (keeps_result
                      (fun s => (aperiodic_params_ (results s),
                                 _spectrum_peak_rm (results s),
                                 _peak_fit (results s)))
                      _ _ _ _ (calc_error_keeps None) H2) as K2;
        cbv beta in K1, K2; rewrite K1 in K2; injection K2 as Ka Kr Kp
    end;
    exists ps, fr, pf; eexists; exists off, slope, ap_func;
    (split; [exact Hp|]); (split; [exact Hfr|]);
    (split; [rewrite Kp; exact Hpf|]); (split; [exact Hsub|]);
    (split; [rewrite Kr; reflexivity|]); (split; [exact Hoff|]);
    (split; [exact Hsl|]); (split; [exact Hf|]); rewrite Ka; exact Hc.
Qed.

Lemma example_simple_fit_zero :
  _simple_ap_fit solver_answers_zero example_attached
    (Some [Fin 1; Fin 2; Fin 3]) [Fin 0; Fin 1; Fin 1]
  = Ok [Fin 0; Fin 0].
Proof. fl_go. reflexivity. Qed.

Lemma example_fit_steps_zero :
  exists s', fit_steps solver_answers_zero example_attached = (Ok tt, s').
Proof.
  eexists. unfold fit_steps, example_attached, example_object. state_norm.
  mrun. reflexivity.
Qed.

Lemma simple_fit_guess_sources_witness :
  _ap_guess (settings example_attached)
  = (None, F.sub (Fin 250) (ratio 3 10), None) /\
  (exists slope,
      loglog_slope [Fin 0; Fin 1; Fin 1] [Fin 1; Fin 2; Fin 3] = Ok slope /\
      curve_fit solver_answers_zero expo_nk_function [Fin 1; Fin 2; Fin 3]
        [Fin 0; Fin 1; Fin 1] [Fin 1; slope] 5000 ([NInf; NInf], [PInf; PInf])
        (Some (ratio 1 100000))
      = Ok [Fin 0; Fin 0]) /\
  (exists s' peak_rm off,
      fit_steps solver_answers_zero example_attached = (Ok tt, s') /\
      _spectrum_peak_rm (results s') = Some peak_rm /\
      Np.index peak_rm 1 = Ok off).
Proof.
  pose proof (simple_fit_guess_sources solver_answers_zero example_attached
                (F.sub (Fin 250) (ratio 3 10)) eq_refl) as [Hcall Hfit].
  split; [reflexivity|]. split.
  - destruct (Hcall _ _ _ example_simple_fit_zero)
      as (ps & fr & off & slope & ap_func & xdata
          & Hp & Hfr & Hoff & Hsl & Hf & Hfa & Hc).
    injection Hp as <-. injection Hfr as <-. injection Hfa as <-.
    injection Hoff as <-. injection Hf as <-.
    exists slope. split; [exact Hsl | exact Hc].
  - destruct example_fit_steps_zero as [s' Hs'].
    destruct (Hfit s' Hs')
      as (ps & fr & pf & peak_rm & off & slope & ap_func
          & _ & _ & _ & _ & Hrm & Hoff & _).
    exists s', peak_rm, off. split; [exact Hs'|]. split; assumption.
Defined.

(** ** The harmonics of the line noise *)

(** C2: the candidate harmonics are the multiples of 60, whatever the
    configured line-noise frequency.  With linenoise = 50 and a spectrum
    sampled at 25, 50 and 75 Hz there is one harmonic below the maximum
    frequency; the detector is handed [60] instead of [50], and the peak
    it finds at 50 Hz is not matched (50 is not within 5% of 60), so no
    line-noise peak is recorded. *)
Theorem harmonics_are_multiples_of_60 :
  exists self r s1,
    init (BandsList [(Fin 1, Fin 4)]) 6 false 1 (ratio 3 10) (Fin 250)
      (ratio 1 2) (Some (Fin 50)) "fixed" false 0 = Ok self /\
    _prepare_data detector_one_peak [Fin 25; Fin 50; Fin 75]
      [Fin 1; Fin 10; Fin 1] None self = (Ok r, s1) /\
    _max_harmonic s1 = Some 1%Z /\
    harmonics_list 1 = [60%Z] /\
    claimed_harmonics (Fin 50) 1 = [Fin (50 * 1)] /\
    find_peaks detector_one_peak (map F.log10 [Fin 1; Fin 10; Fin 1]) None
      (ratio 1 2) = Ok [1%Z] /\
    at_harmonic (Fin 50) (harmonics_list 1) = false /\
    at_harmonic (Fin 50) [50%Z] = true /\
    _noise_pks (results s1) = Some [].
Proof.
  eexists. eexists. eexists.
  split; [fl_eval; reflexivity|].
  split. { fl_eval. rewrite ?ln_1, ?log10_of_10. fl_eval. reflexivity. }
  split; [reflexivity|]. split; [reflexivity|]. split; [reflexivity|].
  split; [fl_eval; reflexivity|].
  split; [fl_eval; reflexivity|].
  split; [fl_eval; reflexivity|].
  reflexivity.
Qed.

(** ** The robust aperiodic fit *)

Lemma init_default_percentile
    (scheme : bands_arg) (n_peaks : Z) (logf : bool) (n_div : Z)
    (lo hi prom : float) (noise : option float) (mode : string)
    (iter : bool) (verb : Z) (self : ParamSpectra) :
  init scheme n_peaks logf n_div lo hi prom noise mode iter verb = Ok self ->
  _ap_percentile_thresh (settings self) = ratio 25 1000.
Proof.
  unfold init.
  destruct (str2band scheme n_peaks lo hi n_div) as [[resolved name]|];
    simpl; [|discriminate].
  intros H. injection H as <-. reflexivity.
Qed.

(** C4 (as the code has it): in the robust aperiodic fit the residual of
    the initial simple fit has its negative values set to zero, and the
    re-fit runs on exactly the points whose clipped residual is at most
    [np.percentile(flatspec, 0.025)], the 0.025th percentile (the default
    threshold 0.025 is read on NumPy's 0-100 scale), with the parameters of
    the first fit as its initial guess. *)
Theorem robust_fit_refits_lowest_points
    (E : Externals) (self : ParamSpectra) (fa : option array) (ps : array)
    (popt : list float) :
  _ap_percentile_thresh (settings self) = ratio 25 1000 ->
  _simple_ap_fit E self fa ps = Ok popt ->
  _robust_ap_fit E self fa ps
  = (flat <- clipped_residual fa ps popt ;;
     thresh <- Np.percentile flat (ratio 25 1000) ;;
     fr <- the_array fa ;;
     freqs_ignore <- Np.select (map (fun v => F.leb v thresh) flat) fr ;;
     spectrum_ignore <- Np.select (map (fun v => F.leb v thresh) flat) ps ;;
     reraise_as_FitError TypeError
       (reraise_as_FitError RuntimeError
          (ap_func <- get_ap_func (aperiodic_mode (settings self)) ;;
           curve_fit E ap_func freqs_ignore spectrum_ignore popt
             (_maxfev (settings self)) (ap_bounds self)
             (Some (_tol (settings self))))))%res /\
  (forall flat,
      clipped_residual fa ps popt = Ok flat ->
      exists initial_fit resid,
        gen_aperiodic fa popt None = Ok initial_fit /\
        Np.sub ps initial_fit = Ok resid /\
        flat = map (fun v => if F.ltb v F.zero then F.zero else v) resid).
Proof.
  intros Hq Hs. split.
  - unfold _robust_ap_fit, robust_subset. rewrite Hs, Hq. cbn [rbind].
    destruct (clipped_residual fa ps popt) as [flat|]; [|reflexivity].
    cbn [rbind].
    destruct (Np.percentile flat (ratio 25 1000)) as [t|]; [|reflexivity].
    cbn [rbind].
    destruct (the_array fa) as [fr|]; [|reflexivity]. cbn [rbind].
    destruct (Np.select _ fr) as [fi|]; [|reflexivity]. cbn [rbind].
    destruct (Np.select _ ps) as [si|]; reflexivity.
  - intros flat H. unfold clipped_residual in H.
    destruct (gen_aperiodic fa popt None) as [initial_fit|] eqn:Hg;
      [|discriminate]. cbn [rbind] in H.
    destruct (Np.sub ps initial_fit) as [resid|] eqn:Hr; [|discriminate].
    cbn [rbind] in H. injection H as <-.
    exists initial_fit, resid. split; [reflexivity|]. split; [exact Hr|].
    apply assign_mask_map.
Qed.

Lemma robust_fit_refits_lowest_points_witness :
  _ap_percentile_thresh (settings example_attached) = ratio 25 1000 /\
  _simple_ap_fit solver_answers_zero example_attached
    (Some [Fin 1; Fin 2; Fin 3]) [Fin 0; Fin 1; Fin 1] = Ok [Fin 0; Fin 0] /\
  exists flat initial_fit resid,
    clipped_residual (Some [Fin 1; Fin 2; Fin 3]) [Fin 0; Fin 1; Fin 1]
      [Fin 0; Fin 0] = Ok flat /\
    gen_aperiodic (Some [Fin 1; Fin 2; Fin 3]) [Fin 0; Fin 0] None
    = Ok initial_fit /\
    Np.sub [Fin 0; Fin 1; Fin 1] initial_fit = Ok resid /\
    flat = map (fun v => if F.ltb v F.zero then F.zero else v) resid.
Proof.
  split; [reflexivity|]. split; [exact example_simple_fit_zero|].
  destruct (robust_fit_refits_lowest_points solver_answers_zero
              example_attached (Some [Fin 1; Fin 2; Fin 3])
              [Fin 0; Fin 1; Fin 1] [Fin 0; Fin 0] eq_refl
              example_simple_fit_zero) as [_ Hflat].
  assert (Hc : exists flat,
             clipped_residual (Some [Fin 1; Fin 2; Fin 3])
               [Fin 0; Fin 1; Fin 1] [Fin 0; Fin 0] = Ok flat).
  { eexists. fl_go. reflexivity. }
  destruct Hc as [flat Hc]. exists flat.
  destruct (Hflat flat Hc) as (initial_fit & resid & H1 & H2 & H3).
  exists initial_fit, resid. repeat split; assumption.
Defined.

Lemma pow_zero (x : float) : F.pow x (Fin 0) = Fin 1.
Proof.
  unfold F.pow. destruct x; rewrite Reqb_true by reflexivity; reflexivity.
Qed.

(** ** The least-squares solution of the model without a knee *)

Lemma fold_add_fin (l : list R) :
  forall a, fold_left F.add (map Fin l) (Fin a) = Fin (fold_left Rplus l a).
Proof.
  induction l as [|x l IH]; intros a; [reflexivity|]. simpl. apply IH.
Qed.

Lemma np_sum_fin (l : list R) : Np.sum (map Fin l) = Fin (Rsum l).
Proof. unfold Np.sum, F.zero, Rsum. apply fold_add_fin. Qed.

Lemma np_mean_fin (l : list R) :
  l <> [] -> Np.mean (map Fin l) = Fin (Rmean l).
Proof.
  intros Hl. unfold Np.mean, Np.len, F.of_Z. rewrite np_sum_fin, length_map.
  cbn [F.div]. rewrite Reqb_false; [reflexivity|].
  apply not_0_IZR. destruct l; [contradiction | simpl; lia].
Qed.

Lemma map_log10_fin (xs : list R) :
  Forall (fun r => (0 < r)%R) xs ->
  map F.log10 (map Fin xs) = map Fin (map log10R xs).
Proof.
  intros H. rewrite !map_map. apply map_ext_in. intros r Hr.
  rewrite Forall_forall in H. unfold F.log10.
  rewrite Rltb_true by (apply H; exact Hr). reflexivity.
Qed.

Lemma zip_with_fin (f : float -> float -> float) (g : R -> R -> R)
    (l1 l2 : list R) :
  (forall a b, f (Fin a) (Fin b) = Fin (g a b)) ->
  Np.zip_with f (map Fin l1) (map Fin l2)
  = map Fin (map (fun p => g (fst p) (snd p)) (combine l1 l2)).
Proof.
  intros Hf. revert l2. induction l1 as [|a l1 IH]; intros [|b l2];
    try reflexivity.
  simpl. rewrite Hf, IH. reflexivity.
Qed.

Lemma least_squares_nk_fin (xs ys : list R) :
  Forall (fun r => (0 < r)%R) xs ->
  (2 <= length xs)%nat ->
  length ys = length xs ->
  ls_sxx (map log10R xs) <> 0%R ->
  least_squares_nk (map Fin xs) (map Fin ys)
  = Ok [Fin (Rmean ys + - (ls_slope (map log10R xs) ys
                           * Rmean (map log10R xs)));
        Fin (- ls_slope (map log10R xs) ys)].
Proof.
  intros Hpos Hn Hl Hs. unfold least_squares_nk.
  rewrite length_map.
  destruct (length xs <? 2)%nat eqn:Hlt;
    [apply Nat.ltb_lt in Hlt; lia|].
  rewrite (map_log10_fin xs Hpos).
  assert (Hts : map log10R xs <> [])
    by (destruct xs; [simpl in Hn; lia | discriminate]).
  assert (Hys : ys <> [])
    by (destruct ys; [simpl in Hl; lia | discriminate]).
  rewrite (np_mean_fin _ Hts), (np_mean_fin _ Hys).
  rewrite (zip_with_fin _
             (fun a b => ((a + - Rmean (map log10R xs))
                          * (b + - Rmean ys))%R))
    by reflexivity.
  rewrite np_sum_fin.
  rewrite (map_map Fin), (map_ext _ (fun a => Fin ((a + - Rmean (map log10R xs)) * (a + - Rmean (map log10R xs)))))
    by reflexivity.
  rewrite <- (map_map (fun a => ((a + - Rmean (map log10R xs))
                                * (a + - Rmean (map log10R xs)))%R) Fin).
  rewrite np_sum_fin.
  fold (ls_sxy (map log10R xs) ys). fold (ls_sxx (map log10R xs)).
  cbn [F.div]. rewrite Reqb_false by exact Hs.
  reflexivity.
Qed.

(** ** A flat spectrum and a band without samples *)

Lemma example_flat_fit_attach (E : Externals) :
  fit_attach E (Some [Fin 10; Fin 20; Fin 30])
    (Some [Fin 10; Fin 10; Fin 10]) None fit_default_prominence example_object
  = (Ok tt, example_flat_attached).
Proof.
  fl_eval. rewrite ?log10_of_10. fl_eval.
  replace (20 + - (10))%R with 10%R by ring.
  reflexivity.
Qed.

Lemma Rsum_ge_head (x : R) (l : list R) :
  Forall (fun v => (0 <= v)%R) l ->
  forall a, (a <= fold_left Rplus l a)%R.
Proof.
  induction 1 as [|v l Hv _ IH]; intros a; simpl; [lra|].
  specialize (IH (a + v)%R). lra.
Qed.

Lemma ln_lt (a b : R) : (0 < a)%R -> (a < b)%R -> (ln a < ln b)%R.
Proof. intros Ha Hab. apply ln_increasing; assumption. Qed.

Lemma log10R_lt (a b : R) :
  (0 < a)%R -> (a < b)%R -> (log10R a < log10R b)%R.
Proof.
  intros Ha Hab. unfold log10R. pose proof ln_10_pos.
  apply Rmult_lt_compat_r; [apply Rinv_0_lt_compat; lra|].
  apply ln_lt; assumption.
Qed.

Lemma least_squares_flat :
  least_squares_nk [Fin 10; Fin 20; Fin 30] [Fin 1; Fin 1; Fin 1]
  = Ok [Fin 1; Fin 0].
Proof.
  change [Fin 10; Fin 20; Fin 30] with (map Fin [10; 20; 30]%R).
  change [Fin 1; Fin 1; Fin 1] with (map Fin [1; 1; 1]%R).
  pose proof (log10R_lt 10 20 ltac:(lra) ltac:(lra)) as H12.
  pose proof (log10R_lt 20 30 ltac:(lra) ltac:(lra)) as H23.
  assert (Hxy : ls_sxy (map log10R [10; 20; 30]%R) [1; 1; 1]%R = 0%R).
  { unfold ls_sxy, Rmean, Rsum.
    cbn [map combine fold_left length fst snd Z.of_nat Pos.of_succ_nat
         Pos.succ]. lra. }
  assert (Hxx : (0 < ls_sxx (map log10R [10; 20; 30]%R))%R).
  { unfold ls_sxx, Rmean, Rsum.
    cbn [map combine fold_left length fst snd Z.of_nat Pos.of_succ_nat
         Pos.succ].
    set (t1 := log10R 10) in *. set (t2 := log10R 20) in *.
    set (t3 := log10R 30) in *.
    set (m := ((0 + t1 + t2 + t3) / 3)%R).
    assert (Hm : (t1 < m)%R) by (unfold m; lra).
    pose proof (Rle_0_sqr (t2 + - m)) as H2.
    pose proof (Rle_0_sqr (t3 + - m)) as H3.
    unfold Rsqr in H2, H3.
    assert (H1 : (0 < (t1 + - m) * (t1 + - m))%R) by nra.
    lra. }
  rewrite least_squares_nk_fin.
  - unfold ls_slope. rewrite Hxy.
    assert (Hy : Rmean [1; 1; 1]%R = 1%R).
    { unfold Rmean, Rsum. cbn [fold_left length Z.of_nat Pos.of_succ_nat
                                 Pos.succ]. lra. }
    rewrite Hy.
    match goal with
    | |- Ok [Fin ?a; Fin ?b] = _ =>
        replace a with 1%R by (unfold Rdiv; ring);
        replace b with 0%R by (unfold Rdiv; ring)
    end.
    reflexivity.
  - repeat constructor; lra.
  - simpl. lia.
  - reflexivity.
  - apply Rgt_not_eq. exact Hxx.
Qed.

Lemma example_flat_simple_fit :
  _simple_ap_fit least_squares_solver example_flat_attached
    (Some [Fin 10; Fin 20; Fin 30]) [Fin 1; Fin 1; Fin 1]
  = Ok [Fin 1; Fin 0].
Proof.
  unfold _simple_ap_fit, ap_guess.
  cbv - [least_squares_nk F.log10 F.div F.sub F.abs Rplus Rminus Rmult Rdiv
         Ropp Rinv Rlt Rle Rabs ln exp sqrt Rpower PI IZR Int_part F.Rltb
         F.Rleb F.Reqb].
  rewrite least_squares_flat. reflexivity.
Qed.

Lemma example_flat_residual :
  clipped_residual (Some [Fin 10; Fin 20; Fin 30]) [Fin 1; Fin 1; Fin 1]
    [Fin 1; Fin 0]
  = Ok [Fin 0; Fin 0; Fin 0].
Proof.
  unfold clipped_residual, gen_aperiodic.
  cbn [infer_ap_func length Nat.eqb rbind].
  change (get_ap_func "fixed") with (Ok expo_nk_function). cbn [rbind].
  unfold expo_nk_function. cbn [map rbind]. rewrite !pow_zero.
  unfold F.log10. rewrite !Rltb_true by lra. rewrite ln_1.
  cbn [F.sub F.neg F.add Np.sub Np.broadcast2 length Nat.eqb Np.zip_with
       rbind].
  replace (1 + - (1 + - (0 / ln 10)))%R with 0%R by (unfold Rdiv; ring).
  cbn [map F.ltb F.zero]. rewrite !Rltb_false by lra.
  reflexivity.
Qed.

Lemma percentile_zeros3 :
  Np.percentile [Fin 0; Fin 0; Fin 0] (ratio 25 1000) = Ok (Fin 0).
Proof.
  fl_eval.
  match goal with
  | |- Ok (Fin ?a) = _ => replace a with 0%R by ring
  end.
  reflexivity.
Qed.

Lemma example_flat_robust_subset :
  robust_subset example_flat_attached (Some [Fin 10; Fin 20; Fin 30])
    [Fin 1; Fin 1; Fin 1] [Fin 1; Fin 0]
  = Ok ([Fin 10; Fin 20; Fin 30], [Fin 1; Fin 1; Fin 1]).
Proof.
  unfold robust_subset. rewrite example_flat_residual. cbn [rbind].
  change (_ap_percentile_thresh (settings example_flat_attached))
    with (ratio 25 1000).
  rewrite percentile_zeros3. cbn [rbind map F.leb the_array].
  rewrite !Rleb_true by lra. reflexivity.
Qed.

Lemma example_flat_robust_fit :
  _robust_ap_fit least_squares_solver example_flat_attached
    (Some [Fin 10; Fin 20; Fin 30]) [Fin 1; Fin 1; Fin 1]
  = Ok [Fin 1; Fin 0].
Proof.
  unfold _robust_ap_fit. rewrite example_flat_simple_fit. cbn [rbind].
  rewrite example_flat_robust_subset. cbn [rbind]. cbv iota beta.
  change (get_ap_func (aperiodic_mode (settings example_flat_attached)))
    with (Ok expo_nk_function).
  cbn [rbind curve_fit least_squares_solver].
  rewrite least_squares_flat. reflexivity.
Qed.

(** ** An error in the peak fit *)

Lemma select_all_false (P : float -> bool) (fs a : array) :
  Forall (fun f => P f = false) fs ->
  Np.select_mask (map P fs) a = [].
Proof.
  intros H. revert a. induction H as [|f fs Hf _ IH]; intros a.
  - destruct a; reflexivity.
  - destruct a as [|x a]; [reflexivity|]. simpl. rewrite Hf. apply IH.
Qed.

Lemma band_guess_bounds_outcome (freqs ps : array) (b : band) :
  length freqs = length ps ->
  (exists r, band_guess_bounds freqs ps b = Ok r) \/
  band_guess_bounds freqs ps b = Raise ValueError.
Proof.
  intros Hl. unfold band_guess_bounds. destruct b as [l h].
  unfold Np.select. rewrite !length_map, <- Hl, Nat.eqb_refl. cbn [rbind].
  destruct (Np.select_mask _ ps) as [|v bv]; [right; reflexivity|].
  left. eexists. reflexivity.
Qed.

Lemma band_guess_bounds_empty (freqs ps : array) (b : band) :
  length freqs = length ps ->
  Forall (fun f => F.gtb f (fst b) && F.leb f (snd b) = false) freqs ->
  band_guess_bounds freqs ps b = Raise ValueError.
Proof.
  intros Hl He. unfold band_guess_bounds. destruct b as [l h].
  unfold Np.select. rewrite !length_map, <- Hl, Nat.eqb_refl. cbn [rbind].
  rewrite (select_all_false (fun f => F.gtb f l && F.leb f h) freqs ps He).
  reflexivity.
Qed.

(** The guess of a band is the maximum of the flattened spectrum over the
    samples of the band; on a band without samples there is nothing to
    take the maximum of. *)
Lemma empty_band_raises
    (E : Externals) (freqs ps : array) (bands : list band) (logf : bool)
    (fd : array) (bd : list band) :
  fit_domain freqs bands logf = (fd, bd) ->
  length freqs = length ps ->
  Exists (fun b : band =>
            Forall (fun f => F.gtb f (fst b) && F.leb f (snd b) = false) fd)
         bd ->
  constrained_gaussian_fit E (Some freqs) ps bands logf = Raise ValueError.
Proof.
  intros Hd Hl Hex. unfold constrained_gaussian_fit. rewrite Hd.
  assert (Hfd : length fd = length ps).
  { unfold fit_domain in Hd. destruct logf; injection Hd as <- _;
      [rewrite length_map|]; exact Hl. }
  assert (Hg : mapM (band_guess_bounds fd ps) bd = Raise ValueError).
  { clear Hd. induction Hex as [b bd Hb | b bd _ IH].
    - simpl. rewrite (band_guess_bounds_empty _ _ _ Hfd Hb). reflexivity.
    - simpl.
      destruct (band_guess_bounds_outcome fd ps b Hfd) as [[r Hr]|Hr];
        rewrite Hr; [|reflexivity].
      cbn [rbind]. rewrite IH. reflexivity. }
  unfold guess_bounds. rewrite Hg. reflexivity.
Qed.

(** The state [fit] is left in when its peak fit raises: the results of
    the robust aperiodic fit are stored, everything after them is as it
    was. *)
Lemma fit_steps_peak_fit_raises E s ps ap ap_fit flat e :
  _check_data (settings s) = true ->
  power_spectrum (data s) = Some ps ->
  _robust_ap_fit E s (freqs (data s)) ps = Ok ap ->
  gen_aperiodic (freqs (data s)) ap None = Ok ap_fit ->
  Np.sub ps ap_fit = Ok flat ->
  constrained_gaussian_fit E (freqs (data s)) flat (bands (settings s))
    (log_freqs (settings s)) = Raise e ->
  fit_steps E s
  = (Raise e,
     with_results
       (upd_spectrum_flat (Some flat)
          (upd_ap_fit (Some ap_fit)
             (upd_aperiodic_params_ ap (results s)))) s).
Proof.
  intros Hc Hp Hr Hg Hs Hk. unfold fit_steps.
  rewrite step_gets, Hc. cbn [negb]. rewrite step_ret, step_gets.
  rewrite (step_lift _ _ _ ps) by (rewrite Hp; reflexivity).
  rewrite (step_lift _ _ _ ap Hr).
  unfold set_results at 1. rewrite step_modify.
  rewrite (step_lift _ _ _ ap_fit Hg).
  unfold set_results at 1. rewrite step_modify.
  rewrite (step_lift _ _ _ flat Hs).
  unfold set_results at 1. rewrite step_modify.
  rewrite (step_lift_raise _ _ _ e Hk).
  reflexivity.
Qed.

Lemma exn_eqb_neq (e e' : exn) : e <> e' -> exn_eqb e e' = false.
Proof. destruct e, e'; intros H; try reflexivity; contradiction H; reflexivity. Qed.

(** C1: an error of another class than FitError raised in a fit step is
    not contained.  When the peak fit raises such an error (ValueError for
    a band that holds no frequency sample, or whatever the solver raises
    there), [fit] raises it to its caller, in debug mode or not, and the
    results are not reset: the parameters of the robust aperiodic fit, its
    curve and the flattened spectrum stay in the object.  (On an object
    with a verbosity of at most 1: the printing is not modelled.) *)
Theorem error_in_peak_fit_escapes_fit
    (E : Externals) (fa pa : option array) (fra : option (float * float))
    (pr : float) (self s1 : ParamSpectra) (ps : array) (ap : list float)
    (ap_fit flat : array) (e : exn) :
  (verbose (settings self) <= 1)%Z ->
  fit_attach E fa pa fra pr self = (Ok tt, s1) ->
  _check_data (settings s1) = true ->
  power_spectrum (data s1) = Some ps ->
  _robust_ap_fit E s1 (freqs (data s1)) ps = Ok ap ->
  gen_aperiodic (freqs (data s1)) ap None = Ok ap_fit ->
  Np.sub ps ap_fit = Ok flat ->
  constrained_gaussian_fit E (freqs (data s1)) flat (bands (settings s1))
    (log_freqs (settings s1)) = Raise e ->
  e <> FitError ->
  fit E fa pa fra pr self
  = (Raise e,
     with_results
       (upd_spectrum_flat (Some flat)
          (upd_ap_fit (Some ap_fit)
             (upd_aperiodic_params_ ap (results s1)))) s1).
Proof.
  intros _ Ha Hc Hp Hr Hg Hs Hk He.
  pose proof (fit_steps_peak_fit_raises E s1 ps ap ap_fit flat e
                Hc Hp Hr Hg Hs Hk) as Hf.
  rewrite (fit_propagates_other_errors E fa pa fra pr self s1 e Ha).
  - rewrite Hf. reflexivity.
  - rewrite Hf. reflexivity.
  - apply exn_eqb_neq. exact He.
Qed.

(** The run of the examples: the object constructed with the band (1, 4)
    is fitted on a spectrum of power 10 at 10, 20 and 30 Hz.  The robust
    aperiodic fit returns offset 1 and exponent 0; the band holds no
    sample, and the peak fit raises ValueError. *)
Lemma example_flat_aperiodic :
  gen_aperiodic (Some [Fin 10; Fin 20; Fin 30]) [Fin 1; Fin 0] None
  = Ok [Fin 1; Fin 1; Fin 1].
Proof.
  unfold gen_aperiodic.
  cbn [infer_ap_func length Nat.eqb rbind].
  change (get_ap_func "fixed") with (Ok expo_nk_function). cbn [rbind].
  unfold expo_nk_function. cbn [map]. rewrite !pow_zero.
  unfold F.log10. rewrite !Rltb_true by lra. rewrite ln_1.
  cbn [F.sub F.neg F.add].
  replace (1 + - (0 / ln 10))%R with 1%R by (unfold Rdiv; ring).
  reflexivity.
Qed.

Lemma example_flat_peak_fit (E : Externals) :
  constrained_gaussian_fit E (Some [Fin 10; Fin 20; Fin 30])
    [Fin (1 + - (1)); Fin (1 + - (1)); Fin (1 + - (1))] [(Fin 1, Fin 4)] false
  = Raise ValueError.
Proof.
  apply (empty_band_raises E [Fin 10; Fin 20; Fin 30] _
           [(Fin 1, Fin 4)] false [Fin 10; Fin 20; Fin 30] [(Fin 1, Fin 4)]).
  - reflexivity.
  - reflexivity.
  - apply Exists_cons_hd. repeat constructor; fl_eval; reflexivity.
Qed.

Lemma error_in_peak_fit_escapes_fit_witness :
  init (BandsList [(Fin 1, Fin 4)]) 6 false 1 (ratio 3 10) (Fin 250)
    (ratio 1 2) None "fixed" false 0 = Ok example_object /\
  _debug (settings example_object) = false /\
  exists s',
    fit least_squares_solver (Some [Fin 10; Fin 20; Fin 30])
      (Some [Fin 10; Fin 10; Fin 10]) None fit_default_prominence
      example_object
    = (Raise ValueError, s') /\
    aperiodic_params_ (results s') = [Fin 1; Fin 0] /\
    _ap_fit (results s') = Some [Fin 1; Fin 1; Fin 1].
Proof.
  split; [exact example_object_init|]. split; [reflexivity|].
  eexists. split.
  - apply (error_in_peak_fit_escapes_fit least_squares_solver
             (Some [Fin 10; Fin 20; Fin 30]) (Some [Fin 10; Fin 10; Fin 10])
             None fit_default_prominence example_object
             example_flat_attached [Fin 1; Fin 1; Fin 1] [Fin 1; Fin 0]
             [Fin 1; Fin 1; Fin 1]
             [Fin (1 + - (1)); Fin (1 + - (1)); Fin (1 + - (1))] ValueError).
    + simpl. lia.
    + apply example_flat_fit_attach.
    + reflexivity.
    + reflexivity.
    + exact example_flat_robust_fit.
    + exact example_flat_aperiodic.
    + reflexivity.
    + apply example_flat_peak_fit.
    + discriminate.
  - split; reflexivity.
Defined.

(** ** The fit record after an aborted fit *)

(** C7: the record is not withheld until a fit has succeeded.  A call of
    [fit] whose peak fit raises an error of another class than FitError
    leaves the parameters of the robust aperiodic fit in the object; they
    are not all NaN, so the object reports a model, and [get_params_out]
    returns a record made of these parameters and of whatever the other
    results held, where NoModelError was to be raised.  (On an object with
    a verbosity of at most 1: the printing is not modelled.) *)
Theorem aborted_fit_leaves_a_fit_record
    (E : Externals) (fa pa : option array) (fra : option (float * float))
    (pr : float) (self s1 : ParamSpectra) (ps : array) (ap : list float)
    (ap_fit flat : array) (e : exn) (mh : Z) :
  (verbose (settings self) <= 1)%Z ->
  fit_attach E fa pa fra pr self = (Ok tt, s1) ->
  _check_data (settings s1) = true ->
  power_spectrum (data s1) = Some ps ->
  _robust_ap_fit E s1 (freqs (data s1)) ps = Ok ap ->
  gen_aperiodic (freqs (data s1)) ap None = Ok ap_fit ->
  Np.sub ps ap_fit = Ok flat ->
  constrained_gaussian_fit E (freqs (data s1)) flat (bands (settings s1))
    (log_freqs (settings s1)) = Raise e ->
  e <> FitError ->
  forallb F.isnan ap = false ->
  _max_harmonic s1 = Some mh ->
  _noise_pks (results s1) = None ->
  fst (fit E fa pa fra pr self) = Raise e /\
  has_model (snd (fit E fa pa fra pr self)) = true /\
  get_params_out (snd (fit E fa pa fra pr self))
  = Ok {| out_aperiodic_params := ap;
          out_gaussian_params := gaussian_params_ (results s1);
          out_noise_pks := repeat None (Z.to_nat mh);
          out_noise_wids := repeat None (Z.to_nat mh);
          out_peak_params :=
            flat_map (fun '(cf, pw, bw) => [cf; pw; bw])
              (peak_params_ (results s1));
          out_r_squared := r_squared_ (results s1);
          out_error := error_ (results s1) |}.
Proof.
  intros _ Ha Hc Hp Hr Hg Hs Hk He Hnan Hmh Hn.
  pose proof (fit_steps_peak_fit_raises E s1 ps ap ap_fit flat e
                Hc Hp Hr Hg Hs Hk) as Hf.
  rewrite (fit_propagates_other_errors E fa pa fra pr self s1 e Ha);
    [| rewrite Hf; reflexivity | apply exn_eqb_neq; exact He].
  rewrite Hf. cbn [fst snd].
  split; [reflexivity|].
  assert (Hm : has_model
                 (with_results
                    (upd_spectrum_flat (Some flat)
                       (upd_ap_fit (Some ap_fit)
                          (upd_aperiodic_params_ ap (results s1)))) s1)
               = true).
  { unfold has_model. cbn. rewrite Hnan. reflexivity. }
  split; [exact Hm|].
  unfold get_params_out. rewrite Hm. cbn [negb].
  cbn [_max_harmonic with_results]. rewrite Hmh. cbn [rbind].
  cbn [results with_results _noise_pks upd_spectrum_flat upd_ap_fit
       upd_aperiodic_params_].
  rewrite Hn. cbn [rbind]. reflexivity.
Qed.

Lemma aborted_fit_leaves_a_fit_record_witness :
  init (BandsList [(Fin 1, Fin 4)]) 6 false 1 (ratio 3 10) (Fin 250)
    (ratio 1 2) None "fixed" false 0 = Ok example_object /\
  fst (fit least_squares_solver (Some [Fin 10; Fin 20; Fin 30])
         (Some [Fin 10; Fin 10; Fin 10]) None fit_default_prominence
         example_object) = Raise ValueError /\
  get_params_out
    (snd (fit least_squares_solver (Some [Fin 10; Fin 20; Fin 30])
            (Some [Fin 10; Fin 10; Fin 10]) None fit_default_prominence
            example_object))
  = Ok {| out_aperiodic_params := [Fin 1; Fin 0];
          out_gaussian_params := [];
          out_noise_pks := [];
          out_noise_wids := [];
          out_peak_params := [];
          out_r_squared := NaN;
          out_error := NaN |}.
Proof.
  split; [exact example_object_init|].
  destruct (aborted_fit_leaves_a_fit_record least_squares_solver
              (Some [Fin 10; Fin 20; Fin 30]) (Some [Fin 10; Fin 10; Fin 10])
              None fit_default_prominence example_object
              example_flat_attached [Fin 1; Fin 1; Fin 1] [Fin 1; Fin 0]
              [Fin 1; Fin 1; Fin 1]
              [Fin (1 + - (1)); Fin (1 + - (1)); Fin (1 + - (1))] ValueError
              0%Z ltac:(simpl; lia)
              (example_flat_fit_attach least_squares_solver)
              eq_refl eq_refl example_flat_robust_fit example_flat_aperiodic
              eq_refl (example_flat_peak_fit least_squares_solver)
              ltac:(discriminate) eq_refl eq_refl eq_refl)
    as (H1 & _ & H3).
  split; [exact H1 | exact H3].
Defined.

(** ** Sums of real numbers *)

Section Sums.

Open Scope R_scope.

Lemma Rsum_shift (l : list R) : forall a, fold_left Rplus l a = a + Rsum l.
Proof.
  unfold Rsum. induction l as [|x l IH]; intros a; simpl; [lra|].
  rewrite IH, (IH (0 + x)). lra.
Qed.

Lemma Rsum_cons (x : R) (l : list R) : Rsum (x :: l) = x + Rsum l.
Proof. unfold Rsum at 1. simpl. rewrite Rsum_shift. lra. Qed.

Lemma Rsum_app (l1 l2 : list R) : Rsum (l1 ++ l2) = Rsum l1 + Rsum l2.
Proof.
  induction l1 as [|x l1 IH]; simpl.
  - unfold Rsum at 2. simpl. lra.
  - rewrite !Rsum_cons, IH. lra.
Qed.

Lemma Rsum_nonneg (l : list R) : Forall (fun v => 0 <= v) l -> 0 <= Rsum l.
Proof.
  induction 1 as [|v l Hv _ IH]; [unfold Rsum; simpl; lra|].
  rewrite Rsum_cons. lra.
Qed.

Lemma Rsum_repeat (c : R) (k : nat) : Rsum (repeat c k) = INR k * c.
Proof.
  induction k as [|k IH]; [unfold Rsum; simpl; lra|].
  cbn [repeat]. rewrite Rsum_cons, IH, S_INR. lra.
Qed.

Lemma combine_app_eq {A B} (l1 l2 : list A) (r1 r2 : list B) :
  length l1 = length r1 ->
  combine (l1 ++ l2) (r1 ++ r2) = combine l1 r1 ++ combine l2 r2.
Proof.
  revert r1. induction l1 as [|a l1 IH]; intros [|b r1] H; try discriminate;
    [reflexivity|].
  simpl. rewrite IH; [reflexivity | simpl in H; congruence].
Qed.

Lemma sxy_const_block (l : list R) (c m yb : R) :
  Rsum (map (fun p => (fst p + - m) * (snd p + - yb))
          (combine l (repeat c (length l))))
  = (Rsum l - INR (length l) * m) * (c - yb).
Proof.
  induction l as [|a l IH].
  - unfold Rsum. simpl. lra.
  - cbn [length repeat combine map fst snd].
    rewrite !Rsum_cons, IH, S_INR. ring.
Qed.

End Sums.

(** ** Least squares on a flat spectrum with one notch *)

Section Notch.

Open Scope R_scope.

Variables (xs1 xs2 : list R) (xj : R).

Let xs := xs1 ++ xj :: xs2.
Let ys := repeat 1 (length xs1) ++ 0 :: repeat 1 (length xs2).
Let ts := map log10R xs.
Let m := Rmean ts.
Let tj := log10R xj.
Let n := INR (length xs).

Lemma notch_length : length xs = (length xs1 + 1 + length xs2)%nat.
Proof. unfold xs. rewrite length_app. simpl. lia. Qed.

Lemma notch_n_pos : 0 < n.
Proof.
  unfold n. apply lt_0_INR. rewrite notch_length. lia.
Qed.

Lemma notch_mean : n * m = Rsum (map log10R xs1) + tj + Rsum (map log10R xs2).
Proof.
  pose proof notch_n_pos as Hn.
  unfold m, Rmean, ts. rewrite length_map. rewrite <- INR_IZR_INZ. fold n.
  unfold xs. rewrite map_app. cbn [map]. rewrite Rsum_app, Rsum_cons.
  fold tj. field. lra.
Qed.

Lemma notch_ybar : Rmean ys = (n - 1) / n.
Proof.
  unfold Rmean, ys. rewrite length_app. cbn [length].
  rewrite !repeat_length. rewrite <- INR_IZR_INZ.
  replace (INR (length xs1 + S (length xs2))) with n
    by (unfold n; rewrite notch_length; f_equal; lia).
  rewrite Rsum_app, Rsum_cons, !Rsum_repeat.
  unfold n. rewrite notch_length, !plus_INR. simpl INR. f_equal. lra.
Qed.

Lemma notch_sxy : ls_sxy ts ys = m - tj.
Proof.
  pose proof notch_mean as Hm.
  unfold ls_sxy. fold m. set (yb := Rmean ys).
  unfold ts, xs, ys. rewrite map_app. cbn [map]. fold tj.
  rewrite combine_app_eq by (rewrite length_map, repeat_length; reflexivity).
  cbn [combine]. rewrite map_app. cbn [map fst snd].
  rewrite Rsum_app, Rsum_cons.
  rewrite <- (length_map log10R xs1) at 1.
  rewrite <- (length_map log10R xs2) at 1.
  rewrite !sxy_const_block. rewrite !length_map.
  unfold n in Hm. rewrite notch_length, !plus_INR in Hm. simpl INR in Hm.
  set (T1 := Rsum (map log10R xs1)) in *.
  set (T2 := Rsum (map log10R xs2)) in *.
  set (k1 := INR (length xs1)) in *. set (k2 := INR (length xs2)) in *.
  replace ((T1 - k1 * m) * (1 - yb) + ((tj + - m) * (0 + - yb)
           + (T2 - k2 * m) * (1 - yb)))
    with ((T1 + T2 - (k1 + k2) * m) * (1 - yb) + (tj - m) * (- yb)) by ring.
  replace (T1 + T2 - (k1 + k2) * m) with (m - tj) by lra.
  ring.
Qed.

Lemma notch_sxx_ge (x1 : R) (rest : list R) :
  xs1 = x1 :: rest ->
  (log10R x1 + - m) * (log10R x1 + - m) <= ls_sxx ts.
Proof.
  intros H1. unfold ls_sxx. fold m. unfold ts, xs. rewrite H1.
  cbn [app map]. rewrite Rsum_cons.
  assert (Hr : 0 <= Rsum (map (fun a => (a + - m) * (a + - m))
                            (map log10R (rest ++ xj :: xs2)))).
  { apply Rsum_nonneg. apply Forall_forall. intros v Hv.
    apply in_map_iff in Hv. destruct Hv as (a & <- & _).
    apply Rle_0_sqr. }
  lra.
Qed.

(** The first fit on the notched spectrum: its parameters, and where its
    curve passes. *)
Lemma notch_first_fit (x1 : R) (rest : list R) :
  xs1 = x1 :: rest ->
  Forall (fun r => 0 < r) xs ->
  log10R x1 < m ->
  m < tj ->
  n * (tj - m) < m - log10R x1 ->
  exists off e,
    least_squares_nk (map Fin xs) (map Fin ys) = Ok [Fin off; Fin e] /\
    0 < e /\
    off - e * log10R x1 < 1 /\
    0 < off - e * tj.
Proof.
  intros H1 Hpos Ht1 Hu Hn2.
  pose proof notch_n_pos as Hn. pose proof (notch_sxx_ge x1 rest H1) as Hge.
  set (t1 := log10R x1) in *.
  assert (Hsq : 0 < (t1 + - m) * (t1 + - m)) by nra.
  assert (HS : 0 < ls_sxx ts) by lra.
  assert (Hlen2 : (2 <= length xs)%nat).
  { rewrite notch_length, H1. simpl. lia. }
  assert (Hn2' : 2 <= n).
  { unfold n. change 2 with (INR 2). apply le_INR. exact Hlen2. }
  eexists. eexists. split.
  - apply least_squares_nk_fin.
    + exact Hpos.
    + exact Hlen2.
    + unfold ys, xs. rewrite !length_app. cbn [length].
      rewrite !repeat_length. reflexivity.
    + apply Rgt_not_eq. exact HS.
  - fold ts. fold m. unfold ls_slope. rewrite notch_sxy, notch_ybar.
    set (S := ls_sxx ts) in *.
    assert (He : (m - tj) / S = - ((tj - m) / S)) by (field; lra).
    rewrite He. rewrite Ropp_involutive.
    set (e := (tj - m) / S).
    assert (HeS : e * S = tj - m) by (unfold e; field; lra).
    assert (Hepos : 0 < e) by (unfold e; apply Rdiv_lt_0_compat; lra).
    (* e * (m - t1) < 1 / n *)
    assert (Hkey : n * (e * (m - t1)) < 1).
    { assert (Hd : 0 < m - t1) by lra.
      assert (H2 : e * ((m - t1) * (m - t1)) <= e * S).
      { apply Rmult_le_compat_l; [lra|].
        replace ((m - t1) * (m - t1)) with ((t1 + - m) * (t1 + - m)) by ring.
        exact Hge. }
      assert (H3 : n * (e * ((m - t1) * (m - t1))) < (m - t1) * 1) by nra.
      apply (Rmult_lt_reg_l (m - t1)); [exact Hd|].
      replace ((m - t1) * (n * (e * (m - t1))))
        with (n * (e * ((m - t1) * (m - t1)))) by ring.
      exact H3. }
    split; [exact Hepos|]. split.
    + (* off - e t1 = (n-1)/n + e (m - t1) *)
      replace ((n - 1) / n + - (- e * m) - e * t1)
        with ((n - 1) / n + e * (m - t1)) by ring.
      assert (Hx : e * (m - t1) < 1 / n).
      { apply (Rmult_lt_reg_l n); [exact Hn|].
        replace (n * (1 / n)) with 1 by (field; lra). exact Hkey. }
      replace ((n - 1) / n) with (1 - 1 / n) by (field; lra). lra.
    + replace ((n - 1) / n + - (- e * m) - e * tj)
        with ((n - 1) / n - e * (tj - m)) by ring.
      (* e (tj - m) < e (m - t1) / n < 1/n^2 *)
      assert (Hy : n * (e * (tj - m)) < e * (m - t1)).
      { replace (n * (e * (tj - m))) with (e * (n * (tj - m))) by ring.
        apply Rmult_lt_compat_l; assumption. }
      assert (Hz : n * (n * (e * (tj - m))) < 1).
      { apply Rlt_trans with (n * (e * (m - t1))); [|exact Hkey].
        apply Rmult_lt_compat_l; [exact Hn | exact Hy]. }
      assert (Hw : e * (tj - m) < 1 / 2).
      { assert (Hp : 0 < e * (tj - m)) by (apply Rmult_lt_0_compat; lra).
        set (w := e * (tj - m)) in *.
        assert (H4 : 2 * (2 * w) <= n * (n * w)).
        { apply Rmult_le_compat; try lra.
          apply Rmult_le_compat; lra. }
        lra. }
      assert (Hq : 1 / 2 <= (n - 1) / n).
      { apply (Rmult_le_reg_l n); [exact Hn|].
        replace (n * ((n - 1) / n)) with (n - 1) by (field; lra). lra. }
      lra.
Qed.

End Notch.

(** ** Sorting, percentiles and masks on finite values *)

Section Sorting.

Open Scope R_scope.

Lemma insert_front (z : R) (l : list R) :
  Forall (fun b => z < b) l ->
  Np.insert (Fin z) (map Fin l) = map Fin (z :: l).
Proof.
  intros H. destruct l as [|b l]; [reflexivity|].
  inversion H as [|? ? Hb _]; subst. cbn [map Np.insert F.leb].
  rewrite Rleb_true by lra. reflexivity.
Qed.

Lemma sort_cons (x : float) (l : array) :
  Np.sort (x :: l) = Np.insert x (Np.sort l).
Proof. reflexivity. Qed.

Lemma sort_ascending (l : list R) :
  ascending l -> Np.sort (map Fin l) = map Fin l.
Proof.
  induction l as [|a l IH]; intros H; [reflexivity|].
  destruct H as [Ha Hl]. cbn [map]. rewrite sort_cons, (IH Hl).
  apply insert_front. exact Ha.
Qed.

Lemma ascending_app_r (l1 l2 : list R) :
  ascending (l1 ++ l2) -> ascending l2.
Proof.
  induction l1 as [|a l1 IH]; [tauto|]. cbn [app ascending].
  intros [_ H]. apply IH. exact H.
Qed.

Lemma sort_notch (l1 l2 : list R) (z : R) :
  ascending (l1 ++ l2) ->
  Forall (fun b => z < b) (l1 ++ l2) ->
  Np.sort (map Fin (l1 ++ z :: l2)) = map Fin (z :: l1 ++ l2).
Proof.
  induction l1 as [|a l1 IH]; intros Hs Hz.
  - cbn [app] in *. cbn [map]. rewrite sort_cons, (sort_ascending l2 Hs).
    apply insert_front. exact Hz.
  - cbn [app] in *. destruct Hs as [Ha Hs].
    inversion Hz as [|? ? Hza Hz']; subst.
    cbn [map]. rewrite sort_cons. rewrite (IH Hs Hz').
    cbn [map Np.insert F.leb]. rewrite Rleb_false by lra.
    change (Fin z :: Np.insert (Fin a) (map Fin (l1 ++ l2))
            = Fin z :: Fin a :: map Fin (l1 ++ l2)).
    f_equal. apply (insert_front a (l1 ++ l2)). exact Ha.
Qed.

Lemma existsb_isnan_fin (l : list R) : existsb F.isnan (map Fin l) = false.
Proof. induction l as [|a l IH]; [reflexivity | exact IH]. Qed.

Lemma leb_mask_false (t : R) (l : list R) :
  Forall (fun v => t < v) l ->
  map (fun v => F.leb v (Fin t)) (map Fin l) = repeat false (length l).
Proof.
  induction 1 as [|v l Hv _ IH]; [reflexivity|].
  cbn [map length repeat F.leb]. rewrite Rleb_false by lra.
  rewrite IH. reflexivity.
Qed.

Lemma select_repeat_false {k : nat} (l : array) :
  Np.select_mask (repeat false k) l = [].
Proof.
  revert l. induction k as [|k IH]; intros [|x l]; try reflexivity.
  cbn [repeat Np.select_mask]. apply IH.
Qed.

Lemma select_mask_app (m1 m2 : list bool) (l1 l2 : array) :
  length m1 = length l1 ->
  Np.select_mask (m1 ++ m2) (l1 ++ l2)
  = Np.select_mask m1 l1 ++ Np.select_mask m2 l2.
Proof.
  revert l1. induction m1 as [|b m1 IH]; intros [|x l1] H; try discriminate;
    [reflexivity|].
  simpl in H. injection H as H. cbn [app Np.select_mask].
  rewrite (IH l1 H). destruct b; reflexivity.
Qed.

End Sorting.

(** ** The residual of a line fit, and the points the robust fit keeps *)

Lemma pow_positive (r e : R) :
  (0 < r)%R ->
  exists p, F.pow (Fin r) (Fin e) = Fin p /\ (0 < p)%R /\
            (ln p = e * ln r)%R.
Proof.
  intros Hr. unfold F.pow. destruct (Req_dec_T e 0) as [He|He].
  - rewrite Reqb_true by exact He. exists 1%R.
    split; [reflexivity|]. split; [lra|]. rewrite ln_1, He. ring.
  - rewrite Reqb_false by exact He. rewrite Rltb_true by exact Hr.
    exists (Rpower r e). split; [reflexivity|]. split.
    + unfold Rpower. apply exp_pos.
    + unfold Rpower. apply ln_exp.
Qed.

Section LineResidual.

Open Scope R_scope.

Variables (off e : R).

Let h (x : R) : R := off - e * (ln x / ln 10).
Let clip (v : float) : float := if F.ltb v F.zero then F.zero else v.
Let diff (p : R * R) : R := fst p + - snd p.

Lemma gen_aperiodic_line (xs : list R) :
  Forall (fun r => 0 < r) xs ->
  gen_aperiodic (Some (map Fin xs)) [Fin off; Fin e] None
  = Ok (map Fin (map h xs)).
Proof.
  intros Hpos. unfold gen_aperiodic.
  cbn [infer_ap_func length Nat.eqb rbind].
  change (get_ap_func "fixed") with (Ok expo_nk_function). cbn [rbind].
  unfold expo_nk_function. f_equal. rewrite !map_map.
  apply map_ext_in. intros r Hr. rewrite Forall_forall in Hpos.
  destruct (pow_positive r e (Hpos r Hr)) as (p & -> & Hp & Hln).
  unfold F.log10. rewrite Rltb_true by exact Hp.
  unfold F.sub, F.neg, F.add, h. f_equal. rewrite Hln. unfold Rdiv. ring.
Qed.

Lemma clipped_residual_line (xs ys : list R) :
  Forall (fun r => 0 < r) xs ->
  length ys = length xs ->
  clipped_residual (Some (map Fin xs)) (map Fin ys) [Fin off; Fin e]
  = Ok (map clip (map Fin (map diff (combine ys (map h xs))))).
Proof.
  intros Hpos Hlen. unfold clipped_residual.
  rewrite (gen_aperiodic_line xs Hpos). cbn [rbind].
  unfold Np.sub, Np.broadcast2. rewrite !length_map, Hlen, Nat.eqb_refl.
  cbn [rbind]. rewrite assign_mask_map.
  rewrite (zip_with_fin F.sub (fun a b => a + - b)) by reflexivity.
  reflexivity.
Qed.

Lemma clip_block (c : R) (l : list R) :
  Forall (fun x => 0 <= c + - h x) l ->
  map clip (map Fin (map diff (combine (repeat c (length l)) (map h l))))
  = map Fin (map (fun x => c + - h x) l).
Proof.
  induction 1 as [|x l Hx _ IH]; [reflexivity|].
  cbn [length repeat map combine]. rewrite IH. f_equal.
  unfold clip, diff, F.ltb, F.zero. cbn [fst snd].
  rewrite Rltb_false by lra. reflexivity.
Qed.

Lemma clipped_residual_notch (xs1 xs2 : list R) (xj : R) :
  Forall (fun r => 0 < r) (xs1 ++ xj :: xs2) ->
  Forall (fun x => 0 <= 1 + - h x) (xs1 ++ xs2) ->
  0 < h xj ->
  clipped_residual (Some (map Fin (xs1 ++ xj :: xs2)))
    (map Fin (repeat 1 (length xs1) ++ 0 :: repeat 1 (length xs2)))
    [Fin off; Fin e]
  = Ok (map Fin (map (fun x => 1 + - h x) xs1 ++ 0
                   :: map (fun x => 1 + - h x) xs2)).
Proof.
  intros Hpos Hres Hj. rewrite (clipped_residual_line _ _ Hpos).
  2:{ rewrite !length_app. cbn [length]. rewrite !repeat_length.
      reflexivity. }
  apply Forall_app in Hres as [H1 H2].
  rewrite map_app. cbn [map].
  rewrite combine_app_eq by (rewrite repeat_length, length_map; reflexivity).
  cbn [combine]. rewrite !map_app. cbn [map].
  rewrite (clip_block 1 xs1 H1), (clip_block 1 xs2 H2).
  f_equal. f_equal.
  unfold clip, diff, F.ltb, F.zero. cbn [fst snd].
  rewrite Rltb_true by lra. reflexivity.
Qed.

End LineResidual.

Section NotchPercentile.

Open Scope R_scope.

Lemma percentile_fin (cl : list R) (q : R) :
  0 <= q <= 100 ->
  cl <> [] ->
  Np.percentile (map Fin cl) (Fin q)
  = Ok (Np.lerp
          (nth (Z.to_nat (Int_part (q / 100 * (IZR (Z.of_nat (length cl)) - 1))))
               (Np.sort (map Fin cl)) NaN)
          (nth (Nat.min
                  (S (Z.to_nat
                        (Int_part (q / 100 * (IZR (Z.of_nat (length cl)) - 1)))))
                  (length cl - 1))
               (Np.sort (map Fin cl)) NaN)
          (q / 100 * (IZR (Z.of_nat (length cl)) - 1)
           - IZR (Int_part (q / 100 * (IZR (Z.of_nat (length cl)) - 1))))).
Proof.
  intros Hq Hcl. unfold Np.percentile.
  rewrite !Rleb_true by lra. cbn [andb negb].
  rewrite existsb_isnan_fin.
  destruct cl as [|r cl]; [contradiction|].
  rewrite <- (length_map Fin (r :: cl)). reflexivity.
Qed.

Variables (a b : R) (l1 l2 : list R).

Hypothesis Hlen : length ((a :: b :: l1) ++ 0 :: l2) = 42%nat.
Hypothesis Ha : 0 < a.
Hypothesis Hasc : ascending ((a :: b :: l1) ++ l2).

Lemma notch_sorted :
  Np.sort (map Fin ((a :: b :: l1) ++ 0 :: l2))
  = map Fin (0 :: (a :: b :: l1) ++ l2).
Proof.
  apply sort_notch; [exact Hasc|].
  pose proof Hasc as Hs. cbn [app ascending] in Hs. destruct Hs as [H1 _].
  constructor; [exact Ha|].
  revert H1. apply Forall_impl. intros v Hv. lra.
Qed.

Lemma notch_ab : a < b.
Proof.
  pose proof Hasc as Hs. cbn [app ascending] in Hs. destruct Hs as [H1 _].
  inversion H1; assumption.
Qed.

Lemma percentile_code_notch :
  exists t,
    Np.percentile (map Fin ((a :: b :: l1) ++ 0 :: l2)) (ratio 25 1000)
    = Ok (Fin t) /\ 0 <= t < a.
Proof.
  unfold ratio. rewrite percentile_fin; [|lra|discriminate].
  rewrite Hlen, notch_sorted. change (Z.of_nat 42) with 42%Z.
  replace (Int_part (25 / 1000 / 100 * (42 - 1))) with 0%Z
    by (symmetry; apply Int_part_eq; lra).
  cbn [Z.to_nat Nat.min Nat.sub nth map app].
  unfold Np.lerp. rewrite Rleb_false by lra.
  cbn [F.sub F.add F.neg F.mul].
  eexists. split; [reflexivity|]. nra.
Qed.

Lemma percentile_claimed_notch :
  exists t,
    Np.percentile (map Fin ((a :: b :: l1) ++ 0 :: l2)) (ratio 25 10)
    = Ok (Fin t) /\ a <= t < b.
Proof.
  pose proof notch_ab as Hab.
  unfold ratio. rewrite percentile_fin; [|lra|discriminate].
  rewrite Hlen, notch_sorted. change (Z.of_nat 42) with 42%Z.
  replace (Int_part (25 / 10 / 100 * (42 - 1))) with 1%Z
    by (symmetry; apply Int_part_eq; lra).
  change (Z.to_nat 1) with 1%nat.
  cbn [Nat.min Nat.sub nth map app].
  unfold Np.lerp. rewrite Rleb_false by lra.
  cbn [F.sub F.add F.neg F.mul].
  eexists. split; [reflexivity|]. nra.
Qed.

Lemma notch_mask_code (t : R) :
  0 <= t < a ->
  map (fun v => F.leb v (Fin t)) (map Fin ((a :: b :: l1) ++ 0 :: l2))
  = repeat false (length (a :: b :: l1)) ++ true :: repeat false (length l2).
Proof.
  intros Ht. pose proof notch_ab as Hab.
  assert (Hall : Forall (fun v => t < v) ((a :: b :: l1) ++ l2)).
  { pose proof Hasc as Hs. cbn [app ascending] in Hs. destruct Hs as [H1 _].
    constructor; [lra|]. revert H1. apply Forall_impl. intros v Hv. lra. }
  apply Forall_app in Hall as [Hl Hr].
  rewrite !map_app. rewrite (leb_mask_false t (a :: b :: l1) Hl).
  cbn [map]. rewrite (leb_mask_false t l2 Hr).
  cbn [F.leb]. rewrite Rleb_true by lra. reflexivity.
Qed.

Lemma notch_mask_claimed (t : R) :
  a <= t < b ->
  map (fun v => F.leb v (Fin t)) (map Fin ((a :: b :: l1) ++ 0 :: l2))
  = true :: repeat false (length (b :: l1)) ++ true :: repeat false (length l2).
Proof.
  intros Ht.
  assert (Hall : Forall (fun v => t < v) ((b :: l1) ++ l2)).
  { pose proof Hasc as Hs. cbn [app ascending] in Hs.
    destruct Hs as [_ [H2 _]].
    constructor; [lra|]. revert H2. apply Forall_impl. intros v Hv. lra. }
  apply Forall_app in Hall as [Hl Hr].
  change ((a :: b :: l1) ++ 0 :: l2) with (a :: ((b :: l1) ++ 0 :: l2)).
  rewrite (map_cons Fin), map_cons, !map_app.
  rewrite (leb_mask_false t (b :: l1) Hl).
  rewrite (map_cons Fin 0 l2), map_cons. rewrite (leb_mask_false t l2 Hr).
  cbn [F.leb]. rewrite !Rleb_true by lra. reflexivity.
Qed.

End NotchPercentile.

Lemma select_notch_code (u1 u2 : array) (uj : float) (k1 k2 : nat) :
  k1 = length u1 -> k2 = length u2 ->
  Np.select (repeat false k1 ++ true :: repeat false k2) (u1 ++ uj :: u2)
  = Ok [uj].
Proof.
  intros -> ->. unfold Np.select.
  rewrite !length_app. cbn [length]. rewrite !repeat_length, Nat.eqb_refl.
  rewrite select_mask_app by apply repeat_length.
  cbn [Np.select_mask]. rewrite !select_repeat_false. reflexivity.
Qed.

Lemma select_notch_claimed (u1 u2 : array) (u0 uj : float) (k1 k2 : nat) :
  k1 = length u1 -> k2 = length u2 ->
  Np.select (true :: repeat false k1 ++ true :: repeat false k2)
    (u0 :: u1 ++ uj :: u2)
  = Ok [u0; uj].
Proof.
  intros -> ->. unfold Np.select.
  cbn [length]. rewrite !length_app. cbn [length].
  rewrite !repeat_length, Nat.eqb_refl.
  cbn [Np.select_mask].
  rewrite select_mask_app by apply repeat_length.
  cbn [Np.select_mask]. rewrite !select_repeat_false. reflexivity.
Qed.

Section NotchSubsets.

Open Scope R_scope.

Variables (self : ParamSpectra) (off e : R).
Variables (x1 x2 xj : R) (rest xs2 : list R).

Let h (x : R) : R := off - e * (ln x / ln 10).
Let g (x : R) : R := 1 + - h x.
Let xs1 := x1 :: x2 :: rest.
Let xs := xs1 ++ xj :: xs2.
Let ys := repeat 1 (length xs1) ++ 0 :: repeat 1 (length xs2).

Hypothesis Hlen : length xs = 42%nat.
Hypothesis Hpos : Forall (fun r => 0 < r) xs.
Hypothesis Hasc : ascending (xs1 ++ xs2).
Hypothesis He : 0 < e.
Hypothesis H1 : h x1 < 1.
Hypothesis Hj : 0 < h xj.

Lemma line_residual_increasing (x x' : R) : 0 < x -> x < x' -> g x < g x'.
Proof.
  intros Hx Hlt. unfold g, h.
  assert (Hln : ln x < ln x') by (apply ln_increasing; assumption).
  pose proof ln_10_pos as H10.
  assert (ln x / ln 10 < ln x' / ln 10).
  { unfold Rdiv. apply Rmult_lt_compat_r; [apply Rinv_0_lt_compat|]; lra. }
  nra.
Qed.

Lemma ascending_residuals (l : list R) :
  Forall (fun r => 0 < r) l -> ascending l -> ascending (map g l).
Proof.
  induction l as [|v l IH]; intros Hp Hs; [exact I|].
  inversion Hp as [|? ? Hv Hp']; subst. destruct Hs as [Hs1 Hs2].
  cbn [map ascending]. split; [|apply IH; assumption].
  apply Forall_map. revert Hs1. apply Forall_impl. intros w Hw.
  apply line_residual_increasing; assumption.
Qed.

Lemma notch_pos_rest : Forall (fun r => 0 < r) (xs1 ++ xs2).
Proof.
  unfold xs in Hpos. apply Forall_app in Hpos as [Hp1 Hp2].
  apply Forall_app. split; [exact Hp1|]. inversion Hp2; assumption.
Qed.

Lemma notch_residuals_ascending :
  ascending ((g x1 :: g x2 :: map g rest) ++ map g xs2).
Proof.
  change (ascending (map g xs1 ++ map g xs2)). rewrite <- map_app.
  apply ascending_residuals; [apply notch_pos_rest | exact Hasc].
Qed.

Lemma notch_residuals_nonneg : Forall (fun x => 0 <= 1 + - h x) (xs1 ++ xs2).
Proof.
  pose proof notch_residuals_ascending as Hs.
  cbn [app ascending] in Hs. destruct Hs as [Hs _].
  change (Forall (fun x => 0 <= g x) (x1 :: (x2 :: rest) ++ xs2)).
  constructor; [unfold g; lra|].
  change (g x2 :: map g rest ++ map g xs2)
    with (map g (x2 :: rest) ++ map g xs2) in Hs.
  rewrite <- map_app in Hs. rewrite Forall_map in Hs.
  revert Hs. apply Forall_impl. intros v Hv. unfold g in *. lra.
Qed.

Lemma notch_clipped :
  clipped_residual (Some (map Fin xs)) (map Fin ys) [Fin off; Fin e]
  = Ok (map Fin ((g x1 :: g x2 :: map g rest) ++ 0 :: map g xs2)).
Proof.
  unfold xs, ys.
  rewrite (clipped_residual_notch off e xs1 xs2 xj Hpos
             notch_residuals_nonneg Hj).
  reflexivity.
Qed.

Lemma notch_clipped_length :
  length ((g x1 :: g x2 :: map g rest) ++ 0 :: map g xs2) = 42%nat.
Proof.
  rewrite <- Hlen. unfold xs, xs1. rewrite !length_app. cbn [length].
  rewrite !length_map. reflexivity.
Qed.

Lemma notch_g1_pos : 0 < g x1.
Proof. unfold g. lra. Qed.

Lemma notch_code_subset :
  _ap_percentile_thresh (settings self) = ratio 25 1000 ->
  robust_subset self (Some (map Fin xs)) (map Fin ys) [Fin off; Fin e]
  = Ok ([Fin xj], [Fin 0]).
Proof.
  intros Hq. unfold robust_subset. rewrite notch_clipped, Hq. cbn [rbind].
  destruct (percentile_code_notch _ _ _ _ notch_clipped_length notch_g1_pos
              notch_residuals_ascending) as (t & -> & Ht).
  cbn [rbind the_array].
  rewrite (notch_mask_code _ _ _ _ notch_residuals_ascending t Ht).
  unfold xs, ys. rewrite !map_app, !(map_cons Fin).
  rewrite select_notch_code;
    [|cbn [length]; rewrite !length_map; reflexivity
     |rewrite !length_map; reflexivity].
  cbn [rbind].
  rewrite select_notch_code;
    [|cbn [length]; rewrite !length_map, repeat_length; reflexivity
     |rewrite !length_map, repeat_length; reflexivity].
  reflexivity.
Qed.

Lemma notch_claimed_subset :
  claimed_robust_subset (Some (map Fin xs)) (map Fin ys) [Fin off; Fin e]
  = Ok ([Fin x1; Fin xj], [Fin 1; Fin 0]).
Proof.
  unfold claimed_robust_subset. rewrite notch_clipped. cbn [rbind].
  destruct (percentile_claimed_notch _ _ _ _ notch_clipped_length notch_g1_pos
              notch_residuals_ascending) as (t & -> & Ht).
  cbn [rbind the_array].
  rewrite (notch_mask_claimed _ _ _ _ notch_g1_pos notch_residuals_ascending
             t Ht).
  unfold xs, ys, xs1.
  change ((x1 :: x2 :: rest) ++ xj :: xs2)
    with (x1 :: ((x2 :: rest) ++ xj :: xs2)).
  change (repeat 1 (length (x1 :: x2 :: rest)) ++ 0 :: repeat 1 (length xs2))
    with (1 :: (repeat 1 (length (x2 :: rest)) ++ 0 :: repeat 1 (length xs2))).
  rewrite !(map_cons Fin), !map_app, !(map_cons Fin).
  rewrite select_notch_claimed;
    [|cbn [length]; rewrite !length_map; reflexivity
     |rewrite !length_map; reflexivity].
  cbn [rbind].
  rewrite select_notch_claimed;
    [|cbn [length]; rewrite !length_map, repeat_length; reflexivity
     |rewrite !length_map, repeat_length; reflexivity].
  reflexivity.
Qed.

End NotchSubsets.

(** ** The spectrum with a notch *)

Section NotchNumbers.

Open Scope R_scope.

Lemma Rsum_log10 (l : list R) :
  Forall (fun r => 0 < r) l ->
  Rsum (map log10R l) = log10R (fold_right Rmult 1 l) /\
  0 < fold_right Rmult 1 l.
Proof.
  induction 1 as [|x l Hx _ [IH Hp]].
  - cbn [map fold_right]. unfold Rsum, log10R. cbn [fold_left].
    rewrite ln_1. split; [unfold Rdiv; ring | lra].
  - cbn [map fold_right]. rewrite Rsum_cons, IH. split.
    + unfold log10R. rewrite ln_mult by assumption. unfold Rdiv. ring.
    + apply Rmult_lt_0_compat; assumption.
Qed.

Lemma prod_IZR (zs : list Z) :
  fold_right Rmult 1 (map IZR zs) = IZR (fold_right Z.mul 1%Z zs).
Proof.
  induction zs as [|z zs IH]; [reflexivity|].
  cbn [map fold_right]. rewrite IH, mult_IZR. reflexivity.
Qed.

Lemma ln_lt_pow (a b : Z) (j k : nat) :
  (0 < a)%Z -> (0 < b)%Z ->
  (a ^ Z.of_nat j < b ^ Z.of_nat k)%Z ->
  INR j * ln (IZR a) < INR k * ln (IZR b).
Proof.
  intros Ha Hb H.
  assert (Ha' : 0 < IZR a) by (apply IZR_lt; exact Ha).
  assert (Hb' : 0 < IZR b) by (apply IZR_lt; exact Hb).
  rewrite <- !ln_pow by assumption. rewrite !pow_IZR.
  apply ln_increasing.
  - apply IZR_lt. apply Z.pow_pos_nonneg; lia.
  - apply IZR_lt. exact H.
Qed.

End NotchNumbers.

Section NotchSpectrum.

Open Scope R_scope.

Lemma notch_freqs_eq :
  notch_freqs = map Fin (notch_hz 1 16 ++ 17 :: notch_hz 18 25).
Proof.
  cbv [notch_freqs notch_hz seq map app F.of_Z Z.of_nat Pos.of_succ_nat
       Pos.succ].
  reflexivity.
Qed.

Lemma notch_power_eq :
  notch_power
  = map Fin (repeat 1 (length (notch_hz 1 16)) ++ 0
               :: repeat 1 (length (notch_hz 18 25))).
Proof.
  cbv [notch_power notch_hz seq map app length repeat]. reflexivity.
Qed.

Lemma notch_hz_pos (a n : nat) :
  (1 <= a)%nat -> Forall (fun r => 0 < r) (notch_hz a n).
Proof.
  intros Ha. unfold notch_hz. apply Forall_map, Forall_forall.
  intros i Hi. apply in_seq in Hi. apply IZR_lt. lia.
Qed.

Lemma notch_positive :
  Forall (fun r => 0 < r) (notch_hz 1 16 ++ 17 :: notch_hz 18 25).
Proof.
  apply Forall_app. split; [apply notch_hz_pos; lia|].
  constructor; [lra | apply notch_hz_pos; lia].
Qed.

Lemma ascending_of_sorted (l : list nat) :
  StronglySorted lt l -> ascending (map (fun i => IZR (Z.of_nat i)) l).
Proof.
  induction 1 as [|i l _ IH Hi]; [exact I|].
  cbn [map ascending]. split; [|exact IH].
  apply Forall_map. revert Hi. apply Forall_impl. intros k Hk.
  apply IZR_lt. lia.
Qed.

Lemma notch_ascending : ascending (notch_hz 1 16 ++ notch_hz 18 25).
Proof.
  unfold notch_hz. rewrite <- map_app. apply ascending_of_sorted.
  apply Sorted_StronglySorted; [intros x y z; apply Nat.lt_trans|].
  cbv [seq app]. repeat constructor.
Qed.

Lemma notch_mean_value :
  Rmean (map log10R (notch_hz 1 16 ++ 17 :: notch_hz 18 25))
  = ln (IZR notch_product) / ln 10 / 42.
Proof.
  unfold Rmean.
  destruct (Rsum_log10 _ notch_positive) as [-> _].
  rewrite length_map.
  change (length (notch_hz 1 16 ++ 17 :: notch_hz 18 25)) with 42%nat.
  change (Z.of_nat 42) with 42%Z.
  change (notch_hz 1 16 ++ 17 :: notch_hz 18 25)
    with (map IZR (map Z.of_nat (seq 1 42))).
  rewrite prod_IZR. reflexivity.
Qed.

Lemma notch_ln_bounds :
  0 < ln (IZR notch_product) /\
  ln (IZR notch_product) < 42 * ln 17 /\
  1764 * ln 17 < 43 * ln (IZR notch_product).
Proof.
  assert (Hp : (0 < notch_product)%Z) by (vm_compute; reflexivity).
  pose proof (ln_lt_pow 17 notch_product 0 1) as H0.
  pose proof (ln_lt_pow notch_product 17 1 42) as H1.
  pose proof (ln_lt_pow 17 notch_product 1764 43) as H2.
  rewrite !INR_IZR_INZ in H0, H1, H2.
  change (Z.of_nat 0) with 0%Z in H0.
  change (Z.of_nat 1) with 1%Z in H0, H1.
  change (Z.of_nat 42) with 42%Z in H1.
  specialize (H0 ltac:(lia) Hp ltac:(vm_compute; reflexivity)).
  specialize (H1 Hp ltac:(lia) ltac:(vm_compute; reflexivity)).
  specialize (H2 ltac:(lia) Hp ltac:(vm_compute; reflexivity)).
  change (IZR (Z.of_nat 1764)) with 1764 in H2.
  change (IZR (Z.of_nat 43)) with 43 in H2.
  lra.
Qed.

End NotchSpectrum.

Section NotchFit.

Open Scope R_scope.

Lemma notch_simple_fit :
  _simple_ap_fit least_squares_solver notch_attached (Some notch_freqs)
    notch_power
  = least_squares_nk notch_freqs notch_power.
Proof.
  unfold _simple_ap_fit, ap_guess.
  cbv - [least_squares_nk F.log10 F.div F.sub F.abs Rplus Rminus Rmult Rdiv
         Ropp Rinv Rlt Rle Rabs ln exp sqrt Rpower PI IZR Int_part F.Rltb
         F.Rleb F.Reqb notch_freqs notch_power].
  reflexivity.
Qed.

Lemma notch_least_squares :
  exists off e,
    least_squares_nk notch_freqs notch_power = Ok [Fin off; Fin e] /\
    0 < e /\
    off - e * (ln 1 / ln 10) < 1 /\
    0 < off - e * (ln 17 / ln 10).
Proof.
  rewrite notch_freqs_eq, notch_power_eq.
  destruct notch_ln_bounds as (H0 & H1 & H2).
  pose proof ln_10_pos as H10.
  assert (Hc : 0 < / ln 10) by (apply Rinv_0_lt_compat; exact H10).
  apply (notch_first_fit (notch_hz 1 16) (notch_hz 18 25) 17 1
           (notch_hz 2 15) eq_refl notch_positive);
    rewrite notch_mean_value; unfold log10R; rewrite ?ln_1.
  - unfold Rdiv. rewrite Rmult_0_l.
    apply Rmult_lt_0_compat; [apply Rmult_lt_0_compat|]; lra.
  - pose proof (Rmult_lt_compat_r (/ ln 10) _ _ Hc H1). unfold Rdiv. lra.
  - change (length (notch_hz 1 16 ++ 17 :: notch_hz 18 25)) with 42%nat.
    rewrite INR_IZR_INZ. change (Z.of_nat 42) with 42%Z.
    pose proof (Rmult_lt_compat_r (/ ln 10) _ _ Hc H2). unfold Rdiv. lra.
Qed.

End NotchFit.

(** ** Attaching the spectrum with a notch *)

Section AttachAscending.

Open Scope R_scope.

Lemma fold_fmin_ascending (a : R) (l : list R) :
  Forall (fun b => a < b) l ->
  fold_left Np.fmin (map Fin l) (Fin a) = Fin a.
Proof.
  induction 1 as [|b l Hb _ IH]; [reflexivity|].
  cbn [map fold_left Np.fmin F.leb]. rewrite Rleb_true by lra. exact IH.
Qed.

Lemma last_default {A} (l : list A) (x d d' : A) :
  last (x :: l) d = last (x :: l) d'.
Proof.
  revert x. induction l as [|y l IH]; intros x; [reflexivity|].
  change (last (y :: l) d = last (y :: l) d'). apply IH.
Qed.

Lemma fold_fmax_ascending (l : list R) :
  forall a, ascending (a :: l) ->
            fold_left Np.fmax (map Fin l) (Fin a) = Fin (last l a).
Proof.
  induction l as [|b l IH]; intros a Hs; [reflexivity|].
  destruct Hs as [Ha Hs]. inversion Ha as [|? ? Hab _]; subst.
  cbn [map fold_left Np.fmax F.leb]. rewrite Rleb_false by lra.
  rewrite (IH b Hs). destruct l as [|r l]; [reflexivity|].
  change (last (b :: r :: l) a) with (last (r :: l) a).
  f_equal. apply last_default.
Qed.

Lemma diff_consecutive (n a : nat) :
  forallb (fun d => Np.isclose_default d (Fin (2 + - (1))))
    (Np.diff (map Fin (notch_hz a n))) = true.
Proof.
  revert a. induction n as [|n IH]; intros a; [reflexivity|].
  destruct n as [|n]; [reflexivity|].
  specialize (IH (S a)). unfold notch_hz in *.
  cbn [seq map Np.diff forallb] in *. rewrite IH, andb_true_r.
  unfold Np.isclose_default, Np.isclose, F.sub, F.neg, F.add.
  rewrite Nat2Z.inj_succ, succ_IZR. apply Rleb_true.
  replace (IZR (Z.of_nat a) + 1 + - IZR (Z.of_nat a) - (2 + - (1))) with 0
    by ring.
  rewrite Rabs_R0.
  replace (2 + - (1)) with 1 by ring. rewrite Rabs_R1. lra.
Qed.

Lemma log10_raw_power : map F.log10 notch_raw_power = notch_power.
Proof.
  unfold notch_raw_power, notch_power.
  rewrite map_app, map_cons, !map_repeat.
  assert (H10 : F.log10 (Fin 10) = Fin 1).
  { unfold F.log10. rewrite Rltb_true by lra. rewrite log10_of_10.
    reflexivity. }
  assert (H1 : F.log10 (Fin 1) = Fin 0).
  { unfold F.log10. rewrite Rltb_true by lra. rewrite ln_1.
    f_equal. unfold Rdiv. ring. }
  rewrite H10, H1. reflexivity.
Qed.

End AttachAscending.

Open Scope meth_scope.

(** [_prepare_data] on a spectrum that passes every check, on an object
    without a line-noise frequency and without a requested range. *)
Lemma prepare_data_plain (E : Externals) (f p : array) (s : ParamSpectra)
    (f0 f1 fmin fmax : float) :
  length f = length p ->
  linenoise (settings s) = None ->
  _check_freqs (settings s) = true ->
  _check_data (settings s) = true ->
  Np.index f 0 = Ok f0 ->
  F.eqb f0 F.zero = false ->
  Np.index f 1 = Ok f1 ->
  Np.min f = Ok fmin ->
  Np.max f = Ok fmax ->
  forallb (fun d => Np.isclose_default d (F.sub f1 f0)) (Np.diff f) = true ->
  existsb F.isinf (map F.log10 p) || existsb F.isnan (map F.log10 p) = false ->
  _prepare_data E f p None s
  = (Ok (f, map F.log10 p, (fmin, fmax), F.sub f1 f0),
     with_max_harmonic 0 s).
Proof.
  intros Hl Hn Hcf Hcd H0 Hz H1 Hmin Hmax Hd Hfin. unfold _prepare_data.
  rewrite Hl, Nat.eqb_refl. cbn [negb]. rewrite step_ret.
  rewrite (step_lift _ _ _ (f, p)) by reflexivity.
  rewrite (step_lift _ _ _ (f, p))
    by (rewrite H0; cbn [rbind]; rewrite Hz; reflexivity).
  rewrite (step_lift _ _ _ ((fmin, fmax), F.sub f1 f0))
    by (rewrite Hmin, Hmax, H1, H0; reflexivity).
  rewrite step_gets, Hn.
  rewrite (step_lift _ _ _ 0%Z) by reflexivity.
  rewrite step_modify. cbn [Z.ltb Z.compare]. rewrite step_ret.
  rewrite step_gets.
  change (_check_freqs (settings (with_max_harmonic 0 s)))
    with (_check_freqs (settings s)).
  rewrite Hcf, Hd. cbn [negb]. rewrite step_ret, step_gets.
  change (_check_data (settings (with_max_harmonic 0 s)))
    with (_check_data (settings s)).
  rewrite Hcd, Hfin. rewrite step_ret. reflexivity.
Qed.

Close Scope meth_scope.

Lemma notch_freqs_hz : notch_freqs = map Fin (notch_hz 1 42).
Proof. unfold notch_freqs, notch_hz. rewrite map_map. reflexivity. Qed.

Lemma notch_hz_ascending : ascending (notch_hz 1 42).
Proof.
  unfold notch_hz. apply ascending_of_sorted.
  apply Sorted_StronglySorted; [intros x y z; apply Nat.lt_trans|].
  cbv [seq]. repeat constructor.
Qed.

(** The object the robust fit is run on: [add_data] on the 42 frequencies
    and powers stores the log-power, the range 1 to 42 Hz and the
    resolution 1 Hz. *)
Lemma notch_add_data (E : Externals) :
  add_data E notch_freqs notch_raw_power None true example_object
  = (Ok tt, notch_attached).
Proof.
  unfold add_data. rewrite step_gets.
  change (has_data example_object) with false.
  change (has_model example_object && true) with false.
  unfold bind at 1.
  change (_reset_data_results false false false example_object)
    with (Ok tt, example_object).
  cbv iota beta. unfold bind at 1.
  rewrite (prepare_data_plain E notch_freqs notch_raw_power example_object
             (Fin 1) (Fin 2) (Fin 1) (Fin 42)).
  - cbv iota beta. unfold modify, notch_attached. rewrite log10_raw_power.
    replace (F.sub (Fin 2) (Fin 1)) with (Fin 1); [reflexivity|].
    unfold F.sub, F.neg, F.add. f_equal. ring.
  - reflexivity.
  - reflexivity.
  - reflexivity.
  - reflexivity.
  - reflexivity.
  - cbn [F.eqb F.zero]. apply Reqb_false. lra.
  - reflexivity.
  - rewrite notch_freqs_hz. pose proof notch_hz_ascending as Hs.
    change (notch_hz 1 42) with (1%R :: notch_hz 2 41) in *.
    destruct Hs as [H1 _]. cbn [map Np.min].
    rewrite (fold_fmin_ascending 1 _ H1). reflexivity.
  - rewrite notch_freqs_hz. pose proof notch_hz_ascending as Hs.
    change (notch_hz 1 42) with (1%R :: notch_hz 2 41) in *.
    cbn [map Np.max]. rewrite (fold_fmax_ascending _ 1%R Hs). reflexivity.
  - rewrite notch_freqs_hz. apply diff_consecutive.
  - rewrite log10_raw_power. reflexivity.
Qed.

(** ** The points of the robust re-fit on the spectrum with a notch *)

(** The spectrum with a notch is attached to the object of the examples.
    The first fit of the code is the least-squares line through the
    log-power.  Only the point at 17 Hz lies below that line, so the
    clipped residual is 0 there and positive everywhere else, smallest at
    1 Hz.  The code keeps the points up to the 0.025th percentile, which
    is the single point at 17 Hz; the 2.5th percentile keeps the point at
    1 Hz as well. *)
Lemma robust_subset_is_not_the_2_5th_percentile :
  init (BandsList [(Fin 1, Fin 4)]) 6 false 1 (ratio 3 10) (Fin 250)
    (ratio 1 2) None "fixed" false 0 = Ok example_object /\
  add_data least_squares_solver notch_freqs notch_raw_power None true
    example_object = (Ok tt, notch_attached) /\
  exists popt,
    _simple_ap_fit least_squares_solver notch_attached (Some notch_freqs)
      notch_power = Ok popt /\
    robust_subset notch_attached (Some notch_freqs) notch_power popt
    = Ok ([Fin 17], [Fin 0]) /\
    claimed_robust_subset (Some notch_freqs) notch_power popt
    = Ok ([Fin 1; Fin 17], [Fin 1; Fin 0]) /\
    robust_subset notch_attached (Some notch_freqs) notch_power popt
    <> claimed_robust_subset (Some notch_freqs) notch_power popt.
Proof.
  split; [exact example_object_init|].
  split; [apply notch_add_data|].
  destruct notch_least_squares as (off & e & Hfit & He & H1 & Hj).
  exists [Fin off; Fin e].
  assert (Hcode :
            robust_subset notch_attached (Some notch_freqs) notch_power
              [Fin off; Fin e] = Ok ([Fin 17], [Fin 0])).
  { rewrite notch_freqs_eq, notch_power_eq.
    exact (notch_code_subset notch_attached off e 1 2 17 (notch_hz 3 14)
             (notch_hz 18 25) eq_refl notch_positive notch_ascending
             He H1 Hj eq_refl). }
  assert (Hclaim :
            claimed_robust_subset (Some notch_freqs) notch_power
              [Fin off; Fin e] = Ok ([Fin 1; Fin 17], [Fin 1; Fin 0])).
  { rewrite notch_freqs_eq, notch_power_eq.
    exact (notch_claimed_subset off e 1 2 17 (notch_hz 3 14)
             (notch_hz 18 25) eq_refl notch_positive notch_ascending
             He H1 Hj). }
  split; [rewrite notch_simple_fit; exact Hfit|].
  split; [exact Hcode|]. split; [exact Hclaim|].
  rewrite Hcode, Hclaim. intros H. discriminate H.
Qed.

(** * Further properties of the code *)

(** ** Trimming a spectrum *)

Lemma select_mask_length_le (m : list bool) (a : array) :
  (length (Np.select_mask m a) <= length a)%nat.
Proof.
  revert a. induction m as [|b m IH]; intros [|x a]; simpl; try lia.
  specialize (IH a). destruct b; simpl; lia.
Qed.

Lemma select_mask_combine (P : float -> bool) (fs ps : array) :
  length fs = length ps ->
  combine (Np.select_mask (map P fs) fs) (Np.select_mask (map P fs) ps)
  = filter (fun fp => P (fst fp)) (combine fs ps).
Proof.
  revert ps. induction fs as [|f fs IH]; intros [|p ps] Hl; try discriminate.
  - reflexivity.
  - simpl in Hl. injection Hl as Hl. simpl.
    destruct (P f); simpl; rewrite IH by exact Hl; reflexivity.
Qed.

Lemma select_mask_same_length (m : list bool) (fs ps : array) :
  length fs = length ps ->
  length (Np.select_mask m fs) = length (Np.select_mask m ps).
Proof.
  revert fs ps. induction m as [|b m IH]; intros [|f fs] [|p ps] Hl;
    try discriminate; try reflexivity.
  simpl in Hl. injection Hl as Hl. simpl.
  destruct b; simpl; rewrite (IH fs ps Hl); reflexivity.
Qed.

Lemma filter_idem {A} (P : A -> bool) (l : list A) :
  filter P (filter P l) = filter P l.
Proof.
  induction l as [|x l IH]; [reflexivity|]. simpl.
  destruct (P x) eqn:Hx; simpl; rewrite ?Hx, IH; reflexivity.
Qed.

Lemma trim_spectrum_eq (freqs ps : array) (r : float * float) :
  length freqs = length ps ->
  trim_spectrum freqs ps r
  = Ok (Np.select_mask
          (map (fun f => F.geb f (fst r) && F.leb f (snd r)) freqs) freqs,
        Np.select_mask
          (map (fun f => F.geb f (fst r) && F.leb f (snd r)) freqs) ps).
Proof.
  intros Hl. unfold trim_spectrum, Np.select.
  rewrite length_map, Nat.eqb_refl. cbn [rbind].
  rewrite Hl, Nat.eqb_refl. reflexivity.
Qed.

(** X3: [trim_spectrum] on a frequency array and a spectrum of the same
    length keeps exactly the samples whose frequency lies in the closed
    range, each with its own power value and in their order; trimming the
    result again with the same range changes nothing; arrays of different
    lengths raise IndexError. *)
Theorem trim_spectrum_keeps_the_range
    (freqs ps : array) (lo hi : float) :
  (length freqs = length ps ->
   exists fe pe,
     trim_spectrum freqs ps (lo, hi) = Ok (fe, pe) /\
     length fe = length pe /\
     combine fe pe
     = filter (fun fp => F.geb (fst fp) lo && F.leb (fst fp) hi)
         (combine freqs ps) /\
     Forall (fun f => F.geb f lo = true /\ F.leb f hi = true) fe /\
     trim_spectrum fe pe (lo, hi) = Ok (fe, pe)) /\
  (length freqs <> length ps ->
   trim_spectrum freqs ps (lo, hi) = Raise IndexError).
Proof.
  split.
  - intros Hl. rewrite (trim_spectrum_eq _ _ _ Hl). cbn [fst snd].
    set (P := fun f => F.geb f lo && F.leb f hi).
    eexists. eexists. split; [reflexivity|].
    assert (Hlen : length (Np.select_mask (map P freqs) freqs)
                   = length (Np.select_mask (map P freqs) ps))
      by (apply select_mask_same_length; exact Hl).
    split; [exact Hlen|]. split; [|split].
    + apply (select_mask_combine P). exact Hl.
    + rewrite select_mask_filter. apply Forall_forall. intros f Hf.
      apply filter_In in Hf. destruct Hf as [_ Hf]. unfold P in Hf.
      apply andb_prop in Hf. exact Hf.
    + rewrite (trim_spectrum_eq _ _ _ Hlen). cbn [fst snd]. fold P.
      assert (Hc : combine
                (Np.select_mask (map P (Np.select_mask (map P freqs) freqs))
                   (Np.select_mask (map P freqs) freqs))
                (Np.select_mask (map P (Np.select_mask (map P freqs) freqs))
                   (Np.select_mask (map P freqs) ps))
              = combine (Np.select_mask (map P freqs) freqs)
                  (Np.select_mask (map P freqs) ps)).
      { rewrite (select_mask_combine P _ _ Hlen).
        rewrite (select_mask_combine P _ _ Hl).
        apply (filter_idem (fun fp : float * float => P (fst fp))). }
      assert (Hl2 : length
                (Np.select_mask (map P (Np.select_mask (map P freqs) freqs))
                   (Np.select_mask (map P freqs) freqs))
              = length
                  (Np.select_mask (map P (Np.select_mask (map P freqs) freqs))
                     (Np.select_mask (map P freqs) ps)))
        by (apply select_mask_same_length; exact Hlen).
      pose proof (f_equal (@split float float) Hc) as Hs.
      rewrite !combine_split in Hs by assumption.
      injection Hs as -> ->. reflexivity.
  - intros Hne. unfold trim_spectrum, Np.select.
    rewrite length_map, Nat.eqb_refl. cbn [rbind].
    destruct (Nat.eqb (length freqs) (length ps)) eqn:He;
      [apply Nat.eqb_eq in He; contradiction | reflexivity].
Qed.

Lemma trim_spectrum_keeps_the_range_witness :
  trim_spectrum [Fin 1; Fin 2; Fin 3; Fin 4] [Fin 10; Fin 20; Fin 30; Fin 40]
    (Fin 2, Fin 3)
  = Ok ([Fin 2; Fin 3], [Fin 20; Fin 30]) /\
  trim_spectrum [Fin 1; Fin 2] [Fin 10] (Fin 2, Fin 3) = Raise IndexError.
Proof.
  destruct (trim_spectrum_keeps_the_range
              [Fin 1; Fin 2; Fin 3; Fin 4] [Fin 10; Fin 20; Fin 30; Fin 40]
              (Fin 2) (Fin 3)) as [H _].
  destruct (H eq_refl) as (fe & pe & Ht & _).
  destruct (trim_spectrum_keeps_the_range [Fin 1; Fin 2] [Fin 10]
              (Fin 2) (Fin 3)) as [_ H2].
  split.
  - rewrite Ht. revert Ht. fl_eval. intros Ht. exact (eq_sym Ht).
  - apply H2. simpl. discriminate.
Defined.

(** ** The aperiodic functions *)


(** X4: without a knee the aperiodic component is a straight line in
    log-log space: at every positive frequency x, [expo_nk_function] is
    offset - exp * log10(x) (arithmetic over the reals). *)
Theorem expo_nk_function_is_a_line (xs : list R) (offset exp : R) :
  Forall (fun r => (0 < r)%R) xs ->
  expo_nk_function (map Fin xs) [Fin offset; Fin exp]
  = Ok (map (fun r => Fin (offset - exp * (ln r / ln 10))) xs).
Proof.
  intros Hpos. unfold expo_nk_function. f_equal. rewrite map_map.
  apply map_ext_in. intros r Hr. rewrite Forall_forall in Hpos.
  destruct (pow_positive r exp (Hpos r Hr)) as (p & -> & Hp & Hln).
  unfold F.log10. rewrite Rltb_true by exact Hp.
  unfold F.sub, F.neg, F.add. f_equal. rewrite Hln. unfold Rdiv. ring.
Qed.

Lemma expo_nk_function_is_a_line_witness :
  expo_nk_function (map Fin [1; 10]%R) [Fin 2; Fin 1]
  = Ok (map (fun r => Fin (2 - 1 * (ln r / ln 10))) [1; 10]%R).
Proof.
  apply (expo_nk_function_is_a_line [1; 10]%R 2 1).
  repeat constructor; lra.
Defined.

Lemma fold_fmin_exists (l : array) :
  forall a, exists m, fold_left Np.fmin l a = m.
Proof. intros a. eexists. reflexivity. Qed.



Lemma positive_leb (v : float) : positive_finite v -> F.leb v F.zero = false.
Proof.
  intros (r & -> & Hr). unfold F.leb, F.zero. apply Rleb_false. exact Hr.
Qed.



(** X6: [gen_aperiodic] without an explicit mode chooses the function by
    the number of parameters: two parameters are the model without a knee,
    three the model with one, any other number raises
    InconsistentDataError.  An explicit mode that does not go with the
    number of parameters, or that is neither 'fixed' nor 'knee', raises
    ValueError. *)
Theorem gen_aperiodic_infers_the_mode (xs : array) (params : list float) :
  (length params = 2%nat ->
   gen_aperiodic (Some xs) params None = expo_nk_function xs params) /\
  (length params = 3%nat ->
   gen_aperiodic (Some xs) params None = expo_function xs params) /\
  (length params <> 2%nat -> length params <> 3%nat ->
   forall fr, gen_aperiodic fr params None = Raise InconsistentDataError) /\
  (length params <> 2%nat ->
   forall fr, gen_aperiodic fr params (Some "fixed") = Raise ValueError) /\
  (length params <> 3%nat ->
   forall fr, gen_aperiodic fr params (Some "knee") = Raise ValueError) /\
  (forall m fr, m <> "" -> m <> "fixed" -> m <> "knee" ->
                gen_aperiodic fr params (Some m) = Raise ValueError).
Proof.
  unfold gen_aperiodic, infer_ap_func.
  split; [|split; [|split; [|split; [|split]]]].
  - intros ->. reflexivity.
  - intros ->. reflexivity.
  - intros H2 H3 fr.
    apply Nat.eqb_neq in H2. apply Nat.eqb_neq in H3. rewrite H2, H3.
    reflexivity.
  - intros H2 fr. cbn [String.eqb Ascii.eqb Bool.eqb rbind get_ap_func].
    change (get_ap_func "fixed") with (Ok expo_nk_function). cbn [rbind].
    apply Nat.eqb_neq in H2.
    destruct fr as [fr|].
    + unfold expo_nk_function.
      destruct params as [|a [|b [|c params]]]; try reflexivity.
      discriminate.
    + change (String.eqb "fixed" "fixed") with true. cbv iota.
      rewrite H2. reflexivity.
  - intros H3 fr. cbn [String.eqb Ascii.eqb Bool.eqb rbind get_ap_func].
    change (get_ap_func "knee") with (Ok expo_function). cbn [rbind].
    apply Nat.eqb_neq in H3.
    destruct fr as [fr|].
    + unfold expo_function.
      destruct params as [|a [|b [|c [|d params]]]]; try reflexivity.
      discriminate.
    + change (String.eqb "knee" "fixed") with false. cbv iota.
      rewrite H3. reflexivity.
  - intros m fr H0 H1 H2.
    apply String.eqb_neq in H0. apply String.eqb_neq in H1.
    apply String.eqb_neq in H2.
    rewrite H0. cbn [rbind]. unfold get_ap_func. rewrite H1, H2. reflexivity.
Qed.

Lemma gen_aperiodic_infers_the_mode_witness :
  gen_aperiodic (Some [Fin 1; Fin 2]) [Fin 1; Fin 2] None
  = expo_nk_function [Fin 1; Fin 2] [Fin 1; Fin 2] /\
  gen_aperiodic (Some [Fin 1; Fin 2]) [Fin 1; Fin 2; Fin 3] None
  = expo_function [Fin 1; Fin 2] [Fin 1; Fin 2; Fin 3] /\
  gen_aperiodic (Some [Fin 1; Fin 2]) [Fin 1] None
  = Raise InconsistentDataError /\
  gen_aperiodic (Some [Fin 1; Fin 2]) [Fin 1; Fin 2; Fin 3] (Some "fixed")
  = Raise ValueError /\
  gen_aperiodic (Some [Fin 1; Fin 2]) [Fin 1; Fin 2] (Some "knee")
  = Raise ValueError /\
  gen_aperiodic (Some [Fin 1; Fin 2]) [Fin 1; Fin 2] (Some "linear")
  = Raise ValueError.
Proof.
  destruct (gen_aperiodic_infers_the_mode [Fin 1; Fin 2] [Fin 1; Fin 2])
    as (H2 & _ & _ & _ & Hk & Hm).
  destruct (gen_aperiodic_infers_the_mode [Fin 1; Fin 2] [Fin 1; Fin 2; Fin 3])
    as (_ & H3 & _ & Hf & _ & _).
  destruct (gen_aperiodic_infers_the_mode [Fin 1; Fin 2] [Fin 1])
    as (_ & _ & Hi & _ & _ & _).
  split; [apply H2; reflexivity|].
  split; [apply H3; reflexivity|].
  split; [apply Hi; simpl; discriminate|].
  split; [apply Hf; simpl; discriminate|].
  split; [apply Hk; simpl; discriminate|].
  apply Hm; discriminate.
Defined.

(** ** Gaussians *)

Section Gaussians.

Open Scope R_scope.

Lemma sqrt_2PI_pos : 0 < sqrt (2 * PI).
Proof. apply sqrt_lt_R0. pose proof PI_RGT_0. lra. Qed.

Lemma norm_pdf_fin (x loc sigma : R) :
  0 < sigma ->
  norm_pdf (Fin x) (Fin loc) (Fin sigma)
  = Fin (exp (- (((x + - loc) / sigma) * ((x + - loc) / sigma)) / 2)
         / sqrt (2 * PI) / sigma).
Proof.
  intros Hs. pose proof sqrt_2PI_pos as Hp. pose proof PI_RGT_0 as Hpi.
  unfold norm_pdf, F.gtb, F.ltb, F.zero. rewrite Rltb_true by exact Hs.
  cbn [F.sub F.neg F.add F.div]. rewrite (Reqb_false sigma 0) by lra.
  cbn [F.mul F.neg F.div]. rewrite (Reqb_false 2 0) by lra.
  cbn [F.exp F.sqrt]. rewrite Rleb_true by lra.
  cbn [F.div]. rewrite (Reqb_false (sqrt (2 * PI)) 0) by lra.
  cbn [F.div]. rewrite (Reqb_false sigma 0) by lra. reflexivity.
Qed.

Lemma exp_minus_ln2 : exp (- ln 2) = 1 / 2.
Proof. rewrite exp_Ropp, exp_ln by lra. lra. Qed.

(** X7: the standard deviation that [compute_gauss_std] derives from a
    full width at half maximum w is the one for which the gaussian of
    [gen_gaussian] falls to half its peak value at distance w/2 on either
    side of its mean (arithmetic over the reals). *)
Theorem gauss_std_gives_half_maximum (amplitude mean w : R) :
  0 < w ->
  exists peak : R,
    0 < peak /\
    gen_gaussian [Fin mean] (Fin amplitude) (Fin mean)
      (compute_gauss_std (Fin w))
    = [Fin (amplitude * peak)] /\
    gen_gaussian [Fin (mean + w / 2)] (Fin amplitude) (Fin mean)
      (compute_gauss_std (Fin w))
    = [Fin (amplitude * (peak / 2))] /\
    gen_gaussian [Fin (mean - w / 2)] (Fin amplitude) (Fin mean)
      (compute_gauss_std (Fin w))
    = [Fin (amplitude * (peak / 2))].
Proof.
  intros Hw. pose proof sqrt_2ln2_gt_1 as Hs1. pose proof sqrt_2PI_pos as Hp.
  assert (Hss : sqrt (2 * ln 2) * sqrt (2 * ln 2) = 2 * ln 2).
  { apply sqrt_sqrt. pose proof ln_lt_2. lra. }
  set (s := sqrt (2 * ln 2)) in *.
  assert (Hsig : 0 < w / (2 * s)).
  { apply Rdiv_lt_0_compat; lra. }
  rewrite compute_gauss_std_fin. fold s.
  exists (1 / sqrt (2 * PI) / (w / (2 * s))).
  split.
  { apply Rdiv_lt_0_compat; [|exact Hsig]. apply Rdiv_lt_0_compat; lra. }
  unfold gen_gaussian. cbn [map]. rewrite !norm_pdf_fin by exact Hsig.
  cbn [F.mul].
  assert (Hz0 : (mean + - mean) / (w / (2 * s)) = 0) by (field; lra).
  assert (Hzp : (mean + w / 2 + - mean) / (w / (2 * s)) = s) by (field; lra).
  assert (Hzm : (mean - w / 2 + - mean) / (w / (2 * s)) = - s) by (field; lra).
  rewrite Hz0, Hzp, Hzm.
  replace (- (0 * 0) / 2) with 0 by lra.
  replace (- (s * s) / 2) with (- ln 2) by lra.
  replace (- (- s * - s) / 2) with (- ln 2) by lra.
  rewrite exp_0, exp_minus_ln2.
  split; [reflexivity|]. split; do 2 f_equal; field; lra.
Qed.

Lemma gauss_std_gives_half_maximum_witness :
  exists peak : R,
    0 < peak /\
    gen_gaussian [Fin 10] (Fin 3) (Fin 10) (compute_gauss_std (Fin 4))
    = [Fin (3 * peak)] /\
    gen_gaussian [Fin (10 + 4 / 2)] (Fin 3) (Fin 10)
      (compute_gauss_std (Fin 4))
    = [Fin (3 * (peak / 2))].
Proof.
  destruct (gauss_std_gives_half_maximum 3 10 4 ltac:(lra))
    as (peak & Hp & H0 & H1 & _).
  exists peak. split; [exact Hp|]. split; [exact H0 | exact H1].
Defined.

End Gaussians.

Lemma zip_add_length (a b : array) :
  length a = length b -> length (Np.zip_with F.add a b) = length a.
Proof.
  revert b. induction a as [|x a IH]; intros [|y b] Hl; try discriminate;
    [reflexivity|].
  simpl in *. rewrite IH by congruence. reflexivity.
Qed.

Lemma fold_gaussians_length (x : array) (rows : list (float * float * float)) :
  forall acc, length acc = length x ->
    length (fold_left
              (fun result '(a, m, s) =>
                 Np.zip_with F.add result (gen_gaussian x a m s))
              rows acc)
    = length x.
Proof.
  induction rows as [|[[a m] s] rows IH]; intros acc Hl; [exact Hl|].
  simpl. apply IH. rewrite zip_add_length; [exact Hl|].
  unfold gen_gaussian. rewrite length_map. exact Hl.
Qed.

(** X8: [sum_of_gaussians] accepts exactly the parameter arrays with
    three values per band and raises ValueError for any other length; the
    curve it returns has one value per sample of x; and it reads nothing
    of the bands but their number. *)
Theorem sum_of_gaussians_shape
    (x : array) (bands : list band) (params : list float) :
  (length params = (3 * length bands)%nat ->
   exists y, sum_of_gaussians x bands params = Ok y /\ length y = length x) /\
  (length params <> (3 * length bands)%nat ->
   sum_of_gaussians x bands params = Raise ValueError) /\
  (forall bands' : list band,
      length bands' = length bands ->
      sum_of_gaussians x bands' params = sum_of_gaussians x bands params).
Proof.
  unfold sum_of_gaussians. split; [|split].
  - intros Hl. rewrite Hl, Nat.eqb_refl. eexists. split; [reflexivity|].
    apply fold_gaussians_length. apply length_map.
  - intros Hl. apply Nat.eqb_neq in Hl. rewrite Hl. reflexivity.
  - intros bands' ->. reflexivity.
Qed.

Lemma sum_of_gaussians_shape_witness :
  (exists y, sum_of_gaussians [Fin 1; Fin 2] [(Fin 0, Fin 4)]
               [Fin 1; Fin 2; Fin 1] = Ok y /\ length y = 2%nat) /\
  sum_of_gaussians [Fin 1; Fin 2] [(Fin 0, Fin 4)] [Fin 1; Fin 2]
  = Raise ValueError /\
  sum_of_gaussians [Fin 1; Fin 2] [(Fin 5, Fin 9)] [Fin 1; Fin 2; Fin 1]
  = sum_of_gaussians [Fin 1; Fin 2] [(Fin 0, Fin 4)] [Fin 1; Fin 2; Fin 1].
Proof.
  destruct (sum_of_gaussians_shape [Fin 1; Fin 2] [(Fin 0, Fin 4)]
              [Fin 1; Fin 2; Fin 1]) as (H1 & _ & H3).
  destruct (sum_of_gaussians_shape [Fin 1; Fin 2] [(Fin 0, Fin 4)]
              [Fin 1; Fin 2]) as (_ & H2 & _).
  split; [exact (H1 eq_refl)|]. split.
  - apply H2. simpl. discriminate.
  - apply H3. reflexivity.
Defined.

(** ** Results of a list of fallible computations *)

Lemma mapM_Forall2 {A B} (f : A -> result B) (l : list A) :
  forall r, mapM f l = Ok r -> Forall2 (fun a b => f a = Ok b) l r.
Proof.
  induction l as [|a l IH]; simpl; intros r H.
  - injection H as <-. constructor.
  - destruct (f a) as [b|] eqn:Hb; simpl in H; [|discriminate].
    destruct (mapM f l) as [bs|] eqn:Hm; simpl in H; [|discriminate].
    injection H as <-. constructor; [exact Hb | apply IH; reflexivity].
Qed.

Lemma mapM_length {A B} (f : A -> result B) (l : list A) (r : list B) :
  mapM f l = Ok r -> length r = length l.
Proof.
  intros H. apply mapM_Forall2 in H. symmetry.
  eapply Forall2_length. exact H.
Qed.


(** ** The detection of the line-noise peaks *)



(** ** The initial guess and the bounds of the gaussian fit *)

Lemma band_guess_bounds_shape (freqs ps : array) (b : band) g bb :
  band_guess_bounds freqs ps b = Ok (g, bb) ->
  length g = 3%nat /\ length bb = 3%nat.
Proof.
  unfold band_guess_bounds. destruct b as [l h].
  destruct (Np.select _ ps) as [bv|]; simpl; [|discriminate].
  destruct (Np.select _ freqs) as [fb|]; simpl; [|discriminate].
  destruct (Np.max bv) as [amp|]; simpl; [|discriminate].
  intros H. injection H as <- <-. split; reflexivity.
Qed.

Lemma concat_length3 {A B} (f : A -> list B) (l : list A) :
  Forall (fun a => length (f a) = 3%nat) l ->
  length (concat (map f l)) = (3 * length l)%nat.
Proof.
  induction 1 as [|a l Ha _ IH]; [reflexivity|].
  simpl. rewrite length_app, Ha, IH. lia.
Qed.

(** X10: the initial guess and the bounds that [constrained_gaussian_fit]
    builds have three entries per band, so the model function it hands to
    the solver accepts the initial guess: [sum_of_gaussians] does not
    raise on it, for any x. *)
Theorem gaussian_guess_has_three_per_band
    (freqs ps : array) (bands : list band) (g : list float)
    (bb : list (float * float)) :
  guess_bounds freqs ps bands = Ok (g, bb) ->
  length g = (3 * length bands)%nat /\
  length bb = (3 * length bands)%nat /\
  (forall x, exists y, sum_of_gaussians x bands g = Ok y).
Proof.
  unfold guess_bounds. intros H.
  apply rbind_ok in H. destruct H as (per & Hper & H). injection H as <- <-.
  pose proof (mapM_length _ _ _ Hper) as Hlen.
  apply mapM_Forall2 in Hper.
  assert (Hshape : Forall (fun p : list float * list (float * float) =>
                             length (fst p) = 3%nat /\ length (snd p) = 3%nat)
                     per).
  { clear Hlen. induction Hper as [|b [g bb] l r Hb _ IH]; constructor.
    - simpl. eapply band_guess_bounds_shape. exact Hb.
    - exact IH. }
  assert (Hg : length (concat (map fst per)) = (3 * length bands)%nat).
  { rewrite <- Hlen. apply concat_length3.
    revert Hshape. apply Forall_impl. intros p [H1 H2]. exact H1. }
  split; [exact Hg|]. split.
  - rewrite <- Hlen. apply concat_length3.
    revert Hshape. apply Forall_impl. intros p [H1 H2]. exact H2.
  - intros x. unfold sum_of_gaussians. rewrite Hg, Nat.eqb_refl.
    eexists. reflexivity.
Qed.

Lemma gaussian_guess_has_three_per_band_witness :
  exists g bb,
    guess_bounds [Fin 1; Fin 2] [Fin 1; Fin 1] [(Fin 0, Fin 4)] = Ok (g, bb) /\
    length g = 3%nat /\ length bb = 3%nat.
Proof.
  assert (H : exists g bb,
             guess_bounds [Fin 1; Fin 2] [Fin 1; Fin 1] [(Fin 0, Fin 4)]
             = Ok (g, bb)).
  { pose proof ln_lt_2 as H. pose proof sqrt_2ln2_gt_1 as Hs.
    fl_eval. eexists. eexists. reflexivity. }
  destruct H as (g & bb & H). exists g, bb. split; [exact H|].
  destruct (gaussian_guess_has_three_per_band _ _ _ _ _ H) as (Hg & Hb & _).
  split; [exact Hg | exact Hb].
Defined.





(** X11: a band that contains no frequency sample (no f with
    low < f <= high, in the domain the peaks are fitted in) makes
    [constrained_gaussian_fit] raise ValueError, the maximum of an empty
    selection, before the solver is called. *)
Theorem band_without_samples_raises
    (E : Externals) (freqs ps : array) (bands : list band) (logf : bool)
    (fd : array) (bd : list band) :
  fit_domain freqs bands logf = (fd, bd) ->
  length freqs = length ps ->
  Exists (fun b : band =>
            Forall (fun f => F.gtb f (fst b) && F.leb f (snd b) = false) fd)
         bd ->
  constrained_gaussian_fit E (Some freqs) ps bands logf = Raise ValueError.
Proof. exact (empty_band_raises E freqs ps bands logf fd bd). Qed.

Lemma band_without_samples_raises_witness :
  constrained_gaussian_fit solver_answers_zero (Some [Fin 1; Fin 2; Fin 3])
    [Fin 0; Fin 1; Fin 1] [(Fin 1, Fin 4); (Fin 4, Fin 8)] false
  = Raise ValueError.
Proof.
  apply (band_without_samples_raises solver_answers_zero
           [Fin 1; Fin 2; Fin 3] [Fin 0; Fin 1; Fin 1]
           [(Fin 1, Fin 4); (Fin 4, Fin 8)] false
           [Fin 1; Fin 2; Fin 3] [(Fin 1, Fin 4); (Fin 4, Fin 8)]).
  - reflexivity.
  - reflexivity.
  - apply Exists_cons_tl. apply Exists_cons_hd.
    repeat constructor; fl_eval; reflexivity.
Defined.

(** ** The initial guess and the bounds of the aperiodic fits *)

(** X12: for every object the constructor builds, in whatever state the
    methods have left it, the initial guess of the aperiodic fit has as
    many entries as the lower and the upper bounds handed to the solver
    with it: three in 'knee' mode, two in any other mode. *)
Theorem aperiodic_guess_matches_bounds
    (scheme : bands_arg) (n_peaks : Z) (logf : bool) (n_div : Z)
    (lo hi prom : float) (noise : option float) (mode : string)
    (iter : bool) (verb : Z) (self0 : ParamSpectra)
    (p : float) (d : Data) (r : Results) (mh : option Z)
    (arg : array) (g : list float) :
  init scheme n_peaks logf n_div lo hi prom noise mode iter verb = Ok self0 ->
  let self := {| settings := settings_with_prominence p (settings self0);
                 data := d; results := r; _max_harmonic := mh |} in
  ap_guess self arg = Ok g ->
  length g = length (fst (ap_bounds self)) /\
  length g = length (snd (ap_bounds self)) /\
  length g = (if String.eqb mode "knee" then 3 else 2)%nat.
Proof.
  intros Hinit self Hg. unfold init in Hinit.
  destruct (str2band scheme n_peaks lo hi n_div) as [[resolved name]|];
    simpl in Hinit; [|discriminate].
  injection Hinit as <-. unfold ap_guess in Hg. simpl in Hg.
  apply rbind_ok in Hg. destruct Hg as (off & _ & Hg).
  apply rbind_ok in Hg. destruct Hg as (slope & _ & Hg).
  injection Hg as <-. unfold ap_bounds. simpl.
  destruct (String.eqb mode "knee"); simpl; repeat split; reflexivity.
Qed.

Lemma aperiodic_guess_matches_bounds_witness :
  exists g,
    ap_guess example_attached [Fin 0; Fin 1; Fin 1] = Ok g /\
    length g = 2%nat /\
    ap_bounds example_attached = ([NInf; NInf], [PInf; PInf]).
Proof.
  assert (H : exists g,
             ap_guess example_attached [Fin 0; Fin 1; Fin 1] = Ok g).
  { eexists. fl_go. reflexivity. }
  destruct H as [g H]. exists g. split; [exact H|].
  destruct (aperiodic_guess_matches_bounds
              (BandsList [(Fin 1, Fin 4)]) 6 false 1 (ratio 3 10) (Fin 250)
              (ratio 1 2) None "fixed" false 0 example_object
              (ratio 1 2)
              {| freqs := Some [Fin 1; Fin 2; Fin 3];
                 freq_range := Some (Fin 1, Fin 3);
                 freq_res := Some (Fin 1);
                 power_spectrum := Some [Fin 0; Fin 1; Fin 1] |}
              (cleared_results "fixed") (Some 0%Z)
              [Fin 0; Fin 1; Fin 1] g example_object_init H)
    as (_ & _ & Hl).
  split; [exact Hl | reflexivity].
Defined.

Open Scope meth_scope.

(** ** Attaching data *)

Lemma bind_lift {A B} (r : result A) (k : A -> M B) s :
  bind (lift r) k s = match r with Ok a => k a s | Raise e => (Raise e, s) end.
Proof. destruct r; reflexivity. Qed.

Lemma prepare_data_without_linenoise (E1 E2 : Externals)
    (f p : array) (fr : option (float * float)) (s : ParamSpectra) :
  linenoise (settings s) = None ->
  _prepare_data E1 f p fr s = _prepare_data E2 f p fr s.
Proof.
  intros H. unfold _prepare_data.
  destruct (negb (length f =? length p)%nat); [reflexivity|].
  rewrite !step_ret, !bind_lift.
  destruct (match fr with Some r => trim_spectrum f p r | None => Ok (f, p) end)
    as [[f1 p1]|]; [|reflexivity].
  rewrite !bind_lift.
  match goal with |- match ?r with _ => _ end = _ =>
    destruct r as [[f2 p2]|]; [|reflexivity] end.
  rewrite !bind_lift.
  match goal with |- match ?r with _ => _ end = _ =>
    destruct r as [[rng res]|]; [|reflexivity] end.
  rewrite !step_gets, H. rewrite !step_lift with (a := 0%Z) by reflexivity.
  rewrite !step_modify. reflexivity.
Qed.

(** X13: when the object has no line-noise frequency (linenoise=None),
    [add_data] never calls the peak detector or the interpolation: its
    outcome and the state it leaves are the same whatever those external
    functions do. *)
Theorem add_data_without_linenoise_ignores_detector
    (E1 E2 : Externals) (f p : array) (fr : option (float * float))
    (cr : bool) (self : ParamSpectra) :
  linenoise (settings self) = None ->
  add_data E1 f p fr cr self = add_data E2 f p fr cr self.
Proof.
  intros H. unfold add_data. rewrite !step_gets.
  unfold bind at 1. symmetry. unfold bind at 1. symmetry.
  pose proof (reset_keeps_settings (has_data self) (has_data self)
                (has_model self && cr) self) as Hk.
  destruct (_reset_data_results (has_data self) (has_data self)
              (has_model self && cr) self) as [[u|e] s1]; [|reflexivity].
  simpl in Hk. unfold bind.
  rewrite (prepare_data_without_linenoise E1 E2 f p fr s1)
    by (rewrite Hk; exact H).
  reflexivity.
Qed.

Lemma add_data_without_linenoise_ignores_detector_witness :
  add_data detector_one_peak [Fin 1; Fin 2; Fin 3] [Fin 1; Fin 10; Fin 10]
    None true example_object
  = add_data solver_answers_zero [Fin 1; Fin 2; Fin 3]
      [Fin 1; Fin 10; Fin 10] None true example_object.
Proof.
  apply (add_data_without_linenoise_ignores_detector detector_one_peak
           solver_answers_zero [Fin 1; Fin 2; Fin 3] [Fin 1; Fin 10; Fin 10]
           None true example_object).
  reflexivity.
Defined.

Lemma select_short (m : list bool) (a : array) :
  (length a < 2)%nat -> (length (Np.select_mask m a) < 2)%nat.
Proof.
  intros H. revert a H. induction m as [|b m IH]; intros [|x a] H; simpl;
    try lia.
  simpl in H. destruct a as [|y a]; [|simpl in H; lia].
  destruct b; destruct m; simpl; lia.
Qed.

Lemma prepare_data_short (E : Externals) (f p : array) (s : ParamSpectra) :
  length f = length p -> (length f < 2)%nat ->
  fst (_prepare_data E f p None s) = Raise IndexError.
Proof.
  intros Hl Hs. unfold _prepare_data. rewrite Hl, Nat.eqb_refl. cbn [negb].
  rewrite step_ret, bind_lift. cbv iota beta. rewrite bind_lift.
  destruct f as [|x [|y f]]; [reflexivity| |simpl in Hs; lia].
  cbn [Np.index Z.ltb Z.compare nth_error Z.to_nat rbind].
  destruct (F.eqb x F.zero); [reflexivity|].
  cbv iota beta. rewrite bind_lift. reflexivity.
Qed.

(** X14: a spectrum needs two samples: [add_data] on arrays of equal
    length with fewer than two samples left after trimming to the
    requested range raises IndexError (from [freqs[0]] or [freqs[1]]). *)
Theorem add_data_needs_two_samples
    (E : Externals) (f p : array) (fr : option (float * float)) (cr : bool)
    (self : ParamSpectra) :
  length f = length p ->
  (length f < 2)%nat \/
  (exists r, fr = Some r /\
     (length (filter (fun x => F.geb x (fst r) && F.leb x (snd r)) f) < 2)%nat) ->
  fst (add_data E f p fr cr self) = Raise IndexError.
Proof.
  intros Hl Hs. unfold add_data. rewrite step_gets.
  unfold bind at 1.
  assert (Hreset : forall a b c s, fst (_reset_data_results a b c s) = Ok tt)
    by reflexivity.
  specialize (Hreset (has_data self) (has_data self) (has_model self && cr)
                self).
  destruct (_reset_data_results (has_data self) (has_data self)
              (has_model self && cr) self) as [r s1].
  simpl in Hreset. subst r. unfold bind.
  assert (Hp : fst (_prepare_data E f p fr s1) = Raise IndexError).
  { destruct fr as [r|].
    - assert (Hshort :
          (length (Np.select_mask
                     (map (fun x => F.geb x (fst r) && F.leb x (snd r)) f) f)
           < 2)%nat).
      { destruct Hs as [Hs | (r' & Hr & Hs)].
        - apply select_short. exact Hs.
        - injection Hr as <-. rewrite select_mask_filter. exact Hs. }
      pose proof (prepare_data_short E _ _ s1
                    (select_mask_same_length
                       (map (fun x => F.geb x (fst r) && F.leb x (snd r)) f)
                       f p Hl) Hshort) as Hps.
      unfold _prepare_data in Hps |- *.
      rewrite Hl, Nat.eqb_refl. cbn [negb]. rewrite step_ret, bind_lift.
      rewrite (trim_spectrum_eq _ _ _ Hl). cbv iota beta.
      rewrite <- (select_mask_same_length _ f p Hl) in Hps.
      rewrite Nat.eqb_refl in Hps. cbn [negb] in Hps.
      rewrite step_ret, bind_lift in Hps. cbv iota beta in Hps. exact Hps.
    - destruct Hs as [Hs | (r' & Hr & _)]; [|discriminate].
      apply prepare_data_short; assumption. }
  destruct (_prepare_data E f p fr s1) as [[r|e] s2]; simpl in Hp;
    [discriminate|].
  injection Hp as ->. reflexivity.
Qed.

Lemma add_data_needs_two_samples_witness :
  fst (add_data solver_answers_zero [Fin 5] [Fin 1] None true example_object)
  = Raise IndexError /\
  fst (add_data solver_answers_zero [Fin 1; Fin 2; Fin 3]
         [Fin 1; Fin 10; Fin 10] (Some (Fin 2, Fin 2)) true example_object)
  = Raise IndexError.
Proof.
  split.
  - apply (add_data_needs_two_samples solver_answers_zero [Fin 5] [Fin 1]
             None true example_object); [reflexivity|].
    left. simpl. lia.
  - apply (add_data_needs_two_samples solver_answers_zero
             [Fin 1; Fin 2; Fin 3] [Fin 1; Fin 10; Fin 10]
             (Some (Fin 2, Fin 2)) true example_object); [reflexivity|].
    right. exists (Fin 2, Fin 2). split; [reflexivity|].
    fl_eval. simpl. lia.
Defined.

Lemma isfinite_not_inf_nan (l : array) :
  existsb F.isinf l || existsb F.isnan l = false ->
  Forall (fun v => F.isfinite v = true) l.
Proof.
  intros H. apply orb_false_elim in H. destruct H as [Hi Hn].
  apply Forall_forall. intros v Hv.
  destruct v as [| | |r]; try reflexivity.
  - assert (existsb F.isnan l = true)
      by (apply existsb_exists; exists NaN; split; [exact Hv | reflexivity]).
    congruence.
  - assert (existsb F.isinf l = true)
      by (apply existsb_exists; exists NInf; split; [exact Hv | reflexivity]).
    congruence.
  - assert (existsb F.isinf l = true)
      by (apply existsb_exists; exists PInf; split; [exact Hv | reflexivity]).
    congruence.
Qed.

Lemma bind_ok_keeps {A B C} (f : ParamSpectra -> C) (m : M A) (k : A -> M B)
    s b s' :
  keeps f m ->
  bind m k s = (Ok b, s') ->
  exists a s1, m s = (Ok a, s1) /\ f s1 = f s /\ k a s1 = (Ok b, s').
Proof.
  intros Hk H. apply bind_ok in H. destruct H as (a & s1 & Hm & H).
  exists a, s1. split; [exact Hm|]. split; [|exact H].
  eapply keeps_result; eassumption.
Qed.

(** Inversion of a method that returned normally, one step at a time, with
    the settings of every intermediate state. *)
Ltac kinv H :=
  lazymatch type of H with
  | (let '(_, _) := ?x in _) _ = _ => destruct x
  | bind ?m ?k ?s = (Ok _, _) =>
      let a := fresh "a" in
      let s1 := fresh "s" in
      let Hm := fresh "Hm" in
      let Hs := fresh "Hset" in
      apply (bind_ok_keeps settings) in H;
      [ destruct H as (a & s1 & Hm & Hs & H); cbv beta in H
      | unfold set_results; frame ]
  end.

Ltac same_settings :=
  repeat match goal with
         | Hs : settings ?a = settings ?b |- _ =>
             try rewrite Hs in *; clear Hs
         end.

Lemma prepare_data_checked (E : Externals) (f p : array)
    (fr : option (float * float)) (s s' : ParamSpectra)
    (fr' ps' : array) (rng : float * float) (res : float) :
  _check_freqs (settings s) = true ->
  _check_data (settings s) = true ->
  _prepare_data E f p fr s = (Ok (fr', ps', rng, res), s') ->
  Forall (fun v => F.isfinite v = true) ps' /\
  Forall (fun d => Np.isclose_default d res = true) (Np.diff fr').
Proof.
  intros Hcf Hcd H. unfold _prepare_data in H.
  repeat kinv H.
  apply gets_ok in Hm7. destruct Hm7 as [-> ->].
  apply gets_ok in Hm9. destruct Hm9 as [-> ->].
  same_settings. rewrite Hcf in Hm8. rewrite Hcd in Hm10.
  apply ret_ok in H. destruct H as [H _].
  injection H as H1 H2 H3 H4. subst fr' ps' rng res.
  split.
  - destruct (existsb F.isinf (map F.log10 a8)
              || existsb F.isnan (map F.log10 a8)) eqn:Hbad;
      [discriminate Hm10|].
    apply isfinite_not_inf_nan. exact Hbad.
  - destruct (forallb (fun d => Np.isclose_default d f0) (Np.diff a7)) eqn:Hev;
      [|discriminate Hm8].
    apply Forall_forall. rewrite forallb_forall in Hev. exact Hev.
Qed.

(** X15: what [add_data] stores has passed its checks: with the data
    checks on (as the constructor sets them), after a call that returned
    normally all four data attributes are set, every stored log-power
    value is finite (neither NaN nor infinite), consecutive stored
    frequencies all differ by the stored frequency resolution (up to the
    tolerance of [np.isclose]), and the settings are unchanged. *)
Theorem add_data_stores_checked_data
    (E : Externals) (f p : array) (fr : option (float * float)) (cr : bool)
    (self s' : ParamSpectra) :
  _check_freqs (settings self) = true ->
  _check_data (settings self) = true ->
  add_data E f p fr cr self = (Ok tt, s') ->
  exists fr' ps' rng res,
    data s' = {| freqs := Some fr'; freq_range := Some rng;
                 freq_res := Some res; power_spectrum := Some ps' |} /\
    Forall (fun v => F.isfinite v = true) ps' /\
    Forall (fun d => Np.isclose_default d res = true) (Np.diff fr') /\
    settings s' = settings self.
Proof.
  intros Hcf Hcd H.
  pose proof (keeps_result settings _ _ _ _
                (add_data_keeps_settings E f p fr cr) H) as Hset.
  unfold add_data in H. repeat kinv H.
  match goal with
  | Hg : gets _ _ = (Ok _, _) |- _ => apply gets_ok in Hg; destruct Hg as [-> ->]
  end.
  apply modify_ok in H. subst s'. cbn [data with_data].
  match goal with
  | Hr : _reset_data_results _ _ _ _ = (Ok _, ?s0),
    Hp : _prepare_data E f p fr ?s0 = (Ok (?fr', ?ps', ?rng, ?res), _) |- _ =>
      pose proof (keeps_result settings _ _ _ _
                    (reset_keeps_settings _ _ _) Hr) as Hs0;
      destruct (prepare_data_checked E f p fr _ _ fr' ps' rng res
                  ltac:(rewrite Hs0; exact Hcf) ltac:(rewrite Hs0; exact Hcd)
                  Hp) as [Hf He];
      exists fr', ps', rng, res
  end.
  split; [reflexivity|]. split; [exact Hf|]. split; [exact He | exact Hset].
Qed.

Lemma add_data_stores_checked_data_witness :
  add_data solver_answers_zero [Fin 1; Fin 2; Fin 3] [Fin 1; Fin 10; Fin 10]
    None true example_object = (Ok tt, example_attached) /\
  exists fr' ps' rng res,
    data example_attached
    = {| freqs := Some fr'; freq_range := Some rng;
         freq_res := Some res; power_spectrum := Some ps' |} /\
    Forall (fun v => F.isfinite v = true) ps' /\
    Forall (fun d => Np.isclose_default d res = true) (Np.diff fr').
Proof.
  assert (H : add_data solver_answers_zero [Fin 1; Fin 2; Fin 3]
                [Fin 1; Fin 10; Fin 10] None true example_object
              = (Ok tt, example_attached)).
  { fl_eval. rewrite ?ln_1, ?log10_of_10. fl_eval.
    replace (0 / ln 10)%R with 0%R by (unfold Rdiv; ring).
    replace (2 + - (1))%R with 1%R by ring.
    reflexivity. }
  split; [exact H|].
  destruct (add_data_stores_checked_data solver_answers_zero
              [Fin 1; Fin 2; Fin 3] [Fin 1; Fin 10; Fin 10] None true
              example_object example_attached eq_refl eq_refl H)
    as (fr' & ps' & rng & res & Hd & Hf & He & _).
  exists fr', ps', rng, res. split; [exact Hd|]. split; [exact Hf | exact He].
Defined.

(** ** Fitting without data *)

Lemma any_all_zero (p : array) :
  Forall (fun v => v = Fin 0) p -> Np.any p = false.
Proof.
  induction 1 as [|v p Hv _ IH]; [reflexivity|].
  unfold Np.any in *. simpl. rewrite IH. subst v.
  unfold F.truthy, F.eqb, F.zero. rewrite Reqb_true by reflexivity.
  reflexivity.
Qed.

(** X16: on an object that prints no diagnostics of level 2 (verbose at
    most 1; the embedding leaves the printing out), [fit] called without a
    power spectrum while the object holds no data raises NoDataError and
    changes nothing but the stored prominence; so does [fit] called with a
    power spectrum alone whose values are all zero, which is then stored:
    a spectrum of zeros does not count as data. *)
Theorem fit_without_data_raises_NoDataError
    (E : Externals) (fra : option (float * float)) (pr : float)
    (self : ParamSpectra) :
  (verbose (settings self) <= 1)%Z ->
  (has_data self = false ->
   forall fa,
     fit E fa None fra pr self
     = (Raise NoDataError,
        with_settings (settings_with_prominence pr (settings self)) self)) /\
  (forall p,
      Forall (fun v => v = Fin 0) p ->
      fit E None (Some p) fra pr self
      = (Raise NoDataError,
         with_data (data_with_power_spectrum (Some p) (data self))
           (with_settings (settings_with_prominence pr (settings self))
              self))).
Proof.
  intros _. split.
  - intros Hd fa. unfold fit, fit_attach. rewrite !bind_assoc.
    rewrite step_modify.
    assert (Hd' : has_data
              (with_settings (settings_with_prominence pr (settings self))
                 self) = false) by exact Hd.
    rewrite bind_assoc.
    destruct fa; rewrite step_ret, bind_assoc, step_gets, Hd'; reflexivity.
  - intros p Hp. unfold fit, fit_attach. rewrite !bind_assoc.
    rewrite step_modify. cbv iota. rewrite !bind_assoc, step_modify.
    rewrite !bind_assoc, step_gets.
    unfold has_data at 1. cbn [data with_data data_with_power_spectrum
                                 power_spectrum].
    rewrite (any_all_zero p Hp). reflexivity.
Qed.

Lemma fit_without_data_raises_NoDataError_witness :
  fst (fit solver_answers_zero None None None fit_default_prominence
         example_object) = Raise NoDataError /\
  fst (fit solver_answers_zero None (Some [Fin 0; Fin 0; Fin 0]) None
         fit_default_prominence example_object) = Raise NoDataError.
Proof.
  destruct (fit_without_data_raises_NoDataError solver_answers_zero None
              fit_default_prominence example_object ltac:(simpl; lia))
    as [H1 H2].
  split.
  - rewrite (H1 eq_refl None). reflexivity.
  - rewrite (H2 [Fin 0; Fin 0; Fin 0]); [reflexivity|].
    repeat constructor.
Defined.

(** X17: a spectrum whose power is 1 at every frequency is not data
    either: when [fit] is given frequencies and powers (on an object with
    verbose at most 1) and the log-power values that [add_data] attaches
    are all zero, it raises NoDataError, leaving the data attached. *)
Theorem fit_on_zero_log_power_raises_NoDataError
    (E : Externals) (f p : array) (fra : option (float * float)) (pr : float)
    (self s1 : ParamSpectra) (zs : array) :
  (verbose (settings self) <= 1)%Z ->
  add_data E f p fra true
    (with_settings (settings_with_prominence pr (settings self)) self)
  = (Ok tt, s1) ->
  power_spectrum (data s1) = Some zs ->
  Forall (fun v => v = Fin 0) zs ->
  fit E (Some f) (Some p) fra pr self = (Raise NoDataError, s1).
Proof.
  intros _ Ha Hp Hz. unfold fit, fit_attach. rewrite !bind_assoc.
  rewrite step_modify. cbv iota. rewrite !bind_assoc.
  unfold bind at 1. rewrite Ha. cbv iota beta.
  rewrite ?bind_assoc, step_gets. unfold has_data. rewrite Hp.
  rewrite (any_all_zero zs Hz). reflexivity.
Qed.

Lemma fit_on_zero_log_power_raises_NoDataError_witness :
  exists s1,
    fit solver_answers_zero (Some [Fin 1; Fin 2; Fin 3])
      (Some [Fin 1; Fin 1; Fin 1]) None fit_default_prominence example_object
    = (Raise NoDataError, s1) /\
    power_spectrum (data s1) = Some [Fin 0; Fin 0; Fin 0].
Proof.
  assert (H : exists s1,
             add_data solver_answers_zero [Fin 1; Fin 2; Fin 3]
               [Fin 1; Fin 1; Fin 1] None true
               (with_settings
                  (settings_with_prominence fit_default_prominence
                     (settings example_object)) example_object)
             = (Ok tt, s1) /\
             power_spectrum (data s1) = Some [Fin 0; Fin 0; Fin 0]).
  { eexists. split.
    - fl_eval. rewrite ?ln_1. fl_eval.
      replace (0 / ln 10)%R with 0%R by (unfold Rdiv; ring).
      reflexivity.
    - reflexivity. }
  destruct H as (s1 & Ha & Hp). exists s1. split; [|exact Hp].
  apply (fit_on_zero_log_power_raises_NoDataError solver_answers_zero
           [Fin 1; Fin 2; Fin 3] [Fin 1; Fin 1; Fin 1] None
           fit_default_prominence example_object s1 [Fin 0; Fin 0; Fin 0]
           ltac:(simpl; lia) Ha Hp).
  repeat constructor.
Defined.

(** ** What a call of [fit] that returns leaves behind *)

Lemma reset_results_keeps_data : keeps data (_reset_data_results false false true).
Proof. unfold _reset_data_results. frame. Qed.

Lemma fit_except_keeps_data : keeps data fit_except.
Proof. unfold fit_except, _reset_data_results. frame. Qed.

(** X18: when [fit] returns normally, whether the model was fitted or a
    FitError was contained, the object holds data ([has_data] is true), and
    its settings are those it had before the call with the prominence
    replaced by the argument of [fit]. *)
Theorem fit_returns_with_data
    (E : Externals) (fa pa : option array) (fra : option (float * float))
    (pr : float) (self s' : ParamSpectra) :
  fit E fa pa fra pr self = (Ok tt, s') ->
  has_data s' = true /\
  settings s' = settings_with_prominence pr (settings self).
Proof.
  intros H. split.
  - unfold fit in H. apply bind_ok in H. destruct H as (u & s1 & Ha & H).
    cbv beta in H.
    assert (Hd : has_data s1 = true).
    { unfold fit_attach in Ha.
      apply bind_ok in Ha. destruct Ha as (u1 & s2 & _ & Ha).
      apply bind_ok in Ha. destruct Ha as (u2 & s3 & _ & Ha).
      cbv beta in Ha. rewrite step_gets in Ha.
      destruct (has_data s3) eqn:Hd; [|discriminate Ha].
      apply ret_ok in Ha. destruct Ha as [_ <-]. exact Hd. }
    assert (Hk : keeps data (try_except (fit_steps E) FitError fit_except)).
    { apply keeps_try_except;
        [apply fit_steps_keeps_data | apply fit_except_keeps_data]. }
    pose proof (keeps_result data _ _ _ _ Hk H) as Hdata.
    unfold has_data in *. rewrite Hdata. exact Hd.
  - pose proof (fit_stores_prominence E fa pa fra pr self) as Hs.
    rewrite H in Hs. exact Hs.
Qed.

Lemma fit_returns_with_data_witness :
  exists s',
    fit solver_needs_enough_points (Some [Fin 1; Fin 2; Fin 3])
      (Some [Fin 1; Fin 10; Fin 10]) None fit_default_prominence
      example_object = (Ok tt, s') /\
    has_data s' = true.
Proof.
  eexists. split.
  - apply (fit_contains_FitError solver_needs_enough_points
             (Some [Fin 1; Fin 2; Fin 3]) (Some [Fin 1; Fin 10; Fin 10])
             None fit_default_prominence example_object example_attached).
    + apply example_fit_attach.
    + exact example_fit_steps_fail.
    + reflexivity.
  - refine (proj1 (fit_returns_with_data solver_needs_enough_points
                     (Some [Fin 1; Fin 2; Fin 3])
                     (Some [Fin 1; Fin 10; Fin 10]) None
                     fit_default_prominence example_object _ _)).
    apply (fit_contains_FitError solver_needs_enough_points
             (Some [Fin 1; Fin 2; Fin 3]) (Some [Fin 1; Fin 10; Fin 10])
             None fit_default_prominence example_object example_attached).
    + apply example_fit_attach.
    + exact example_fit_steps_fail.
    + reflexivity.
Defined.

Close Scope meth_scope.
